(** * Small-world graph index (similarity_search/src/method/small_world_rand.cc)

    A shallow embedding of [SmallWorldRand<dist_t>]: the graph of [MSWNode]s,
    the index-time traversal [kSearchElementsWithAttempts], the inserter
    [add], the publication step [addCriticalSection], the two [Search]
    entry points and the constructor, followed by the properties of the
    specification that concern them.

    Conventions of the embedding.
    - [dist_t] is instantiated at [int] (the source instantiates the class at
      [float], [double] and [int]); distances are only compared, never added,
      so they are plain [Z].
    - An [MSWNode*] is a position in the arena of allocated nodes; [NULL] is
      [None].
    - [size_t] fields that only count (sizes, [NN_], attempt numbers) are
      [nat]; [addIndex_], which carries the sentinel
      [numeric_limits<size_t>::max()], is an [N].
    - [rand()] is the process-wide generator: its successive values are an
      arbitrary sequence [rand_src], and the state counts the calls made.
    - Mutexes are not modelled: every function below is the code one thread
      executes with no other thread running in between.  States in which
      another thread stopped half-way through an insertion are ordinary
      values of the state type.
    - The [while] loops take a bound on the number of iterations; running
      out of it is the outcome [OutOfFuel], which is not a behaviour of the
      code. *)

From Stdlib Require Import ZArith NArith Lia.
From stdpp Require Import base numbers option list sets relations strings.

(** ** Outcomes *)

Inductive outcome (A : Type) : Type :=
| Ok (a : A)                  (* normal return *)
| Throw (what : string)       (* throw runtime_error(what) *)
| Fault                       (* undefined behaviour: NULL or dangling
                                 dereference, top() of an empty queue,
                                 out-of-range operator[] *)
| OutOfFuel.                  (* iteration bound of the model exhausted *)

Arguments Ok {A} a.
Arguments Throw {A} what.
Arguments Fault {A}.
Arguments OutOfFuel {A}.

Definition obind {A B} (m : outcome A) (k : A -> outcome B) : outcome B :=
  match m with
  | Ok a => k a
  | Throw w => Throw w
  | Fault => Fault
  | OutOfFuel => OutOfFuel
  end.

Notation "x <~ m ;; k" := (obind m (fun x => k))
  (at level 100, m at next level, right associativity).

(** A [for] loop over a container whose body may fail. *)
Fixpoint for_each {A S} (body : S -> A -> outcome S) (xs : list A) (s : S)
  : outcome S :=
  match xs with
  | [] => Ok s
  | x :: xs' => s' <~ body s x ;; for_each body xs' s'
  end.

(** ** std::priority_queue

    A [std::priority_queue<T>] is kept as the list of its elements with the
    top first: [less] is [operator<] of [T], and the top is a greatest
    element.  The order in which equal elements leave the queue is not fixed
    by the C++ standard; here an element goes behind the elements equal to
    it. *)

Section PriorityQueue.
Context {T : Type} (less : T -> T -> bool).

Fixpoint pq_push (x : T) (q : list T) : list T :=
  match q with
  | [] => [x]
  | y :: q' => if less y x then x :: q else y :: pq_push x q'
  end.

Definition pq_top (q : list T) : option T := head q.
Definition pq_pop (q : list T) : list T := tail q.
Definition pq_size (q : list T) : nat := length q.

Lemma pq_push_length x q : length (pq_push x q) = S (length q).
Proof. induction q as [|y q IH]; simpl; [done|]. destruct (less y x); simpl; lia. Qed.

Lemma pq_push_elem x y q : y ∈ pq_push x q <-> y = x \/ y ∈ q.
Proof.
  induction q as [|z q IH]; simpl.
  - rewrite list_elem_of_singleton, elem_of_nil. tauto.
  - destruct (less z x).
    + rewrite elem_of_cons. tauto.
    + rewrite !elem_of_cons, IH. tauto.
Qed.

Lemma pq_push_nonempty x q : pq_push x q <> [].
Proof. destruct q as [|y q]; simpl; [done|]. by destruct (less y x). Qed.
End PriorityQueue.

(** ** Nodes *)

(** An [MSWNode*]: the position of the node in the arena. *)
Abbreviation ptr := nat (only parsing).

(** [numeric_limits<size_t>::max()] on a 64-bit target. *)
Definition size_t_max : N := 18446744073709551615%N.

Section SmallWorld.
(** The opaque payload type and the space's distance. *)
Context {Object : Type}.
Variable IndexTimeDistance : Object -> Object -> Z.
(** The values returned by successive calls to [rand()]. *)
Variable rand_src : nat -> nat.

(** Modelled from the spec: the class [MSWNode] is declared in
    [method/small_world_rand.h], which is not among the sources.  Section 3
    of the specification gives its fields: the payload, the assignment
    index ([addIndex_] in the code) and the list of friends; [accessGuard_],
    the per-node mutex, has no content in a one-thread model. *)
Record MSWNode : Type := mkNode {
  data_ : Object;
  addIndex_ : N;
  friends : list ptr;
}.

Definition set_friends (fs : list ptr) (n : MSWNode) : MSWNode :=
  mkNode (data_ n) (addIndex_ n) fs.
Definition set_addIndex (i : N) (n : MSWNode) : MSWNode :=
  mkNode (data_ n) i (friends n).

(** Modelled from the spec: [EvaluatedMSWNodeDirect] and
    [EvaluatedMSWNodeReverse] are declared in the missing header.  Both pair
    a distance with a node; section 4.3 fixes their orders: the result set
    is a max-heap on the distance (Direct), the candidate set a min-heap
    (Reverse). *)
Record Evaluated : Type := mkEv { getDistance : Z; getMSWNode : ptr }.

Definition less_Direct (a b : Evaluated) : bool :=
  (getDistance a <? getDistance b)%Z.
Definition less_Reverse (a b : Evaluated) : bool :=
  (getDistance b <? getDistance a)%Z.

(** ** The index *)

Record SmallWorldRand : Type := mkIndex {
  arena : list MSWNode;          (* the allocated nodes *)
  ElList_ : list ptr;            (* the published nodes, in append order *)
  NN_ : nat;
  initIndexAttempts_ : nat;
  initSearchAttempts_ : nat;
  indexThreadQty_ : nat;
  rand_calls : nat;              (* calls made to rand() so far *)
}.

Definition set_arena (a : list MSWNode) (s : SmallWorldRand) :=
  mkIndex a (ElList_ s) (NN_ s) (initIndexAttempts_ s)
          (initSearchAttempts_ s) (indexThreadQty_ s) (rand_calls s).
Definition set_ElList (l : list ptr) (s : SmallWorldRand) :=
  mkIndex (arena s) l (NN_ s) (initIndexAttempts_ s)
          (initSearchAttempts_ s) (indexThreadQty_ s) (rand_calls s).
Definition set_rand_calls (r : nat) (s : SmallWorldRand) :=
  mkIndex (arena s) (ElList_ s) (NN_ s) (initIndexAttempts_ s)
          (initSearchAttempts_ s) (indexThreadQty_ s) r.
Definition set_initSearchAttempts (a : nat) (s : SmallWorldRand) :=
  mkIndex (arena s) (ElList_ s) (NN_ s) (initIndexAttempts_ s)
          a (indexThreadQty_ s) (rand_calls s).

(** Computations on the index: an outcome and the state reached. *)
Definition M (A : Type) : Type := SmallWorldRand -> outcome A * SmallWorldRand.

Definition ret {A} (a : A) : M A := fun s => (Ok a, s).
Definition bind {A B} (m : M A) (k : A -> M B) : M B :=
  fun s =>
    match m s with
    | (Ok a, s') => k a s'
    | (Throw w, s') => (Throw w, s')
    | (Fault, s') => (Fault, s')
    | (OutOfFuel, s') => (OutOfFuel, s')
    end.
Definition lift {A} (o : outcome A) : M A := fun s => (o, s).

Notation "x <- m ;;; k" := (bind m (fun x => k))
  (at level 100, m at next level, right associativity).

(** [*p] for an [MSWNode* p]. *)
Definition deref (p : ptr) : M MSWNode :=
  fun s => match arena s !! p with
           | Some n => (Ok n, s)
           | None => (Fault, s)
           end.

(** Modelled from the spec: [new MSWNode(obj)], section 4.1: a fresh node
    with empty friends and the sentinel index. *)
Definition new_MSWNode (obj : Object) : M ptr :=
  fun s => (Ok (length (arena s)),
            set_arena (arena s ++ [mkNode obj size_t_max []]) s).

(** Modelled from the spec: [MSWNode::removeAllFriends], section 4.1
    ([clear_friends]). *)
Definition removeAllFriends (p : ptr) : M unit :=
  fun s => match arena s !! p with
           | Some n => (Ok tt, set_arena (<[p := set_friends [] n]> (arena s)) s)
           | None => (Fault, s)
           end.

(** Modelled from the spec: [MSWNode::addFriend], section 4.1: appends,
    without looking for duplicates. *)
Definition addFriend (p element : ptr) : M unit :=
  fun s => match arena s !! p with
           | Some n =>
               (Ok tt,
                set_arena (<[p := set_friends (friends n ++ [element]) n]> (arena s)) s)
           | None => (Fault, s)
           end.

(** Modelled from the spec: [link], section 4.5 step 4: bidirectional
    friending. *)
Definition link (first second : ptr) : M unit :=
  _ <- addFriend first second ;;;
  addFriend second first.

(** Lines 204-214. *)
Definition getRandomEntryPoint : M (option ptr) :=
  fun s =>
    let size := length (ElList_ s) in
    if bool_decide (size = 0) then (Ok None, s)
    else
      let num := rand_src (rand_calls s) mod size in
      (Ok (ElList_ s !! num), set_rand_calls (S (rand_calls s)) s).

(** Lines 188-194. *)
Definition getRandomEntryPointLocked : M (option ptr) := getRandomEntryPoint.

(** Lines 196-202. *)
Definition getEntryQtyLocked : M nat := fun s => (Ok (length (ElList_ s)), s).

(** Lines 358-364. *)
Definition addCriticalSection (newElement : ptr) : M unit :=
  fun s => match arena s !! newElement with
           | Some n =>
               (Ok tt,
                set_ElList (ElList_ s ++ [newElement])
                  (set_arena
                     (<[newElement := set_addIndex (N.of_nat (length (ElList_ s))) n]>
                        (arena s)) s))
           | None => (Fault, s)
           end.

(** ** Index-time traversal (lines 216-322) *)

(** The local variables of [kSearchElementsWithAttempts].  [evaluated] is
    not a variable of the code: it lists, in order, the nodes handed to
    [space->IndexTimeDistance]. *)
Record trav : Type := mkTrav {
  visitedBitset : list bool;
  closestDistQueue : list Z;
  candidateSet : list Evaluated;
  resultSet : list Evaluated;
  evaluated : list ptr;
}.

Definition set_candidateSet (c : list Evaluated) (t : trav) : trav :=
  mkTrav (visitedBitset t) (closestDistQueue t) c (resultSet t) (evaluated t).

(** [v[i]] and [v[i] = true] on a [vector<bool>]: out of range is
    undefined behaviour. *)
Definition bitset_get (v : list bool) (i : N) : outcome bool :=
  match v !! N.to_nat i with
  | Some b => Ok b
  | None => Fault
  end.
Definition bitset_set (v : list bool) (i : N) : outcome (list bool) :=
  if bool_decide (N.to_nat i < length v) then Ok (<[N.to_nat i := true]> v)
  else Fault.

Section Traversal.
Variable h : list MSWNode.
Variable queryObj : Object.
Variable NN : nat.
Variable entryQty : nat.

(** Lines 284-318: the body of the loop over the neighbours. *)
Definition visit_neighbor (t : trav) (iter : ptr) : outcome trav :=
  match h !! iter with
  | None => Fault
  | Some nd =>
    let nodeAddIndex := addIndex_ nd in
    fresh <~ (if (N.of_nat entryQty <=? nodeAddIndex)%N then Ok true
              else b <~ bitset_get (visitedBitset t) nodeAddIndex ;; Ok (negb b)) ;;
    if fresh : bool then
      vb <~ (if (nodeAddIndex <? N.of_nat entryQty)%N
             then bitset_set (visitedBitset t) nodeAddIndex
             else Ok (visitedBitset t)) ;;
      let d := IndexTimeDistance queryObj (data_ nd) in
      let cdq := pq_push Z.ltb d (closestDistQueue t) in
      let cdq := if bool_decide (NN < pq_size cdq) then pq_pop cdq else cdq in
      let cand := pq_push less_Reverse (mkEv d iter) (candidateSet t) in
      better <~ (if bool_decide (pq_size (resultSet t) < NN) then Ok true
                 else match pq_top (resultSet t) with
                      | Some top => Ok (d <? getDistance top)%Z
                      | None => Fault
                      end) ;;
      let rs :=
        if better : bool then
          let rs := pq_push less_Direct (mkEv d iter) (resultSet t) in
          if bool_decide (NN < pq_size rs) then pq_pop rs else rs
        else resultSet t in
      Ok (mkTrav vb cdq cand rs (evaluated t ++ [iter]))
    else Ok t
  end.

(** Lines 259-320: the [while] loop on the candidate set. *)
Fixpoint candidate_loop (fuel : nat) (t : trav) : outcome trav :=
  match fuel with
  | 0 => OutOfFuel
  | S fuel' =>
    match pq_top (candidateSet t) with
    | None => Ok t
    | Some currEv =>
      match pq_top (closestDistQueue t) with
      | None => Fault
      | Some lowerBound =>
        if (lowerBound <? getDistance currEv)%Z then Ok t
        else
          match h !! getMSWNode currEv with
          | None => Fault
          | Some currNode =>
            let neighbor := friends currNode in
            t' <~ for_each visit_neighbor neighbor
                    (set_candidateSet (pq_pop (candidateSet t)) t) ;;
            candidate_loop fuel' t'
          end
      end
    end
  end.

(** Lines 236-257: what one attempt does with its entry point before the
    [while] loop; [vb], [rs] and [ev] are the bitset, the result set and
    the evaluation record left by the attempts before. *)
Definition seed_attempt (provider : option ptr)
    (vb : list bool) (rs : list Evaluated) (ev : list ptr) : outcome trav :=
  match provider with
  | None => Fault
  | Some p =>
    match h !! p with
    | None => Fault
    | Some nd =>
      let d := IndexTimeDistance queryObj (data_ nd) in
      let cand := pq_push less_Reverse (mkEv d p) [] in
      let cdq := pq_push Z.ltb d [] in
      vb' <~ (if (addIndex_ nd <? N.of_nat entryQty)%N
              then bitset_set vb (addIndex_ nd) else Ok vb) ;;
      Ok (mkTrav vb' cdq cand (pq_push less_Direct (mkEv d p) rs) (ev ++ [p]))
    end
  end.
End Traversal.

(** Lines 231-321: the loop over the attempts. *)
Fixpoint attempts_loop (fuel : nat) (queryObj : Object) (NN entryQty : nat)
    (initIndexAttempts : nat)
    (vb : list bool) (rs : list Evaluated) (ev : list ptr)
  : M (list bool * list Evaluated * list ptr) :=
  match initIndexAttempts with
  | 0 => ret (vb, rs, ev)
  | S n =>
    provider <- getRandomEntryPointLocked ;;;
    fun s =>
      match t0 <~ seed_attempt (arena s) queryObj entryQty provider vb rs ev ;;
            candidate_loop (arena s) queryObj NN entryQty fuel t0 with
      | Ok t =>
          attempts_loop fuel queryObj NN entryQty n
            (visitedBitset t) (resultSet t) (evaluated t) s
      | Throw w => (Throw w, s)
      | Fault => (Fault, s)
      | OutOfFuel => (OutOfFuel, s)
      end
  end.

(** Lines 216-322.  The result set is passed by reference: it comes in as
    [resultSet0] and goes out as the first component; the second component
    is the evaluation record. *)
Definition kSearchElementsWithAttempts (fuel : nat) (queryObj : Object)
    (NN initIndexAttempts : nat) (resultSet0 : list Evaluated)
  : M (list Evaluated * list ptr) :=
  entryQty <- getEntryQtyLocked ;;;
  let visitedBitset0 := replicate entryQty false in
  r <- attempts_loop fuel queryObj NN entryQty initIndexAttempts
         visitedBitset0 resultSet0 [] ;;;
  ret (r.1.2, r.2).

(** Lines 349-352: the result set is emptied from the top, each node
    linked with the new element. *)
Fixpoint link_results (rs : list Evaluated) (newElement : ptr) : M unit :=
  match rs with
  | [] => ret tt
  | top :: popped =>
    _ <- link (getMSWNode top) newElement ;;;
    link_results popped newElement
  end.

Definition gets {A} (f : SmallWorldRand -> A) : M A := fun s => (Ok (f s), s).

(** Lines 325-356. *)
Definition add (fuel : nat) (newElement : ptr) : M unit :=
  _ <- removeAllFriends newElement ;;;
  isEmpty <- gets (fun s => bool_decide (ElList_ s = [])) ;;;
  if isEmpty : bool then
    lift (Throw "Bug: the list of nodes shouldn't be empty!")
  else
    nd <- deref newElement ;;;
    NN <- gets NN_ ;;;
    attempts <- gets initIndexAttempts_ ;;;
    r <- kSearchElementsWithAttempts fuel (data_ nd) NN attempts [] ;;;
    _ <- link_results r.1 newElement ;;;
    addCriticalSection newElement.

(** Lines 327-353: [add] without its last statement, the append of line
    355: what a thread has done when it is about to publish its node. *)
Definition add_links (fuel : nat) (newElement : ptr) : M unit :=
  _ <- removeAllFriends newElement ;;;
  isEmpty <- gets (fun s => bool_decide (ElList_ s = [])) ;;;
  if isEmpty : bool then
    lift (Throw "Bug: the list of nodes shouldn't be empty!")
  else
    nd <- deref newElement ;;;
    NN <- gets NN_ ;;;
    attempts <- gets initIndexAttempts_ ;;;
    r <- kSearchElementsWithAttempts fuel (data_ nd) NN attempts [] ;;;
    link_results r.1 newElement.

(** *** The writes of an insertion, in program order

    To see in which order [add] changes the graph, a computation can carry
    a log: every write to the graph is entered, when it is done, with the
    state it leaves.  The writes of [add] are those of [removeAllFriends]
    (line 327), of [addFriend], twice in every [link] (line 350), and of
    [addCriticalSection] (line 355), whose two assignments are made under
    one lock and count as one write. *)

Inductive write : Type :=
| Wclear (p : ptr)              (* p->removeAllFriends() *)
| Wfriend (p element : ptr)     (* p->addFriend(element) *)
| Wpublish (p : ptr).           (* addCriticalSection(p) *)

Definition T (A : Type) : Type :=
  SmallWorldRand -> outcome A * SmallWorldRand * list (write * SmallWorldRand).

(** A step that writes nothing to the graph. *)
Definition silent {A} (m : M A) : T A := fun s => (m s, []).

(** A write: it is logged when it has been done. *)
Definition logged (w : write) (m : M unit) : T unit :=
  fun s =>
    match m s with
    | (Ok a, s') => (Ok a, s', [(w, s')])
    | (Throw what, s') => (Throw what, s', [])
    | (Fault, s') => (Fault, s', [])
    | (OutOfFuel, s') => (OutOfFuel, s', [])
    end.

Definition tbind {A B} (m : T A) (k : A -> T B) : T B :=
  fun s =>
    match m s with
    | (Ok a, s', l) => let '(r, l') := k a s' in (r, l ++ l')
    | (Throw what, s', l) => (Throw what, s', l)
    | (Fault, s', l) => (Fault, s', l)
    | (OutOfFuel, s', l) => (OutOfFuel, s', l)
    end.

Notation "x <-- m ;;; k" := (tbind m (fun x => k))
  (at level 100, m at next level, right associativity).

(** [link] with its two writes. *)
Definition link_t (first second : ptr) : T unit :=
  _ <-- logged (Wfriend first second) (addFriend first second) ;;;
  logged (Wfriend second first) (addFriend second first).

(** Lines 349-352. *)
Fixpoint link_results_t (rs : list Evaluated) (newElement : ptr) : T unit :=
  match rs with
  | [] => silent (ret tt)
  | top :: popped =>
    _ <-- link_t (getMSWNode top) newElement ;;;
    link_results_t popped newElement
  end.

(** Lines 325-356: [add], statement by statement, with its writes logged. *)
Definition add_t (fuel : nat) (newElement : ptr) : T unit :=
  _ <-- logged (Wclear newElement) (removeAllFriends newElement) ;;;
  isEmpty <-- silent (gets (fun s => bool_decide (ElList_ s = []))) ;;;
  if isEmpty : bool then
    silent (lift (Throw "Bug: the list of nodes shouldn't be empty!"))
  else
    nd <-- silent (deref newElement) ;;;
    NN <-- silent (gets NN_) ;;;
    attempts <-- silent (gets initIndexAttempts_) ;;;
    r <-- silent (kSearchElementsWithAttempts fuel (data_ nd) NN attempts []) ;;;
    _ <-- link_results_t r.1 newElement ;;;
    logged (Wpublish newElement) (addCriticalSection newElement).

(** ** Queries *)

(** Modelled from the spec: [KNNQuery] and [RangeQuery] are declared in
    [knnquery.h] and [rangequery.h], which are not among the sources.
    Section 6 gives the collector one operation, [report(distance, object)]
    ([CheckAndAddToResult] in the code), and leaves its top-k policy to the
    collector: a query is its distance to an object together with the
    reports it has received, in order. *)
Record KNNQuery : Type := mkQuery {
  DistanceObjLeft : Object -> Z;
  reports : list (Z * Object);
}.

Definition CheckAndAddToResult (d : Z) (obj : Object) (q : KNNQuery) : KNNQuery :=
  mkQuery (DistanceObjLeft q) (reports q ++ [(d, obj)]).

(** Modelled from the spec: a range query, of which the code uses
    nothing. *)
Record RangeQuery : Type := mkRangeQuery {
  RangeDistanceObjLeft : Object -> Z;
  range_reports : list (Z * Object);
}.

(** Lines 366-369. *)
Definition Search_range (query : RangeQuery) : M RangeQuery :=
  lift (Throw "Range search is not supported!").

(** The local variables of the k-NN [Search] together with the query. *)
Record qtrav : Type := mkQTrav {
  q_visitedBitset : list bool;
  q_closestDistQueue : list Z;
  q_candidateQueue : list Evaluated;
  q_query : KNNQuery;
}.

Section QueryTraversal.
Variable h : list MSWNode.
Variable NN : nat.

(** Lines 416-432. *)
Definition query_neighbor (t : qtrav) (iter : ptr) : outcome qtrav :=
  match h !! iter with
  | None => Fault
  | Some nd =>
    let nodeAddIndex := addIndex_ nd in
    if bool_decide (nodeAddIndex = size_t_max) then
      Throw "Bug: uninitialized addIndex_"
    else
      b <~ bitset_get (q_visitedBitset t) nodeAddIndex ;;
      if negb b then
        let currObj := data_ nd in
        let d := DistanceObjLeft (q_query t) currObj in
        vb <~ bitset_set (q_visitedBitset t) nodeAddIndex ;;
        let cdq := pq_push Z.ltb d (q_closestDistQueue t) in
        let cdq := if bool_decide (NN < pq_size cdq) then pq_pop cdq else cdq in
        let cand := pq_push less_Reverse (mkEv d iter) (q_candidateQueue t) in
        Ok (mkQTrav vb cdq cand (CheckAndAddToResult d currObj (q_query t)))
      else Ok t
  end.

(** Lines 397-434. *)
Fixpoint query_loop (fuel : nat) (t : qtrav) : outcome qtrav :=
  match fuel with
  | 0 => OutOfFuel
  | S fuel' =>
    match pq_top (q_candidateQueue t) with
    | None => Ok t
    | Some currEv =>
      match pq_top (q_closestDistQueue t) with
      | None => Fault
      | Some lowerBound =>
        if (lowerBound <? getDistance currEv)%Z then Ok t
        else
          match h !! getMSWNode currEv with
          | None => Fault
          | Some currNode =>
            let neighbor := friends currNode in
            t' <~ for_each query_neighbor neighbor
                    (mkQTrav (q_visitedBitset t) (q_closestDistQueue t)
                             (pq_pop (q_candidateQueue t)) (q_query t)) ;;
            query_loop fuel' t'
          end
      end
    end
  end.

(** Lines 379-395. *)
Definition query_seed (provider : option ptr) (vb : list bool)
    (query : KNNQuery) : outcome qtrav :=
  match provider with
  | None => Fault
  | Some p =>
    match h !! p with
    | None => Fault
    | Some nd =>
      let d := DistanceObjLeft query (data_ nd) in
      let cand := pq_push less_Reverse (mkEv d p) [] in
      let cdq := pq_push Z.ltb d [] in
      if bool_decide (addIndex_ nd = size_t_max) then
        Throw "Bug: uninitialized addIndex_"
      else
        vb' <~ bitset_set vb (addIndex_ nd) ;;
        Ok (mkQTrav vb' cdq cand query)
    end
  end.
End QueryTraversal.

(** Lines 375-435: the loop over the attempts. *)
Fixpoint query_attempts (fuel : nat) (attempts : nat)
    (vb : list bool) (query : KNNQuery) : M (list bool * KNNQuery) :=
  match attempts with
  | 0 => ret (vb, query)
  | S n =>
    provider <- getRandomEntryPoint ;;;
    fun s =>
      match t0 <~ query_seed (arena s) provider vb query ;;
            query_loop (arena s) (NN_ s) fuel t0 with
      | Ok t => query_attempts fuel n (q_visitedBitset t) (q_query t) s
      | Throw w => (Throw w, s)
      | Fault => (Fault, s)
      | OutOfFuel => (OutOfFuel, s)
      end
  end.

(** Lines 371-436.  The query is passed by pointer and collects the
    reports: it is returned. *)
Definition Search (fuel : nat) (query : KNNQuery) : M KNNQuery :=
  size <- gets (fun s => length (ElList_ s)) ;;;
  attempts <- gets initSearchAttempts_ ;;;
  r <- query_attempts fuel attempts (replicate size false) query ;;;
  ret r.2.

(** ** Construction (lines 72-163) *)

(** The method parameters the constructor looks up in [AnyParams]. *)
Record AnyParams : Type := mkParams {
  param_NN : option nat;
  param_initIndexAttempts : option nat;
  param_initSearchAttempts : option nat;
  param_indexThreadQty : option nat;
}.

Definition GetParamOptional (p : option nat) (current : nat) : nat :=
  match p with Some v => v | None => current end.

(** Lines 140-144: the sequential build of [data[1..]]. *)
Fixpoint add_all (fuel : nat) (data : list Object) : M unit :=
  match data with
  | [] => ret tt
  | obj :: rest =>
    node <- new_MSWNode obj ;;;
    _ <- add fuel node ;;;
    add_all fuel rest
  end.

(** Lines 74-92: worker [index_every] of [out_of] inserts the elements
    [data[i]], [i >= 1], with [i % out_of = index_every]; [tl_data] is
    [data[from..]]. *)
Fixpoint IndexThreadSW (fuel : nat) (index_every out_of : nat) (from : nat)
    (tl_data : list Object) : M unit :=
  match tl_data with
  | [] => ret tt
  | obj :: rest =>
    _ <- (if bool_decide (index_every = from mod out_of) then
            node <- new_MSWNode obj ;;;
            add fuel node
          else ret tt) ;;;
    IndexThreadSW fuel index_every out_of (S from) rest
  end.

(** Lines 146-160.  Threads are not modelled: the workers are run to
    completion one after the other, in the order they are spawned, which is
    one schedule among those the threads admit. *)
Fixpoint run_workers (fuel : nat) (workers : list nat) (out_of : nat)
    (tl_data : list Object) : M unit :=
  match workers with
  | [] => ret tt
  | w :: ws =>
    _ <- IndexThreadSW fuel w out_of 1 tl_data ;;;
    run_workers fuel ws out_of tl_data
  end.

(** Lines 100-163.  [omp_max_threads] is [omp_get_max_threads()] when the
    code is compiled with OpenMP and [None] otherwise; [rand0] is the
    number of calls made to [rand()] before the construction. *)
Definition SmallWorldRand_new (fuel : nat) (omp_max_threads : option nat)
    (rand0 : nat) (data : list Object) (MethParams : AnyParams)
  : outcome unit * SmallWorldRand :=
  let threads0 := GetParamOptional omp_max_threads 0 in
  let s0 :=
    mkIndex [] []
      (GetParamOptional (param_NN MethParams) 5)
      (GetParamOptional (param_initIndexAttempts MethParams) 2)
      (GetParamOptional (param_initSearchAttempts MethParams) 10)
      (GetParamOptional (param_indexThreadQty MethParams) threads0)
      rand0 in
  match data with
  | [] => (Ok tt, s0)
  | first :: rest =>
    (node <- new_MSWNode first ;;;
     _ <- addCriticalSection node ;;;
     threads <- gets indexThreadQty_ ;;;
     if bool_decide (threads <= 1) then add_all fuel rest
     else run_workers fuel (seq 0 threads) threads rest) s0
  end.

(** Lines 165-169. *)
Definition SetQueryTimeParamsInternal (initSearchAttempts : option nat)
  : M unit :=
  fun s => (Ok tt,
            set_initSearchAttempts
              (GetParamOptional initSearchAttempts (initSearchAttempts_ s)) s).

End SmallWorld.

Notation "x <- m ;;; k" := (bind m (fun x => k))
  (at level 100, m at next level, right associativity).

Arguments mkNode {Object} _ _ _.
Arguments MSWNode : clear implicits.
Arguments SmallWorldRand : clear implicits.
Arguments KNNQuery : clear implicits.
Arguments RangeQuery : clear implicits.
Arguments AnyParams : clear implicits.
Arguments qtrav : clear implicits.
Arguments M : clear implicits.
Arguments T : clear implicits.

(** * Properties *)

Section Properties.
Context {Object : Type}.
Variable IndexTimeDistance : Object -> Object -> Z.
Variable rand_src : nat -> nat.

Local Abbreviation state := (SmallWorldRand Object).
Local Abbreviation add := (add IndexTimeDistance rand_src).
Local Abbreviation add_t := (add_t IndexTimeDistance rand_src).
Local Abbreviation SmallWorldRand_new := (SmallWorldRand_new IndexTimeDistance rand_src).
Local Abbreviation kSearchElementsWithAttempts :=
  (kSearchElementsWithAttempts IndexTimeDistance rand_src).
Local Abbreviation Search := (Search rand_src).

(** The index and the friends of the node a pointer designates. *)
Definition addIndex_at (s : state) (p : ptr) : option N := addIndex_ <$> arena s !! p.
Definition friends_at (s : state) (p : ptr) : option (list ptr) := friends <$> arena s !! p.

(** ** Range queries *)

(** C7.  On every index, whatever its content, the range-query entry point
    throws "Range search is not supported!" at once: no traversal is run
    and the state of the index is the one it was called in. *)
Theorem Search_range_unsupported (query : RangeQuery Object) (s : state) :
  Search_range query s = (Throw "Range search is not supported!", s).
Proof. reflexivity. Qed.

(** ** Insertion into an empty graph *)

Lemma add_on_empty (fuel : nat) (x : ptr) (s : state) (nd : MSWNode Object) :
  ElList_ s = [] ->
  arena s !! x = Some nd ->
  add fuel x s =
    (Throw "Bug: the list of nodes shouldn't be empty!",
     set_arena (<[x := set_friends [] nd]> (arena s)) s).
Proof.
  intros Hempty Hx. unfold add, bind, removeAllFriends, gets, lift.
  rewrite Hx. simpl. by rewrite Hempty.
Qed.

(** C6.  [add] on a graph with no published node throws the runtime error
    "Bug: the list of nodes shouldn't be empty!" before any traversal or
    link (so for every iteration bound), and leaves the graph as it was:
    no node is published, and no allocated node changes except that the
    new element's own friends were cleared on entry. *)
Theorem add_empty_graph_throws (fuel : nat) (x : ptr) (s : state)
    (nd : MSWNode Object) :
  ElList_ s = [] ->
  arena s !! x = Some nd ->
  exists s',
    add fuel x s = (Throw "Bug: the list of nodes shouldn't be empty!", s') /\
    ElList_ s' = [] /\
    arena s' = <[x := set_friends [] nd]> (arena s) /\
    (forall p, p <> x -> arena s' !! p = arena s !! p) /\
    addIndex_at s' x = addIndex_at s x /\
    rand_calls s' = rand_calls s.
Proof.
  intros Hempty Hx.
  exists (set_arena (<[x := set_friends [] nd]> (arena s)) s).
  unfold add, bind, removeAllFriends, gets, lift. rewrite Hx. simpl.
  rewrite Hempty. simpl. repeat split; try done.
  - intros p Hp. by rewrite list_lookup_insert_ne.
  - unfold addIndex_at. simpl.
    rewrite list_lookup_insert_eq by (by eapply lookup_lt_Some).
    by rewrite Hx.
Qed.

(** ** Reasoning about sequenced computations *)

Lemma bind_Ok {A B} (m : M Object A) (k : A -> M Object B) s a s' :
  m s = (Ok a, s') -> bind m k s = k a s'.
Proof. intros H. unfold bind. by rewrite H. Qed.

Lemma bind_Ok_inv {A B} (m : M Object A) (k : A -> M Object B) s b s2 :
  bind m k s = (Ok b, s2) ->
  exists a s1, m s = (Ok a, s1) /\ k a s1 = (Ok b, s2).
Proof.
  unfold bind. destruct (m s) as [[a| | |] s1] eqn:E; try discriminate.
  intros H. by exists a, s1.
Qed.

(** ** Publication order and index density *)

(** A sequence of appends to the graph. *)
Fixpoint append_all (ps : list ptr) : M Object unit :=
  match ps with
  | [] => ret tt
  | p :: ps' => _ <- addCriticalSection p ;;; append_all ps'
  end.

(** The node at position [i] of the graph carries the index [i]. *)
Definition dense (s : state) : Prop :=
  forall i p, ElList_ s !! i = Some p -> addIndex_at s p = Some (N.of_nat i).

Lemma addCriticalSection_Ok (p : ptr) (s : state) nd :
  arena s !! p = Some nd ->
  addCriticalSection p s =
    (Ok tt, set_ElList (ElList_ s ++ [p])
              (set_arena (<[p := set_addIndex (N.of_nat (length (ElList_ s))) nd]> (arena s)) s)).
Proof. intros H. unfold addCriticalSection. by rewrite H. Qed.

Lemma addCriticalSection_dense (p : ptr) (s s' : state) :
  dense s -> p ∉ ElList_ s ->
  addCriticalSection p s = (Ok tt, s') ->
  dense s' /\ ElList_ s' = ElList_ s ++ [p] /\ length (arena s') = length (arena s).
Proof.
  intros Hd Hp. unfold addCriticalSection.
  destruct (arena s !! p) as [nd|] eqn:E; [|discriminate].
  intros [= <-]. simpl. split; [|split; [done|by rewrite length_insert]].
  intros i q Hq. unfold addIndex_at. simpl in *.
  apply lookup_lt_Some in E as Hlt.
  destruct (decide (i < length (ElList_ s))) as [Hi|Hi].
  - rewrite lookup_app_l in Hq by done.
    assert (q <> p) as Hne.
    { intros ->. apply Hp. by eapply list_elem_of_lookup_2. }
    rewrite list_lookup_insert_ne by done. by apply Hd.
  - rewrite lookup_app_r in Hq by lia.
    apply list_lookup_singleton_Some in Hq as [Hi0 <-].
    rewrite list_lookup_insert_eq by done. simpl.
    do 2 f_equal. lia.
Qed.

Lemma append_all_dense (ps : list ptr) : forall s : state,
  dense s -> NoDup (ElList_ s ++ ps) ->
  (forall p, p ∈ ps -> p < length (arena s)) ->
  exists s', append_all ps s = (Ok tt, s') /\ dense s' /\ ElList_ s' = ElList_ s ++ ps.
Proof.
  induction ps as [|p ps IH]; intros s Hd Hnd Hval; simpl.
  - exists s. by rewrite app_nil_r.
  - destruct (lookup_lt_is_Some_2 (arena s) p) as [nd Hnd'].
    { apply Hval. left. }
    apply NoDup_app in Hnd as (Hnd1 & Hdisj & Hnd2).
    apply NoDup_cons in Hnd2 as [Hp Hnd2].
    pose proof (addCriticalSection_Ok p s nd Hnd') as Hacs.
    assert (p ∉ ElList_ s) as Hfresh.
    { intros Hin. apply (Hdisj p Hin). left. }
    destruct (addCriticalSection_dense p s _ Hd Hfresh Hacs) as (Hd' & Hel & Hlen).
    erewrite bind_Ok by exact Hacs.
    destruct (IH _ Hd') as (s' & Hrun & Hd'' & Hel').
    + rewrite Hel. rewrite <- app_assoc. simpl.
      apply NoDup_app. split; [done|]. split.
      * intros q Hq. apply Hdisj. done.
      * by apply NoDup_cons.
    + intros q Hq. rewrite Hlen. apply Hval. by right.
    + exists s'. split; [done|]. split; [done|].
      rewrite Hel', Hel, <- app_assoc. done.
Qed.

(** C5.  Starting from an empty graph, [N] appends of distinct allocated
    nodes all succeed; the graph then holds exactly these [N] nodes in append
    order, and the [addIndex_] values read along the graph are 0, 1, ...,
    [N-1] in that order. *)
Theorem append_index_density (ps : list ptr) (s : state) :
  ElList_ s = [] ->
  NoDup ps ->
  (forall p, p ∈ ps -> is_Some (arena s !! p)) ->
  exists s',
    append_all ps s = (Ok tt, s') /\
    ElList_ s' = ps /\
    length (ElList_ s') = length ps /\
    addIndex_at s' <$> ElList_ s' = (fun i => Some (N.of_nat i)) <$> seq 0 (length ps).
Proof.
  intros Hempty Hnd Hval.
  destruct (append_all_dense ps s) as (s' & Hrun & Hd & Hel).
  - intros i p. rewrite Hempty. by rewrite lookup_nil.
  - by rewrite Hempty.
  - intros p Hp. apply lookup_lt_is_Some_1. by apply Hval.
  - rewrite Hempty in Hel. simpl in Hel.
    exists s'. split; [done|]. split; [done|]. split; [by rewrite Hel|].
    apply list_eq. intros i. rewrite !list_lookup_fmap.
    destruct (ElList_ s' !! i) as [p|] eqn:E; simpl.
    + rewrite (Hd i p E).
      apply lookup_lt_Some in E. rewrite Hel in E.
      rewrite lookup_seq_lt by done. done.
    + apply lookup_ge_None in E. rewrite Hel in E.
      rewrite lookup_seq_ge by done. done.
Qed.

(** ** Construction *)

Lemma run_workers_nil (fuel : nat) (ws : list nat) (out_of : nat) (s : state) :
  run_workers IndexTimeDistance rand_src fuel ws out_of [] s = (Ok tt, s).
Proof. induction ws as [|w ws IH]; simpl; [done|]. unfold bind. simpl. exact IH. Qed.

(** The index built from a one-element data sequence. *)
Definition singleton_index (a : Object) (omp_max_threads : option nat)
    (rand0 : nat) (MethParams : AnyParams) : state :=
  mkIndex [mkNode a 0%N []] [0]
    (GetParamOptional (param_NN MethParams) 5)
    (GetParamOptional (param_initIndexAttempts MethParams) 2)
    (GetParamOptional (param_initSearchAttempts MethParams) 10)
    (GetParamOptional (param_indexThreadQty MethParams)
       (GetParamOptional omp_max_threads 0))
    rand0.

Lemma SmallWorldRand_new_singleton (fuel : nat) (omp : option nat) (rand0 : nat)
    (a : Object) (MethParams : AnyParams) :
  SmallWorldRand_new fuel omp rand0 [a] MethParams
    = (Ok tt, singleton_index a omp rand0 MethParams).
Proof.
  unfold SmallWorldRand_new, bind, new_MSWNode, addCriticalSection, gets. simpl.
  case_bool_decide; simpl; [done|]. by rewrite run_workers_nil.
Qed.

(** C3.  The constructor accepts [NN = 0]: with that parameter and a
    one-element data sequence it returns normally, whatever the other
    parameters, and the index it leaves has [NN_ = 0] and one published
    node.  No parameter error is raised. *)
Theorem zero_NN_is_accepted (fuel : nat) (omp : option nat) (rand0 : nat)
    (a : Object) (attempts searches threads : option nat) :
  exists s,
    SmallWorldRand_new fuel omp rand0 [a]
      (mkParams (Some 0) attempts searches threads) = (Ok tt, s) /\
    NN_ s = 0 /\ ElList_ s = [0].
Proof.
  eexists. split; [apply SmallWorldRand_new_singleton|]. by split.
Qed.

(** ** Queries on small graphs *)

Lemma query_attempts_singleton (a : Object) (fuel : nat) (query : KNNQuery Object) :
  forall (attempts : nat) (vb : list bool) (s : state),
    arena s = [mkNode a 0%N []] -> ElList_ s = [0] -> length vb = 1 ->
    exists vb' s',
      query_attempts rand_src (S (S fuel)) attempts vb query s = (Ok (vb', query), s') /\
      arena s' = arena s /\ ElList_ s' = ElList_ s.
Proof.
  induction attempts as [|n IH]; intros vb s Ha He Hvb.
  - by exists vb, s.
  - cbn [query_attempts]. unfold bind at 1, getRandomEntryPoint. rewrite He. cbn [length].
    rewrite bool_decide_eq_false_2 by done.
    rewrite Nat.mod_1_r. cbn [lookup list_lookup set_rand_calls arena].
    rewrite Ha.
    destruct vb as [|b [|]]; try discriminate.
    unfold query_seed, bitset_set, obind. simpl lookup. cbv iota beta.
    simpl bool_decide. cbv iota. simpl query_loop.
    unfold pq_top, query_neighbor. simpl. rewrite Z.ltb_irrefl.
    cbn [q_visitedBitset q_query].
    destruct (IH [true] (set_rand_calls (S (rand_calls s)) s))
      as (vb' & s' & Hrun & Ha' & He'); [done..|].
    exists vb', s'. simpl in Ha', He'. split; [done|]. split; congruence.
Qed.

(** C1.  The index built from [D = [A]] has exactly one published node,
    which is [A] with index 0 and no friends.  A k-NN query on it returns
    normally, for every number of attempts, but hands the collector nothing:
    the query comes back with the reports it came with, so [A] is not
    reported.  The entry point's distance is computed and queued, and
    [CheckAndAddToResult] is only ever called on neighbours. *)
Theorem singleton_index_query (fuel : nat) (omp : option nat) (rand0 : nat)
    (a : Object) (MethParams : AnyParams) (query : KNNQuery Object) :
  exists s,
    SmallWorldRand_new fuel omp rand0 [a] MethParams = (Ok tt, s) /\
    length (ElList_ s) = 1 /\
    (exists p, ElList_ s = [p] /\ arena s !! p = Some (mkNode a 0%N [])) /\
    exists query' s', Search (S (S fuel)) query s = (Ok query', s') /\
                      reports query' = reports query.
Proof.
  exists (singleton_index a omp rand0 MethParams).
  split; [apply SmallWorldRand_new_singleton|]. split; [done|].
  split; [by exists 0|].
  unfold Search, bind, gets. cbn [fst snd].
  destruct (query_attempts_singleton a fuel query
              (initSearchAttempts_ (singleton_index a omp rand0 MethParams))
              (replicate (length (ElList_ (singleton_index a omp rand0 MethParams))) false)
              (singleton_index a omp rand0 MethParams)) as (vb' & s' & Hq & _); try done.
  rewrite Hq. by exists query, s'.
Qed.

(** ** The index-time traversal on a quiescent graph

    A graph is quiescent when no insertion is under way: every published
    node carries its position as index and has only published friends. *)

Definition quiescent (h : list (MSWNode Object)) (EL : list ptr) : Prop :=
  forall i p, EL !! i = Some p ->
    exists nd, h !! p = Some nd /\ addIndex_ nd = N.of_nat i /\
               forall q, q ∈ friends nd -> q ∈ EL.

(** Bits of the bitset still unset. *)
Fixpoint unvisited (v : list bool) : nat :=
  match v with
  | [] => 0
  | b :: v' => (if b then 0 else 1) + unvisited v'
  end.

Lemma unvisited_set (v : list bool) : forall i,
  v !! i = Some false -> S (unvisited (<[i := true]> v)) = unvisited v.
Proof.
  induction v as [|b v IH]; intros [|i] H; simpl in *; try discriminate.
  - by injection H as ->.
  - destruct b; simpl; rewrite <- (IH i H); lia.
Qed.

Lemma unvisited_le (v : list bool) : unvisited v <= length v.
Proof. induction v as [|[] v IH]; simpl; lia. Qed.

Lemma unvisited_all_set (v : list bool) :
  (forall i, i < length v -> v !! i = Some true) -> unvisited v = 0.
Proof.
  induction v as [|b v IH]; intros H; simpl; [done|].
  pose proof (H 0 ltac:(simpl; lia)) as H0. simpl in H0. injection H0 as ->.
  simpl. apply IH. intros i Hi. apply (H (S i)). simpl. lia.
Qed.

Section Quiescent.
Variable h : list (MSWNode Object).
Variable EL : list ptr.
Variable queryObj : Object.
Variable NN : nat.
Hypothesis Hq : quiescent h EL.

Local Abbreviation visit := (visit_neighbor IndexTimeDistance h queryObj NN (length EL)).
Local Abbreviation loop := (candidate_loop IndexTimeDistance h queryObj NN (length EL)).

Lemma published_node (p : ptr) :
  p ∈ EL ->
  exists i nd, EL !! i = Some p /\ i < length EL /\ h !! p = Some nd /\
               addIndex_ nd = N.of_nat i /\ forall q, q ∈ friends nd -> q ∈ EL.
Proof.
  intros Hp. apply list_elem_of_lookup in Hp as [i Hi].
  destruct (Hq i p Hi) as (nd & Hnd & Hidx & Hfr).
  exists i, nd. split; [done|]. split; [by eapply lookup_lt_Some|]. done.
Qed.

(** What the loop body does with a neighbour that gets evaluated. *)
Definition evaluate (t : trav) (q : ptr) (nd : MSWNode Object) (vb : list bool) : trav :=
  let d := IndexTimeDistance queryObj (data_ nd) in
  let cdq := pq_push Z.ltb d (closestDistQueue t) in
  let better :=
    if bool_decide (pq_size (resultSet t) < NN) then true
    else match pq_top (resultSet t) with
         | Some top => (d <? getDistance top)%Z
         | None => false
         end in
  mkTrav vb
    (if bool_decide (NN < pq_size cdq) then pq_pop cdq else cdq)
    (pq_push less_Reverse (mkEv d q) (candidateSet t))
    (if better then
       let rs := pq_push less_Direct (mkEv d q) (resultSet t) in
       if bool_decide (NN < pq_size rs) then pq_pop rs else rs
     else resultSet t)
    (evaluated t ++ [q]).

(** On a published neighbour the body either skips it, when its bit is set,
    or sets the bit and evaluates it. *)
Lemma visit_published (t : trav) (q : ptr) (i : nat) (nd : MSWNode Object) :
  h !! q = Some nd -> addIndex_ nd = N.of_nat i -> i < length EL ->
  length (visitedBitset t) = length EL ->
  resultSet t <> [] ->
  (visitedBitset t !! i = Some true /\ visit t q = Ok t) \/
  (visitedBitset t !! i = Some false /\
   visit t q = Ok (evaluate t q nd (<[i := true]> (visitedBitset t)))).
Proof.
  intros Hnd Hidx Hi Hlen Hrs. unfold visit_neighbor. rewrite Hnd, Hidx.
  assert ((N.of_nat (length EL) <=? N.of_nat i)%N = false) as ->
    by (apply N.leb_gt; lia).
  assert ((N.of_nat i <? N.of_nat (length EL))%N = true) as ->
    by (apply N.ltb_lt; lia).
  unfold bitset_get, bitset_set. rewrite Nat2N.id.
  destruct (visitedBitset t !! i) as [[]|] eqn:Hb.
  - left. done.
  - right. split; [done|]. simpl.
    rewrite bool_decide_eq_true_2 by lia. simpl.
    unfold evaluate. destruct (resultSet t) as [|top rs] eqn:Ers; [done|].
    simpl pq_top. case_bool_decide; simpl; done.
  - apply lookup_ge_None in Hb. lia.
Qed.

(** The part of the loop invariant that keeps the traversal defined. *)
Record tinv (t : trav) : Prop := mk_tinv {
  tinv_len : length (visitedBitset t) = length EL;
  tinv_rs : resultSet t <> [];
  tinv_cdq : closestDistQueue t <> [];
  tinv_cand : forall e, e ∈ candidateSet t -> getMSWNode e ∈ EL;
  tinv_res : forall e, e ∈ resultSet t -> getMSWNode e ∈ EL;
}.

Definition measure (t : trav) : nat :=
  2 * unvisited (visitedBitset t) + length (candidateSet t).

Lemma pop_after_push_nonempty {T} (less : T -> T -> bool) (x : T) (q : list T) (b : bool) :
  q <> [] -> (if b then pq_pop (pq_push less x q) else pq_push less x q) <> [].
Proof.
  intros Hq0. destruct b; [|apply pq_push_nonempty].
  destruct q as [|y q]; [done|]. simpl.
  destruct (less y x); simpl; [done|apply pq_push_nonempty].
Qed.

Lemma elem_of_pop {T} (q : list T) (x : T) : x ∈ pq_pop q -> x ∈ q.
Proof. destruct q; simpl; [done|]. by right. Qed.

Lemma evaluate_tinv (t : trav) (q : ptr) (nd : MSWNode Object) (i : nat) :
  tinv t -> q ∈ EL ->
  tinv (evaluate t q nd (<[i := true]> (visitedBitset t))).
Proof.
  intros [Hlen Hrs Hcdq Hcand Hres] Hq'. unfold evaluate. split; simpl.
  - by rewrite length_insert.
  - destruct (if bool_decide _ then true else _); [|done].
    by apply pop_after_push_nonempty.
  - by apply pop_after_push_nonempty.
  - intros e He. apply pq_push_elem in He as [->|He]; [done|by apply Hcand].
  - intros e He.
    destruct (if bool_decide (pq_size (resultSet t) < NN) then true else _); [|by apply Hres].
    assert (e ∈ pq_push less_Direct
                  (mkEv (IndexTimeDistance queryObj (data_ nd)) q) (resultSet t)) as He'.
    { case_bool_decide; [by apply elem_of_pop|done]. }
    apply pq_push_elem in He' as [->|He']; [done|by apply Hres].
Qed.

(** One neighbour: the body returns, keeps [tinv], and does not increase the
    measure. *)
Lemma visit_total (t : trav) (q : ptr) :
  tinv t -> q ∈ EL ->
  exists t', visit t q = Ok t' /\ tinv t' /\ measure t' <= measure t.
Proof.
  intros Ht Hq'. destruct (published_node q Hq') as (i & nd & _ & Hi & Hnd & Hidx & _).
  destruct (visit_published t q i nd Hnd Hidx Hi (tinv_len t Ht) (tinv_rs t Ht))
    as [[_ ->]|[Hb ->]].
  - exists t. done.
  - eexists. split; [done|]. split; [by apply evaluate_tinv|].
    unfold measure, evaluate. simpl. rewrite pq_push_length.
    pose proof (unvisited_set _ _ Hb). lia.
Qed.

Lemma for_each_visit_total (qs : list ptr) : forall t,
  tinv t -> (forall q, q ∈ qs -> q ∈ EL) ->
  exists t', for_each visit qs t = Ok t' /\ tinv t' /\ measure t' <= measure t.
Proof.
  induction qs as [|q qs IH]; intros t Ht Hqs; simpl.
  - exists t. done.
  - destruct (visit_total t q Ht) as (t1 & -> & Ht1 & Hm1); [apply Hqs; left|].
    simpl. destruct (IH t1 Ht1) as (t2 & -> & Ht2 & Hm2).
    + intros q' Hq'. apply Hqs. by right.
    + exists t2. split; [done|]. split; [done|lia].
Qed.

Lemma for_each_inv {A S} (body : S -> A -> outcome S) (P : S -> Prop) (xs : list A) :
  (forall s x s', P s -> x ∈ xs -> body s x = Ok s' -> P s') ->
  forall s s', P s -> for_each body xs s = Ok s' -> P s'.
Proof.
  induction xs as [|x xs IH]; intros Hstep s s' Hs; simpl.
  - by intros [= <-].
  - destruct (body s x) as [s1| | |] eqn:E; simpl; try discriminate.
    apply IH.
    + intros s0 y s0' H0 Hy. apply Hstep; [done|by right].
    + eapply Hstep; [done|left|done].
Qed.

(** The [while] loop returns within [measure t] iterations, and carries to
    its exit every property that contains [tinv] and is kept by one
    iteration.  At the exit the candidate set is empty or its top is
    farther than the bound. *)
Lemma loop_rule (P : trav -> Prop) :
  (forall t, P t -> tinv t) ->
  (forall t currEv lowerBound currNode t',
     P t ->
     pq_top (candidateSet t) = Some currEv ->
     pq_top (closestDistQueue t) = Some lowerBound ->
     (lowerBound <? getDistance currEv)%Z = false ->
     h !! getMSWNode currEv = Some currNode ->
     for_each visit (friends currNode)
       (set_candidateSet (pq_pop (candidateSet t)) t) = Ok t' ->
     P t') ->
  forall fuel t, P t -> measure t < fuel ->
  exists t', loop fuel t = Ok t' /\ P t' /\
    (candidateSet t' = [] \/
     exists e lb, pq_top (candidateSet t') = Some e /\
                  pq_top (closestDistQueue t') = Some lb /\
                  (lb < getDistance e)%Z).
Proof.
  intros HP Hiter. induction fuel as [|fuel IH]; intros t Ht Hm; [lia|].
  pose proof (HP t Ht) as Hinv. simpl.
  destruct (candidateSet t) as [|e rest] eqn:Ec; simpl.
  { exists t. split; [done|]. split; [done|]. by left. }
  destruct (closestDistQueue t) as [|lb cdq] eqn:Ed; simpl.
  { by destruct (tinv_cdq t Hinv). }
  destruct (lb <? getDistance e)%Z eqn:Ecmp.
  { exists t. split; [done|]. split; [done|]. right. exists e, lb.
    rewrite Ec, Ed. split; [done|]. split; [done|]. by apply Z.ltb_lt. }
  assert (getMSWNode e ∈ EL) as Hel.
  { apply (tinv_cand t Hinv). rewrite Ec. left. }
  destruct (published_node _ Hel) as (i & nd & _ & _ & Hnd & _ & Hfr).
  rewrite Hnd.
  assert (tinv (set_candidateSet rest t)) as Hinv'.
  { destruct Hinv as [H1 H2 H3 H4 H5]. split; simpl; try done.
    intros e' He'. apply H4. rewrite Ec. by right. }
  destruct (for_each_visit_total (friends nd) _ Hinv' Hfr) as (t1 & Hfe & Ht1 & Hm1).
  rewrite Hfe. simpl.
  apply IH.
  - eapply (Hiter t e lb nd t1); try done.
    + by rewrite Ec.
    + by rewrite Ed.
    + by rewrite Ec.
  - unfold measure in *. simpl in Hm1. rewrite Ec in Hm. simpl in Hm. lia.
Qed.

(** The entry point of an attempt. *)
Lemma seed_attempt_published (p : ptr) (i : nat) (nd : MSWNode Object)
    (vb : list bool) (rs : list Evaluated) (ev : list ptr) :
  h !! p = Some nd -> addIndex_ nd = N.of_nat i -> i < length EL ->
  length vb = length EL ->
  seed_attempt IndexTimeDistance h queryObj (length EL) (Some p) vb rs ev =
    Ok (mkTrav (<[i := true]> vb)
          [IndexTimeDistance queryObj (data_ nd)]
          [mkEv (IndexTimeDistance queryObj (data_ nd)) p]
          (pq_push less_Direct (mkEv (IndexTimeDistance queryObj (data_ nd)) p) rs)
          (ev ++ [p])).
Proof.
  intros Hnd Hidx Hi Hlen. unfold seed_attempt. rewrite Hnd, Hidx.
  assert ((N.of_nat i <? N.of_nat (length EL))%N = true) as ->
    by (apply N.ltb_lt; lia).
  unfold bitset_set. rewrite Nat2N.id.
  rewrite bool_decide_eq_true_2 by lia. done.
Qed.

(** *** The first attempt

    During the first attempt the result set holds one entry per evaluated
    node up to [NN], every evaluation sets a bit that was unset, and as long
    as at most [NN] nodes were evaluated the bound is the greatest distance
    seen, so no candidate is farther than the bound. *)

Definition top_is_max (cdq : list Z) : Prop :=
  forall lb, pq_top cdq = Some lb -> forall d, d ∈ cdq -> (d <= lb)%Z.

Lemma top_is_max_push (d : Z) (cdq : list Z) :
  top_is_max cdq -> top_is_max (pq_push Z.ltb d cdq).
Proof.
  unfold top_is_max. destruct cdq as [|y l]; simpl.
  - intros _ lb [= <-] z Hz. apply list_elem_of_singleton in Hz as ->. lia.
  - intros Hmax. specialize (Hmax y eq_refl).
    destruct (y <? d)%Z eqn:E; simpl; intros lb [= <-] z Hz.
    + apply Z.ltb_lt in E. apply elem_of_cons in Hz as [->|Hz]; [lia|].
      specialize (Hmax z Hz). lia.
    + apply Z.ltb_ge in E. apply elem_of_cons in Hz as [->|Hz]; [lia|].
      apply pq_push_elem in Hz as [->|Hz]; [done|].
      apply Hmax. by right.
Qed.

Record finv (t : trav) : Prop := mk_finv {
  finv_t : tinv t;
  finv_size : length (resultSet t) = NN `min` length (evaluated t);
  finv_count : length (evaluated t) + unvisited (visitedBitset t) = length EL;
  finv_bound :
    length (evaluated t) <= NN ->
    length (closestDistQueue t) = length (evaluated t) /\
    top_is_max (closestDistQueue t) /\
    forall e, e ∈ candidateSet t -> getDistance e ∈ closestDistQueue t;
}.

Lemma length_pop {T} (q : list T) : length (pq_pop q) = length q - 1.
Proof. destruct q; simpl; lia. Qed.

Lemma evaluate_finv (t : trav) (q : ptr) (nd : MSWNode Object) (i : nat) :
  1 <= NN -> finv t -> q ∈ EL -> visitedBitset t !! i = Some false ->
  finv (evaluate t q nd (<[i := true]> (visitedBitset t))).
Proof.
  intros HNN [Ht Hsize Hcount Hbound] Hq' Hb. split.
  - by apply evaluate_tinv.
  - unfold evaluate. simpl. rewrite length_app. simpl. unfold pq_size.
    case_bool_decide as Hlt.
    + rewrite pq_push_length. rewrite bool_decide_eq_false_2 by lia.
      rewrite pq_push_length. lia.
    + destruct (pq_top (resultSet t)) as [top|]; [|lia].
      destruct (_ <? _)%Z; [|lia].
      rewrite pq_push_length. rewrite bool_decide_eq_true_2 by lia.
      rewrite length_pop, pq_push_length. lia.
  - unfold evaluate. simpl. rewrite length_app. simpl.
    pose proof (unvisited_set _ _ Hb). lia.
  - unfold evaluate. simpl. rewrite length_app. simpl. intros HE.
    destruct Hbound as (Hlen & Hmax & Hcand); [lia|].
    unfold pq_size. rewrite pq_push_length.
    rewrite bool_decide_eq_false_2 by lia.
    rewrite pq_push_length. split; [lia|]. split; [by apply top_is_max_push|].
    intros e He. apply pq_push_elem.
    apply pq_push_elem in He as [->|He]; [by left|].
    right. by apply Hcand.
Qed.

Lemma visit_finv (t t' : trav) (q : ptr) :
  1 <= NN -> finv t -> q ∈ EL -> visit t q = Ok t' -> finv t'.
Proof.
  intros HNN Hf Hq' Hv.
  destruct (published_node q Hq') as (i & nd & _ & Hi & Hnd & Hidx & _).
  pose proof (finv_t t Hf) as Ht.
  destruct (visit_published t q i nd Hnd Hidx Hi (tinv_len t Ht) (tinv_rs t Ht))
    as [[_ Hv']|[Hb Hv']]; rewrite Hv' in Hv; injection Hv as <-; [done|].
  by apply evaluate_finv.
Qed.

Lemma popped_finv (t : trav) :
  finv t -> finv (set_candidateSet (pq_pop (candidateSet t)) t).
Proof.
  intros [[H1 H2 H3 H4 H5] Hsize Hcount Hbound]. split; [split|..]; simpl; try done.
  - intros e He. apply H4. by apply elem_of_pop.
  - intros HE. destruct (Hbound HE) as (Ha & Hb & Hc). split; [done|]. split; [done|].
    intros e He. apply Hc. by apply elem_of_pop.
Qed.

(** A published node whose bit is set. *)
Definition marked (vb : list bool) (q : ptr) : Prop :=
  exists j, EL !! j = Some q /\ vb !! j = Some true.

(** How the bitset and the candidate set grow while neighbours are visited:
    bits stay set, candidates stay queued, and a node whose bit gets set is
    queued. *)
Record grows (t t' : trav) : Prop := mk_grows {
  grows_bits : forall j, visitedBitset t !! j = Some true ->
                         visitedBitset t' !! j = Some true;
  grows_cand : forall e, e ∈ candidateSet t -> e ∈ candidateSet t';
  grows_new : forall j, visitedBitset t' !! j = Some true ->
                visitedBitset t !! j = Some true \/
                exists e, e ∈ candidateSet t' /\ EL !! j = Some (getMSWNode e);
}.

Lemma grows_refl (t : trav) : grows t t.
Proof. split; auto. Qed.

Lemma grows_trans (t1 t2 t3 : trav) : grows t1 t2 -> grows t2 t3 -> grows t1 t3.
Proof.
  intros [B1 C1 N1] [B2 C2 N2]. split; [auto|auto|].
  intros j Hj. destruct (N2 j Hj) as [H2|H2]; [|by right].
  destruct (N1 j H2) as [H1|(e & He & Hje)]; [by left|].
  right. exists e. auto.
Qed.

Lemma visit_grows (t t' : trav) (q : ptr) :
  tinv t -> q ∈ EL -> visit t q = Ok t' ->
  grows t t' /\ marked (visitedBitset t') q.
Proof.
  intros Ht Hq' Hv.
  destruct (published_node q Hq') as (i & nd & Hel & Hi & Hnd & Hidx & _).
  destruct (visit_published t q i nd Hnd Hidx Hi (tinv_len t Ht) (tinv_rs t Ht))
    as [[Hb Hv']|[Hb Hv']]; rewrite Hv' in Hv; injection Hv as <-.
  - split; [apply grows_refl|]. by exists i.
  - assert (i < length (visitedBitset t)) as Hi' by (rewrite (tinv_len t Ht); done).
    split; [split|]; unfold evaluate; simpl.
    + intros j Hj. destruct (decide (i = j)) as [->|Hne].
      * by rewrite list_lookup_insert_eq.
      * by rewrite list_lookup_insert_ne.
    + intros e He. apply pq_push_elem. by right.
    + intros j Hj. destruct (decide (i = j)) as [<-|Hne].
      * right. eexists. split; [apply pq_push_elem; by left|done].
      * left. by rewrite list_lookup_insert_ne in Hj.
    + exists i. split; [done|]. by rewrite list_lookup_insert_eq.
Qed.

Lemma for_each_grows (qs : list ptr) : forall t t',
  tinv t -> (forall q, q ∈ qs -> q ∈ EL) ->
  for_each visit qs t = Ok t' ->
  grows t t' /\ forall q, q ∈ qs -> marked (visitedBitset t') q.
Proof.
  induction qs as [|q qs IH]; intros t t' Ht Hqs; simpl.
  - intros [= <-]. split; [apply grows_refl|]. intros q Hq'. by apply elem_of_nil in Hq'.
  - assert (q ∈ EL) as Hq' by (apply Hqs; left).
    destruct (visit_total t q Ht Hq') as (t1 & Hv & Ht1 & _).
    rewrite Hv. simpl. intros Hfe.
    destruct (visit_grows t t1 q Ht Hq' Hv) as [Hg1 Hm1].
    destruct (IH t1 t' Ht1) as [Hg2 Hm2]; [intros q0 Hq0; apply Hqs; by right|done|].
    split; [by eapply grows_trans|].
    intros q0 Hq0. apply elem_of_cons in Hq0 as [->|Hq0]; [|by apply Hm2].
    destruct Hm1 as (j & Hj & Hb). exists j. split; [done|].
    by apply (grows_bits _ _ Hg2).
Qed.

(** Every marked node is still queued, or all its friends are marked. *)
Definition closed (t : trav) : Prop :=
  forall j p nd, EL !! j = Some p -> h !! p = Some nd ->
    visitedBitset t !! j = Some true ->
    (exists e, e ∈ candidateSet t /\ getMSWNode e = p) \/
    (forall q, q ∈ friends nd -> marked (visitedBitset t) q).

Lemma iteration_closed (t t' : trav) (currEv : Evaluated) (currNode : MSWNode Object) :
  tinv t -> closed t ->
  pq_top (candidateSet t) = Some currEv ->
  h !! getMSWNode currEv = Some currNode ->
  for_each visit (friends currNode)
    (set_candidateSet (pq_pop (candidateSet t)) t) = Ok t' ->
  closed t'.
Proof.
  intros Ht Hc Htop Hnd Hfe.
  destruct (candidateSet t) as [|e rest] eqn:Ec; [done|].
  injection Htop as ->. simpl in Hfe.
  assert (getMSWNode currEv ∈ EL) as Hel.
  { apply (tinv_cand t Ht). rewrite Ec. left. }
  destruct (published_node _ Hel) as (i & nd & _ & _ & Hnd' & _ & Hfr).
  rewrite Hnd in Hnd'. injection Hnd' as <-.
  assert (tinv (set_candidateSet rest t)) as Hinv'.
  { destruct Ht as [H1 H2 H3 H4 H5]. split; simpl; try done.
    intros e' He'. apply H4. rewrite Ec. by right. }
  destruct (for_each_grows _ _ _ Hinv' Hfr Hfe) as [[HB HC HN] Hmk].
  simpl in HB, HC, HN.
  intros j p nd Hj Hp Hbit.
  destruct (HN j Hbit) as [Hold|(e & He & Hje)].
  - destruct (Hc j p nd Hj Hp Hold) as [(e & He & Hep)|Hall].
    + rewrite Ec in He. apply elem_of_cons in He as [->|He].
      * right. rewrite Hep in Hnd. rewrite Hnd in Hp. injection Hp as <-.
        exact Hmk.
      * left. exists e. split; [by apply HC|done].
    + right. intros q Hq'. destruct (Hall q Hq') as (k & Hk & Hkb).
      exists k. split; [done|]. by apply HB.
  - left. exists e. split; [done|]. rewrite Hj in Hje. by injection Hje.
Qed.

(** Friend edges, and graphs in which they lead from every published node
    to every other. *)
Definition edge (p q : ptr) : Prop :=
  exists nd, h !! p = Some nd /\ q ∈ friends nd.

Definition connected : Prop :=
  forall p q, p ∈ EL -> q ∈ EL -> rtc edge p q.

Lemma closed_reach (t : trav) (p q : ptr) :
  closed t -> candidateSet t = [] ->
  rtc edge p q -> marked (visitedBitset t) p -> marked (visitedBitset t) q.
Proof.
  intros Hc Hempty Hreach. induction Hreach as [p|p p1 q Hedge _ IH]; [done|].
  intros (j & Hj & Hb). apply IH.
  destruct Hedge as (nd & Hnd & Hp1).
  destruct (Hc j p nd Hj Hnd Hb) as [(e & He & _)|Hall]; [|by apply Hall].
  rewrite Hempty in He. by apply elem_of_nil in He.
Qed.

Lemma position_unique (i j : nat) (p : ptr) :
  EL !! i = Some p -> EL !! j = Some p -> i = j.
Proof.
  intros Hi Hj.
  destruct (Hq i p Hi) as (nd & Hnd & Hidx & _).
  destruct (Hq j p Hj) as (nd' & Hnd' & Hidx' & _).
  rewrite Hnd in Hnd'. injection Hnd' as <-. rewrite Hidx in Hidx'. lia.
Qed.

Lemma all_marked (vb : list bool) :
  length vb = length EL -> (forall q, q ∈ EL -> marked vb q) -> unvisited vb = 0.
Proof.
  intros Hlen Hall. apply unvisited_all_set. intros i Hi.
  destruct (lookup_lt_is_Some_2 EL i) as [q Hq']; [lia|].
  destruct (Hall q) as (j & Hj & Hb); [by eapply list_elem_of_lookup_2|].
  by rewrite (position_unique i j q Hq' Hj).
Qed.

Lemma unvisited_replicate (n : nat) : unvisited (replicate n false) = n.
Proof. induction n as [|n IH]; simpl; [done|by rewrite IH]. Qed.

(** The first attempt returns; its result set has one entry per evaluated
    node up to [NN]; no node is evaluated twice; and on a connected graph
    it stops only once every node, or more than [NN] nodes, have been
    evaluated. *)
Lemma first_attempt (p : ptr) (fuel : nat) :
  1 <= NN -> p ∈ EL -> 2 * length EL < fuel ->
  exists t0 t',
    seed_attempt IndexTimeDistance h queryObj (length EL) (Some p)
      (replicate (length EL) false) [] [] = Ok t0 /\
    loop fuel t0 = Ok t' /\
    tinv t' /\
    length (resultSet t') = NN `min` length (evaluated t') /\
    length (evaluated t') <= length EL /\
    (connected -> S NN `min` length EL <= length (evaluated t')).
Proof.
  intros HNN Hp Hfuel.
  destruct (published_node p Hp) as (i & nd & Hel & Hi & Hnd & Hidx & _).
  eexists. 
  rewrite (seed_attempt_published p i nd _ [] [] Hnd Hidx Hi)
    by (by rewrite length_replicate).
  set (t0 := mkTrav _ _ _ _ _).
  assert (replicate (length EL) false !! i = Some false) as Hbit
    by (by apply lookup_replicate_2).
  assert (tinv t0) as Ht0.
  { split; simpl; try done.
    - by rewrite length_insert, length_replicate.
    - intros e He. apply list_elem_of_singleton in He as ->. done.
    - intros e He. apply list_elem_of_singleton in He as ->. done. }
  assert (finv t0) as Hf0.
  { split; simpl; [done|lia| |].
    - pose proof (unvisited_set _ _ Hbit) as Hu.
      rewrite unvisited_replicate in Hu. lia.
    - intros _. split; [done|]. split.
      + intros lb [= <-] d Hd. apply list_elem_of_singleton in Hd as ->. lia.
      + intros e He. apply list_elem_of_singleton in He as ->. simpl.
        by apply list_elem_of_singleton. }
  assert (closed t0) as Hc0.
  { intros j p' nd' Hj Hp' Hb. simpl in Hb. left.
    destruct (decide (i = j)) as [<-|Hne].
    - eexists. split; [by apply list_elem_of_singleton|]. simpl. congruence.
    - rewrite list_lookup_insert_ne in Hb by done.
      apply lookup_replicate in Hb as [? _]. done. }
  assert (marked (visitedBitset t0) p) as Hm0.
  { exists i. split; [done|]. simpl. apply list_lookup_insert_eq.
    by rewrite length_replicate. }
  destruct (loop_rule (fun t => finv t /\ closed t /\ marked (visitedBitset t) p))
    with (fuel := fuel) (t := t0) as (t' & Hrun & (Hf & Hc & Hm) & Hexit).
  - intros t [Hf _]. by apply finv_t.
  - intros t e lb nd' t' (Hf & Hc & Hm) Htop Hlb Hcmp Hnd' Hfe.
    pose proof (finv_t _ Hf) as Ht.
    assert (forall q, q ∈ friends nd' -> q ∈ EL) as Hfr.
    { destruct (candidateSet t) as [|e' rest] eqn:Ec; [done|]. injection Htop as ->.
      assert (getMSWNode e ∈ EL) as He by (apply (tinv_cand t Ht); rewrite Ec; left).
      destruct (published_node _ He) as (? & nd2 & _ & _ & Hnd2 & _ & Hfr).
      rewrite Hnd' in Hnd2. by injection Hnd2 as <-. }
    split; [|split].
    + eapply (for_each_inv visit finv); [|apply (popped_finv _ Hf)|exact Hfe].
      intros s0 x s0' Hs0 Hx Hv. apply (visit_finv s0 s0' x); auto.
    + eapply iteration_closed; eauto.
    + destruct (for_each_grows _ _ _ (finv_t _ (popped_finv _ Hf)) Hfr Hfe) as [Hg _].
      destruct Hm as (j & Hj & Hb). exists j. split; [done|].
      by apply (grows_bits _ _ Hg).
  - done.
  - unfold measure. simpl.
    pose proof (unvisited_set _ _ Hbit) as Hu.
    rewrite unvisited_replicate in Hu. lia.
  - exists t'. split; [done|]. split; [done|]. split; [by apply finv_t|].
    split; [by apply finv_size|].
    pose proof (finv_count _ Hf) as Hcount.
    split; [lia|]. intros Hconn.
    destruct Hexit as [Hempty|(e & lb & Htop & Hlb & Hlt)].
    + assert (unvisited (visitedBitset t') = 0) as Hz.
      { apply all_marked; [by apply (tinv_len _ (finv_t _ Hf))|].
        intros q Hq'. apply (closed_reach t' p q Hc Hempty (Hconn p q Hp Hq') Hm). }
      lia.
    + destruct (decide (length (evaluated t') <= NN)) as [Hle|Hgt]; [|lia].
      destruct (finv_bound _ Hf Hle) as (_ & Hmax & Hcand).
      assert (getDistance e <= lb)%Z; [|lia].
      apply (Hmax lb Hlb). apply Hcand.
      destruct (candidateSet t') as [|e' rest]; [done|]. injection Htop as ->. left.
Qed.

(** *** Later attempts

    In every attempt the result set never shrinks, and it grows past [NN]
    only by the entry point, which is put in unconditionally. *)

Record ginv (R0 B : nat) (t : trav) : Prop := mk_ginv {
  ginv_t : tinv t;
  ginv_lo : R0 <= length (resultSet t);
  ginv_hi : length (resultSet t) <= B;
}.

Lemma evaluate_ginv (R0 B : nat) (t : trav) (q : ptr) (nd : MSWNode Object) (i : nat) :
  NN <= B -> ginv R0 B t -> q ∈ EL ->
  ginv R0 B (evaluate t q nd (<[i := true]> (visitedBitset t))).
Proof.
  intros HB [Ht Hlo Hhi] Hq'. split; [by apply evaluate_tinv|..];
    unfold evaluate; simpl; unfold pq_size.
  - destruct (if bool_decide _ then true else _); [|done].
    rewrite pq_push_length. case_bool_decide; [|rewrite pq_push_length; lia].
    rewrite length_pop, pq_push_length. lia.
  - case_bool_decide as Hlt.
    + rewrite pq_push_length. rewrite bool_decide_eq_false_2 by lia.
      rewrite pq_push_length. lia.
    + destruct (pq_top (resultSet t)) as [top|]; [|done].
      destruct (_ <? _)%Z; [|done].
      rewrite pq_push_length. rewrite bool_decide_eq_true_2 by lia.
      rewrite length_pop, pq_push_length. lia.
Qed.

Lemma visit_ginv (R0 B : nat) (t t' : trav) (q : ptr) :
  NN <= B -> ginv R0 B t -> q ∈ EL -> visit t q = Ok t' -> ginv R0 B t'.
Proof.
  intros HB Hg Hq' Hv.
  destruct (published_node q Hq') as (i & nd & _ & Hi & Hnd & Hidx & _).
  pose proof (ginv_t _ _ _ Hg) as Ht.
  destruct (visit_published t q i nd Hnd Hidx Hi (tinv_len t Ht) (tinv_rs t Ht))
    as [[_ Hv']|[Hb Hv']]; rewrite Hv' in Hv; injection Hv as <-; [done|].
  by apply evaluate_ginv.
Qed.

Lemma later_attempt (p : ptr) (fuel R0 B : nat)
    (vb : list bool) (rs : list Evaluated) (ev : list ptr) :
  NN <= S B -> p ∈ EL -> length vb = length EL ->
  (forall e, e ∈ rs -> getMSWNode e ∈ EL) ->
  R0 <= length rs -> length rs <= B ->
  2 * length EL + 1 < fuel ->
  exists t0 t',
    seed_attempt IndexTimeDistance h queryObj (length EL) (Some p) vb rs ev = Ok t0 /\
    loop fuel t0 = Ok t' /\
    tinv t' /\ R0 <= length (resultSet t') /\ length (resultSet t') <= S B.
Proof.
  intros HB Hp Hlen Hrs Hlo Hhi Hfuel.
  destruct (published_node p Hp) as (i & nd & Hel & Hi & Hnd & Hidx & _).
  eexists. rewrite (seed_attempt_published p i nd vb rs ev Hnd Hidx Hi Hlen).
  set (t0 := mkTrav _ _ _ _ _).
  assert (ginv R0 (S B) t0) as Hg0.
  { split; [split|..]; simpl; try done.
    - by rewrite length_insert.
    - apply pq_push_nonempty.
    - intros e He. apply list_elem_of_singleton in He as ->. done.
    - intros e He. apply pq_push_elem in He as [->|He]; [done|by apply Hrs].
    - rewrite pq_push_length. lia.
    - rewrite pq_push_length. lia. }
  destruct (loop_rule (ginv R0 (S B))) with (fuel := fuel) (t := t0)
    as (t' & Hrun & Hg & _).
  - apply ginv_t.
  - intros t e lb nd' t' Hg Htop Hlb Hcmp Hnd' Hfe.
    pose proof (ginv_t _ _ _ Hg) as Ht.
    assert (forall q, q ∈ friends nd' -> q ∈ EL) as Hfr.
    { destruct (candidateSet t) as [|e' rest] eqn:Ec; [done|]. injection Htop as ->.
      assert (getMSWNode e ∈ EL) as He by (apply (tinv_cand t Ht); rewrite Ec; left).
      destruct (published_node _ He) as (? & nd2 & _ & _ & Hnd2 & _ & Hfr).
      rewrite Hnd' in Hnd2. by injection Hnd2 as <-. }
    eapply (for_each_inv visit (ginv R0 (S B))); [| |exact Hfe].
    + intros s0 x s0' Hs0 Hx Hv. apply (visit_ginv R0 (S B) s0 s0' x); auto.
    + destruct Hg as [[H1 H2 H3 H4 H5] Hl Hh]. split; [split|..]; simpl; try done.
      intros e0 He0. apply H4. by apply elem_of_pop.
  - done.
  - unfold measure. simpl.
    pose proof (unvisited_le (<[i:=true]> vb)) as Hu.
    rewrite length_insert in Hu. lia.
  - exists t'. split; [done|]. split; [done|].
    destruct Hg as [Ht Hl Hh]. done.
Qed.

End Quiescent.

(** ** The traversal and the inserter on a quiescent index *)

(** States that differ at most in the number of calls made to [rand()]. *)
Definition same_index (s s' : state) : Prop :=
  arena s' = arena s /\ ElList_ s' = ElList_ s /\ NN_ s' = NN_ s /\
  initIndexAttempts_ s' = initIndexAttempts_ s /\
  initSearchAttempts_ s' = initSearchAttempts_ s /\
  indexThreadQty_ s' = indexThreadQty_ s.

Lemma same_index_refl (s : state) : same_index s s.
Proof. by repeat split. Qed.

Lemma same_index_rand (s : state) (r : nat) : same_index s (set_rand_calls r s).
Proof. by repeat split. Qed.

Lemma same_index_trans (s1 s2 s3 : state) :
  same_index s1 s2 -> same_index s2 s3 -> same_index s1 s3.
Proof. unfold same_index. intros (?&?&?&?&?&?) (?&?&?&?&?&?). repeat split; congruence. Qed.

Lemma getRandomEntryPoint_nonempty (s : state) :
  ElList_ s <> [] ->
  exists p, p ∈ ElList_ s /\
    getRandomEntryPoint rand_src s = (Ok (Some p), set_rand_calls (S (rand_calls s)) s).
Proof.
  intros Hne. unfold getRandomEntryPoint.
  assert (length (ElList_ s) <> 0) as Hlen by (by destruct (ElList_ s)).
  rewrite bool_decide_eq_false_2 by done.
  destruct (lookup_lt_is_Some_2 (ElList_ s) (rand_src (rand_calls s) `mod` length (ElList_ s)))
    as [p Hp]; [by apply Nat.mod_upper_bound|].
  exists p. rewrite Hp. split; [by eapply list_elem_of_lookup_2|done].
Qed.

Lemma attempts_rest (fuel : nat) (queryObj : Object) (NN : nat) :
  forall (n : nat) (vb : list bool) (rs : list Evaluated) (ev : list ptr)
         (s : state) (R0 B : nat),
    quiescent (arena s) (ElList_ s) -> ElList_ s <> [] ->
    NN <= S B -> length vb = length (ElList_ s) ->
    (forall e, e ∈ rs -> getMSWNode e ∈ ElList_ s) ->
    R0 <= length rs -> length rs <= B ->
    2 * length (ElList_ s) + 1 < fuel ->
    exists vb' rs' ev' s',
      attempts_loop IndexTimeDistance rand_src fuel queryObj NN
        (length (ElList_ s)) n vb rs ev s = (Ok (vb', rs', ev'), s') /\
      same_index s s' /\
      (forall e, e ∈ rs' -> getMSWNode e ∈ ElList_ s) /\
      R0 <= length rs' /\ length rs' <= B + n.
Proof.
  induction n as [|n IH]; intros vb rs ev s R0 B Hq Hne HB Hlen Hrs Hlo Hhi Hfuel.
  - exists vb, rs, ev, s. split; [done|]. split; [apply same_index_refl|].
    split; [done|]. lia.
  - cbn [attempts_loop]. unfold getRandomEntryPointLocked.
    destruct (getRandomEntryPoint_nonempty s Hne) as (p & Hp & Hrand).
    erewrite bind_Ok by exact Hrand. cbn [arena set_rand_calls].
    destruct (later_attempt (arena s) (ElList_ s) queryObj NN Hq p fuel R0 B vb rs ev)
      as (t0 & t' & Hseed & Hloop & Ht' & Hlo' & Hhi'); try done.
    rewrite Hseed. cbn [obind]. rewrite Hloop.
    destruct (IH (visitedBitset t') (resultSet t') (evaluated t')
                 (set_rand_calls (S (rand_calls s)) s) R0 (S B))
      as (vb' & rs' & ev' & s' & Hrun & Hsame & Hrs' & Hlo'' & Hhi''); try done.
    + lia.
    + apply (tinv_len _ _ Ht').
    + apply (tinv_res _ _ Ht').
    + exists vb', rs', ev', s'. split; [exact Hrun|].
      split; [eapply same_index_trans; [apply same_index_rand|exact Hsame]|].
      split; [done|]. split; [done|]. lia.
Qed.

(** On a quiescent, connected graph the traversal returns, and its result
    set has at least [min NN N0] entries, all published nodes. *)
Lemma kSearch_quiescent (fuel : nat) (queryObj : Object) (NN attempts : nat) (s : state) :
  quiescent (arena s) (ElList_ s) ->
  connected (arena s) (ElList_ s) ->
  ElList_ s <> [] -> 1 <= NN -> 1 <= attempts ->
  2 * length (ElList_ s) + 1 < fuel ->
  exists rs ev s',
    kSearchElementsWithAttempts fuel queryObj NN attempts [] s = (Ok (rs, ev), s') /\
    same_index s s' /\
    (forall e, e ∈ rs -> getMSWNode e ∈ ElList_ s) /\
    NN `min` length (ElList_ s) <= length rs /\
    length rs <= NN + attempts - 1 /\
    (attempts = 1 -> length rs = NN `min` length (ElList_ s)).
Proof.
  intros Hq Hconn Hne HNN Hatt Hfuel.
  destruct attempts as [|n]; [lia|].
  unfold kSearchElementsWithAttempts, getEntryQtyLocked.
  unfold bind at 1. cbn [attempts_loop]. unfold getRandomEntryPointLocked.
  destruct (getRandomEntryPoint_nonempty s Hne) as (p & Hp & Hrand).
  unfold bind at 1. unfold bind at 1. rewrite Hrand. cbn [arena set_rand_calls].
  destruct (first_attempt (arena s) (ElList_ s) queryObj NN Hq p fuel)
    as (t0 & t' & Hseed & Hloop & Ht' & Hsize & Hle & Hge); try done; [lia|].
  specialize (Hge Hconn).
  rewrite Hseed. cbn [obind]. rewrite Hloop.
  destruct (decide (n = 0)) as [->|Hn0].
  { cbn [attempts_loop]. unfold ret. cbn [fst snd].
    exists (resultSet t'), (evaluated t'), (set_rand_calls (S (rand_calls s)) s).
    split; [done|]. split; [apply same_index_rand|].
    split; [apply (tinv_res _ _ Ht')|]. rewrite Hsize. lia. }
  destruct (attempts_rest fuel queryObj NN n (visitedBitset t') (resultSet t')
              (evaluated t') (set_rand_calls (S (rand_calls s)) s)
              (NN `min` length (ElList_ s)) NN)
    as (vb' & rs' & ev' & s' & Hrun & Hsame & Hrs' & Hlo & Hhi); try done.
  - lia.
  - apply (tinv_len _ _ Ht').
  - apply (tinv_res _ _ Ht').
  - cbn [ElList_ set_rand_calls]. rewrite Hsize. lia.
  - rewrite Hsize. lia.
  - cbn [ElList_ set_rand_calls] in Hrun. rewrite Hrun. unfold ret. cbn [fst snd].
    exists rs', ev', s'. split; [done|].
    split; [eapply same_index_trans; [apply same_index_rand|exact Hsame]|].
    split; [done|]. split; [done|]. split; lia.
Qed.

(** *** Linking *)

Lemma addFriend_Ok (p el : ptr) (s : state) (nd : MSWNode Object) :
  arena s !! p = Some nd ->
  addFriend p el s =
    (Ok tt, set_arena (<[p := set_friends (friends nd ++ [el]) nd]> (arena s)) s).
Proof. intros H. unfold addFriend. by rewrite H. Qed.

Lemma link_Ok (r x : ptr) (s : state) (ndr ndx : MSWNode Object) :
  r <> x -> arena s !! r = Some ndr -> arena s !! x = Some ndx ->
  link r x s =
    (Ok tt,
     set_arena (<[x := set_friends (friends ndx ++ [r]) ndx]>
                  (<[r := set_friends (friends ndr ++ [x]) ndr]> (arena s))) s).
Proof.
  intros Hne Hr Hx. unfold link.
  erewrite bind_Ok by (by apply addFriend_Ok).
  erewrite addFriend_Ok; [done|]. simpl. by rewrite list_lookup_insert_ne.
Qed.

(** Linking a result set of nodes other than [x] appends its nodes, top
    first, to the friends of [x]. *)
Lemma link_results_total (x : ptr) : forall (rs : list Evaluated) (s : state) ndx,
  arena s !! x = Some ndx ->
  (forall e, e ∈ rs -> getMSWNode e <> x /\ getMSWNode e < length (arena s)) ->
  exists s',
    link_results rs x s = (Ok tt, s') /\
    arena s' !! x = Some (set_friends (friends ndx ++ (getMSWNode <$> rs)) ndx) /\
    same_index (set_arena [] s) (set_arena [] s') /\
    length (arena s') = length (arena s).
Proof.
  induction rs as [|e rs IH]; intros s ndx Hx Hrs.
  - exists s. simpl. rewrite app_nil_r. unfold ret.
    split; [done|]. split; [by destruct ndx|]. split; [apply same_index_refl|done].
  - destruct (Hrs e) as [Hne Hlt]; [left|].
    destruct (lookup_lt_is_Some_2 _ _ Hlt) as [ndr Hr].
    cbn [link_results]. erewrite bind_Ok by (by eapply link_Ok).
    edestruct (IH (set_arena (<[x := set_friends (friends ndx ++ [getMSWNode e]) ndx]>
                     (<[getMSWNode e := set_friends (friends ndr ++ [x]) ndr]> (arena s))) s))
      as (s' & Hrun & Hx' & Hsame & Hlen).
    + simpl. apply list_lookup_insert_eq. rewrite length_insert.
      by eapply lookup_lt_Some.
    + intros e' He'. simpl. rewrite !length_insert. apply Hrs. by right.
    + exists s'. split; [exact Hrun|]. split.
      * rewrite Hx'. unfold set_friends. simpl. by rewrite <- app_assoc.
      * split; [exact Hsame|]. rewrite Hlen. simpl. by rewrite !length_insert.
Qed.

(** What a computation may do to the allocated nodes when it only adds
    friends: every node keeps its payload, its index and the friends it
    had. *)
Definition friends_grow (s s' : state) : Prop :=
  ElList_ s' = ElList_ s /\
  forall p nd, arena s !! p = Some nd ->
    exists nd', arena s' !! p = Some nd' /\ data_ nd' = data_ nd /\
                addIndex_ nd' = addIndex_ nd /\
                forall q, q ∈ friends nd -> q ∈ friends nd'.

Lemma friends_grow_refl (s : state) : friends_grow s s.
Proof. split; [done|]. intros p nd H. by exists nd. Qed.

Lemma friends_grow_trans (s1 s2 s3 : state) :
  friends_grow s1 s2 -> friends_grow s2 s3 -> friends_grow s1 s3.
Proof.
  intros [E1 G1] [E2 G2]. split; [congruence|]. intros p nd H.
  destruct (G1 p nd H) as (nd2 & H2 & D2 & I2 & F2).
  destruct (G2 p nd2 H2) as (nd3 & H3 & D3 & I3 & F3).
  exists nd3. repeat split; [done|congruence|congruence|auto].
Qed.

Lemma addFriend_inv (p el : ptr) (s s' : state) :
  addFriend p el s = (Ok tt, s') ->
  friends_grow s s' /\ exists nd', arena s' !! p = Some nd' /\ el ∈ friends nd'.
Proof.
  unfold addFriend. destruct (arena s !! p) as [nd|] eqn:E; [|discriminate].
  intros [= <-]. apply lookup_lt_Some in E as Hlt. split; [split; [done|]|].
  - intros q ndq Hq. simpl. destruct (decide (p = q)) as [<-|Hne].
    + rewrite list_lookup_insert_eq by done. eexists. split; [done|].
      rewrite E in Hq. injection Hq as <-.
      simpl. repeat split.
      intros q Hq'. apply elem_of_app. by left.
    + rewrite list_lookup_insert_ne by done. by exists ndq.
  - simpl. rewrite list_lookup_insert_eq by done. eexists. split; [done|].
    simpl. apply elem_of_app. right. by apply list_elem_of_singleton.
Qed.

Lemma link_inv (r x : ptr) (s s' : state) :
  link r x s = (Ok tt, s') ->
  friends_grow s s' /\
  (exists nd, arena s' !! r = Some nd /\ x ∈ friends nd) /\
  (exists nd, arena s' !! x = Some nd /\ r ∈ friends nd).
Proof.
  unfold link. intros H. apply bind_Ok_inv in H as ([] & s1 & H1 & H2).
  apply addFriend_inv in H1 as [G1 (nd1 & Hr & Hx)].
  apply addFriend_inv in H2 as [G2 Hx2].
  split; [by eapply friends_grow_trans|]. split; [|done].
  destruct G2 as [_ G2]. destruct (G2 r nd1 Hr) as (nd2 & Hr2 & _ & _ & F2).
  exists nd2. auto.
Qed.

Lemma link_results_inv (x : ptr) : forall (rs : list Evaluated) (s s' : state),
  link_results rs x s = (Ok tt, s') ->
  friends_grow s s' /\
  forall e, e ∈ rs ->
    (exists nd, arena s' !! getMSWNode e = Some nd /\ x ∈ friends nd) /\
    (exists nd, arena s' !! x = Some nd /\ getMSWNode e ∈ friends nd).
Proof.
  induction rs as [|e rs IH]; intros s s'; cbn [link_results].
  - intros [= <-]. split; [apply friends_grow_refl|].
    intros e He. by apply elem_of_nil in He.
  - intros H. apply bind_Ok_inv in H as ([] & s1 & H1 & H2).
    apply link_inv in H1 as (G1 & (ndr & Hr & Hrx) & (ndx & Hx & Hxr)).
    apply IH in H2 as [G2 Hall].
    split; [by eapply friends_grow_trans|].
    intros e' He'. apply elem_of_cons in He' as [->|He']; [|by apply Hall].
    destruct G2 as [_ G2].
    destruct (G2 _ ndr Hr) as (ndr' & Hr' & _ & _ & Fr).
    destruct (G2 _ ndx Hx) as (ndx' & Hx' & _ & _ & Fx).
    split; [exists ndr'|exists ndx']; auto.
Qed.

Lemma link_results_app (x : ptr) : forall (l1 l2 : list Evaluated) (s s' : state),
  link_results (l1 ++ l2) x s = (Ok tt, s') ->
  exists sk, link_results l1 x s = (Ok tt, sk) /\ link_results l2 x sk = (Ok tt, s').
Proof.
  induction l1 as [|e l1 IH]; intros l2 s s'; simpl.
  - intros H. by exists s.
  - intros H. apply bind_Ok_inv in H as ([] & s1 & H1 & H2).
    apply IH in H2 as (sk & Ha & Hb). exists sk.
    split; [|done]. by erewrite bind_Ok by exact H1.
Qed.

(** *** The degree of an inserted node *)

Lemma quiescent_insert (h : list (MSWNode Object)) (EL : list ptr) (x : ptr) nd' :
  quiescent h EL -> x ∉ EL -> quiescent (<[x := nd']> h) EL.
Proof.
  intros Hq Hx i p Hp. destruct (Hq i p Hp) as (nd & Hnd & Hrest).
  exists nd. split; [|done]. rewrite list_lookup_insert_ne; [done|].
  intros ->. apply Hx. by eapply list_elem_of_lookup_2.
Qed.

Lemma connected_insert (h : list (MSWNode Object)) (EL : list ptr) (x : ptr) nd' :
  quiescent h EL -> connected h EL -> x ∉ EL -> connected (<[x := nd']> h) EL.
Proof.
  intros Hq Hc Hx p q Hp Hq'. specialize (Hc p q Hp Hq'). clear Hq'.
  induction Hc as [p|p p1 q (nd & Hnd & Hp1) _ IH]; [apply rtc_refl|].
  destruct (published_node h EL Hq p Hp) as (i & nd2 & _ & _ & Hnd2 & _ & Hfr).
  rewrite Hnd in Hnd2. injection Hnd2 as <-.
  eapply rtc_l; [|apply IH; by apply Hfr].
  exists nd. split; [|done]. rewrite list_lookup_insert_ne; [done|].
  intros ->. by apply Hx.
Qed.

(** What [add] does on a quiescent, connected graph, step by step: [s2] is
    the state the traversal leaves, [rs] its result set, [s3] the state
    after the links. *)
Lemma add_quiescent (fuel : nat) (x : ptr) (s : state) (nd : MSWNode Object) :
  quiescent (arena s) (ElList_ s) ->
  connected (arena s) (ElList_ s) ->
  ElList_ s <> [] ->
  x ∉ ElList_ s ->
  arena s !! x = Some nd ->
  1 <= NN_ s ->
  1 <= initIndexAttempts_ s ->
  2 * length (ElList_ s) + 1 < fuel ->
  exists rs s2 s3,
    arena s2 = <[x := set_friends [] nd]> (arena s) /\
    same_index (set_arena [] s) (set_arena [] s2) /\
    (forall e, e ∈ rs -> getMSWNode e ∈ ElList_ s) /\
    NN_ s `min` length (ElList_ s) <= length rs /\
    length rs <= NN_ s + initIndexAttempts_ s - 1 /\
    (initIndexAttempts_ s = 1 -> length rs = NN_ s `min` length (ElList_ s)) /\
    link_results rs x s2 = (Ok tt, s3) /\
    same_index (set_arena [] s2) (set_arena [] s3) /\
    arena s3 !! x = Some (set_friends (getMSWNode <$> rs) nd) /\
    add fuel x s =
      (Ok tt,
       set_ElList (ElList_ s3 ++ [x])
         (set_arena
            (<[x := set_addIndex (N.of_nat (length (ElList_ s3)))
                      (set_friends (getMSWNode <$> rs) nd)]> (arena s3)) s3)).
Proof.
  intros Hq Hconn Hne Hx Hnd HNN Hatt Hfuel.
  apply lookup_lt_Some in Hnd as Hlt.
  set (s1 := set_arena (<[x := set_friends [] nd]> (arena s)) s).
  assert (removeAllFriends x s = (Ok tt, s1)) as H1.
  { unfold removeAllFriends. by rewrite Hnd. }
  assert (arena s1 !! x = Some (set_friends [] nd)) as Hx1.
  { simpl. by apply list_lookup_insert_eq. }
  destruct (kSearch_quiescent fuel (data_ nd) (NN_ s) (initIndexAttempts_ s) s1)
    as (rs & ev & s2 & Hk & Hsame & Hrs & Hlo & Hhi & Hex); try done.
  { by apply quiescent_insert. }
  { by apply connected_insert. }
  pose proof Hsame as (Ha2 & He2 & HN2 & HA2 & HS2 & HT2).
  destruct (link_results_total x rs s2 (set_friends [] nd)) as (s3 & Hl & Hx3 & Hs3 & Hlen3).
  { by rewrite Ha2. }
  { intros e He. specialize (Hrs e He). simpl in Hrs. split.
    - intros Heq. apply Hx. by rewrite <- Heq.
    - destruct (published_node _ _ Hq _ Hrs) as (? & ? & _ & _ & Hv & _).
      rewrite Ha2. simpl. rewrite length_insert. by eapply lookup_lt_Some. }
  simpl in Hx3.
  exists rs, s2, s3.
  split; [done|]. split; [by repeat split|].
  split; [done|]. split; [done|]. split; [done|]. split; [done|].
  split; [done|]. split; [done|]. split; [done|].
  unfold add. erewrite bind_Ok by exact H1.
  unfold gets at 1. unfold bind at 1.
  rewrite bool_decide_eq_false_2 by done.
  unfold deref. unfold bind at 1. rewrite Hx1.
  unfold gets. unfold bind at 1. unfold bind at 1.
  cbn [NN_ initIndexAttempts_ s1 set_arena data_ set_friends].
  erewrite bind_Ok by exact Hk. cbn [fst].
  erewrite bind_Ok by exact Hl.
  by erewrite addCriticalSection_Ok by exact Hx3.
Qed.

(** What the traversal guarantees by design.  Let [x] be an allocated,
    unpublished node and the graph be quiescent and connected, with
    [N0 >= 1] published nodes, [NN >= 1] and at least one attempt.  Then
    [add] returns (the iteration bound [2 N0 + 2] is enough), [x] is
    published, and its friends list, whose entries are published nodes, has
    at least [min NN N0] entries; with a single attempt it has exactly
    [min NN N0]. *)
Lemma add_degree (fuel : nat) (x : ptr) (s : state) :
  quiescent (arena s) (ElList_ s) ->
  connected (arena s) (ElList_ s) ->
  ElList_ s <> [] ->
  x ∉ ElList_ s ->
  is_Some (arena s !! x) ->
  1 <= NN_ s ->
  1 <= initIndexAttempts_ s ->
  2 * length (ElList_ s) + 1 < fuel ->
  exists s' fs,
    add fuel x s = (Ok tt, s') /\
    ElList_ s' = ElList_ s ++ [x] /\
    friends_at s' x = Some fs /\
    (forall q, q ∈ fs -> q ∈ ElList_ s) /\
    NN_ s `min` length (ElList_ s) <= length fs /\
    (initIndexAttempts_ s = 1 -> length fs = NN_ s `min` length (ElList_ s)).
Proof.
  intros Hq Hconn Hne Hx [nd Hnd] HNN Hatt Hfuel.
  destruct (add_quiescent fuel x s nd)
    as (rs & s2 & s3 & Ha2 & Hs2 & Hrs & Hlo & _ & Hex & _ & Hs3 & Hx3 & Hadd);
    try done.
  destruct Hs2 as (_ & He2 & _). destruct Hs3 as (_ & He3 & _). simpl in He2, He3.
  exists (set_ElList (ElList_ s3 ++ [x])
            (set_arena
               (<[x := set_addIndex (N.of_nat (length (ElList_ s3)))
                         (set_friends (getMSWNode <$> rs) nd)]> (arena s3)) s3)),
         (getMSWNode <$> rs).
  split; [done|]. split; [simpl; congruence|]. split.
  { unfold friends_at. simpl. rewrite list_lookup_insert_eq; [done|].
    by eapply lookup_lt_Some. }
  split.
  { intros q Hq'. apply list_elem_of_fmap in Hq' as (e & -> & He). by apply Hrs. }
  rewrite length_fmap. done.
Qed.

(** ** Single-threaded builds

    [add] keeps a graph quiescent and connected, so every graph the
    constructor builds with one thread is of that kind. *)

Lemma addFriend_others (p0 el : ptr) (s s' : state) :
  addFriend p0 el s = (Ok tt, s') ->
  forall p nd', arena s' !! p = Some nd' ->
    exists nd, arena s !! p = Some nd /\
      forall q, q ∈ friends nd' -> q ∈ friends nd \/ (p = p0 /\ q = el).
Proof.
  unfold addFriend. destruct (arena s !! p0) as [nd0|] eqn:E; [|discriminate].
  intros [= <-] p nd'. simpl. apply lookup_lt_Some in E as Hlt.
  destruct (decide (p0 = p)) as [<-|Hne].
  - rewrite list_lookup_insert_eq by done. intros [= <-]. exists nd0.
    split; [done|]. simpl. intros q Hq. apply elem_of_app in Hq as [Hq|Hq]; [by left|].
    apply list_elem_of_singleton in Hq. by right.
  - rewrite list_lookup_insert_ne by done. intros H. exists nd'. split; [done|]. auto.
Qed.

Lemma link_results_others (x : ptr) : forall (rs : list Evaluated) (s s' : state),
  link_results rs x s = (Ok tt, s') ->
  forall p nd', p <> x -> arena s' !! p = Some nd' ->
    exists nd, arena s !! p = Some nd /\
      forall q, q ∈ friends nd' -> q ∈ friends nd \/ q = x.
Proof.
  induction rs as [|e rs IH]; intros s s'; cbn [link_results].
  - intros [= <-] p nd' _ H. exists nd'. split; [done|]. auto.
  - intros H p nd' Hp Hnd'. apply bind_Ok_inv in H as ([] & s1 & H1 & H2).
    destruct (IH s1 s' H2 p nd' Hp Hnd') as (nd1 & Hnd1 & F1).
    unfold link in H1. apply bind_Ok_inv in H1 as ([] & s0 & Ha & Hb).
    destruct (addFriend_others _ _ _ _ Hb p nd1 Hnd1) as (nd0 & Hnd0 & F0).
    destruct (addFriend_others _ _ _ _ Ha p nd0 Hnd0) as (nd & Hnd & F).
    exists nd. split; [done|]. intros q Hq.
    destruct (F1 q Hq) as [Hq1|?]; [|by right].
    destruct (F0 q Hq1) as [Hq0|[? _]]; [|done].
    destruct (F q Hq0) as [?|[_ ?]]; [by left|by right].
Qed.

Lemma quiescent_app (h l : list (MSWNode Object)) (EL : list ptr) :
  quiescent h EL -> quiescent (h ++ l) EL.
Proof.
  intros Hq i p Hp. destruct (Hq i p Hp) as (nd & Hnd & Hrest).
  exists nd. split; [|done]. by apply lookup_app_l_Some.
Qed.

Lemma connected_mono (h h' : list (MSWNode Object)) (EL : list ptr) :
  quiescent h EL ->
  (forall p nd, p ∈ EL -> h !! p = Some nd ->
     exists nd', h' !! p = Some nd' /\ forall q, q ∈ friends nd -> q ∈ friends nd') ->
  forall p q, p ∈ EL -> rtc (edge h) p q -> rtc (edge h') p q.
Proof.
  intros Hq Hmono p q Hp Hreach.
  induction Hreach as [p|p p1 q (nd & Hnd & Hp1) _ IH]; [apply rtc_refl|].
  destruct (published_node h EL Hq p Hp) as (i & nd2 & _ & _ & Hnd2 & _ & Hfr).
  rewrite Hnd in Hnd2. injection Hnd2 as <-.
  destruct (Hmono p nd Hp Hnd) as (nd' & Hnd' & Hsub).
  eapply rtc_l; [|apply IH; by apply Hfr].
  exists nd'. split; [done|by apply Hsub].
Qed.

Lemma add_preserves (fuel : nat) (x : ptr) (s : state) :
  quiescent (arena s) (ElList_ s) ->
  connected (arena s) (ElList_ s) ->
  ElList_ s <> [] ->
  x ∉ ElList_ s ->
  is_Some (arena s !! x) ->
  1 <= NN_ s ->
  1 <= initIndexAttempts_ s ->
  2 * length (ElList_ s) + 1 < fuel ->
  exists s',
    add fuel x s = (Ok tt, s') /\
    quiescent (arena s') (ElList_ s') /\
    connected (arena s') (ElList_ s') /\
    ElList_ s' = ElList_ s ++ [x] /\
    NN_ s' = NN_ s /\ initIndexAttempts_ s' = initIndexAttempts_ s.
Proof.
  intros Hq Hconn Hne Hx [nd Hnd] HNN Hatt Hfuel.
  destruct (add_quiescent fuel x s nd)
    as (rs & s2 & s3 & Ha2 & Hs2 & Hrs & Hlo & _ & _ & Hl & Hs3 & Hx3 & Hadd);
    try done.
  destruct Hs2 as (_ & He2 & HN2 & HA2 & _). destruct Hs3 as (_ & He3 & HN3 & HA3 & _).
  simpl in He2, He3, HN2, HN3, HA2, HA3.
  pose proof (link_results_inv x rs s2 s3 Hl) as [[_ Hgrow] Hlinked].
  pose proof (link_results_others x rs s2 s3 Hl) as Hothers.
  apply lookup_lt_Some in Hx3 as Hlt3.
  eexists. split; [exact Hadd|]. cbn [arena ElList_ set_ElList set_arena NN_ initIndexAttempts_].
  rewrite He3, He2.
  (* a published node of [s] in the final arena *)
  assert (forall p nd0, p ∈ ElList_ s -> arena s !! p = Some nd0 ->
            exists nd3, arena s3 !! p = Some nd3 /\
              addIndex_ nd3 = addIndex_ nd0 /\
              (forall q, q ∈ friends nd0 -> q ∈ friends nd3) /\
              (forall q, q ∈ friends nd3 -> q ∈ friends nd0 \/ q = x)) as Hold.
  { intros p nd0 Hp Hnd0.
    assert (p <> x) as Hpx by (intros ->; done).
    assert (arena s2 !! p = Some nd0) as Hnd2.
    { rewrite Ha2. by rewrite list_lookup_insert_ne. }
    destruct (Hgrow p nd0 Hnd2) as (nd3 & Hnd3 & _ & Hi3 & Hsub).
    exists nd3. split; [done|]. split; [done|]. split; [done|].
    intros q Hq'. destruct (Hothers p nd3 Hpx Hnd3) as (nd2 & Hnd2' & Hup).
    rewrite Hnd2 in Hnd2'. injection Hnd2' as <-. by apply Hup. }
  split; [|split; [|split; [done|split; congruence]]].
  - intros i p Hp. destruct (decide (i < length (ElList_ s))) as [Hi|Hi].
    + rewrite lookup_app_l in Hp by done.
      destruct (Hq i p Hp) as (nd0 & Hnd0 & Hidx & Hfr).
      assert (p ∈ ElList_ s) as Hpel by (by eapply list_elem_of_lookup_2).
      destruct (Hold p nd0 Hpel Hnd0) as (nd3 & Hnd3 & Hi3 & _ & Hup).
      exists nd3. split.
      { rewrite list_lookup_insert_ne; [done|]. intros ->. done. }
      split; [congruence|]. intros q Hq'. apply elem_of_app.
      destruct (Hup q Hq') as [?| ->]; [left; by apply Hfr|right; by apply list_elem_of_singleton].
    + rewrite lookup_app_r in Hp by lia.
      apply list_lookup_singleton_Some in Hp as [Hi0 <-].
      eexists. split; [by apply list_lookup_insert_eq|]. simpl.
      split; [f_equal; lia|].
      intros q Hq'. apply list_elem_of_fmap in Hq' as (e & -> & He).
      apply elem_of_app. left. by apply Hrs.
  - (* the new node and the top of the result set are linked both ways *)
    assert (length (ElList_ s) <> 0) as Hlen0 by (by destruct (ElList_ s)).
    destruct rs as [|e0 rs']; [simpl in Hlo; lia|].
    set (h' := <[x := _]> (arena s3)).
    assert (getMSWNode e0 ∈ ElList_ s) as He0 by (apply Hrs; left).
    assert (edge h' x (getMSWNode e0)) as Hxe.
    { eexists. split; [by apply list_lookup_insert_eq|]. simpl. left. }
    assert (edge h' (getMSWNode e0) x) as Hex.
    { destruct (Hlinked e0) as [(ndr & Hr & Hin) _]; [left|].
      exists ndr. split; [|done]. unfold h'.
      rewrite list_lookup_insert_ne; [done|]. intros Heq. apply Hx. by rewrite Heq. }
    assert (forall p q, p ∈ ElList_ s -> q ∈ ElList_ s -> rtc (edge h') p q) as Hin.
    { intros p q Hp Hq'. apply (connected_mono (arena s) h' (ElList_ s) Hq); [|done|by apply Hconn].
      intros p0 nd0 Hp0 Hnd0. destruct (Hold p0 nd0 Hp0 Hnd0) as (nd3 & Hnd3 & _ & Hsub & _).
      exists nd3. split; [|done]. unfold h'.
      rewrite list_lookup_insert_ne; [done|]. intros ->. done. }
    intros p q Hp Hq'.
    apply elem_of_app in Hp as [Hp|Hp]; apply elem_of_app in Hq' as [Hq'|Hq'];
      try apply list_elem_of_singleton in Hp as ->;
      try apply list_elem_of_singleton in Hq' as ->.
    + by apply Hin.
    + eapply rtc_r; [apply (Hin p (getMSWNode e0)); done|done].
    + eapply rtc_l; [exact Hxe|by apply Hin].
    + apply rtc_refl.
Qed.

Lemma add_all_quiescent (fuel : nat) : forall (data : list Object) (s : state),
  quiescent (arena s) (ElList_ s) ->
  connected (arena s) (ElList_ s) ->
  ElList_ s <> [] ->
  1 <= NN_ s ->
  1 <= initIndexAttempts_ s ->
  2 * (length (ElList_ s) + length data) + 1 < fuel ->
  exists s',
    add_all IndexTimeDistance rand_src fuel data s = (Ok tt, s') /\
    quiescent (arena s') (ElList_ s') /\
    connected (arena s') (ElList_ s') /\
    length (ElList_ s') = length (ElList_ s) + length data.
Proof.
  induction data as [|obj data IH]; intros s Hq Hconn Hne HNN Hatt Hfuel.
  - exists s. simpl. split; [done|]. split; [done|]. split; [done|lia].
  - cbn [add_all]. unfold new_MSWNode. unfold bind at 1.
    set (s0 := set_arena (arena s ++ [mkNode obj size_t_max []]) s).
    destruct (add_preserves fuel (length (arena s)) s0)
      as (s1 & Hadd & Hq1 & Hc1 & He1 & HN1 & HA1).
    + by apply quiescent_app.
    + intros p q Hp Hq'. simpl in Hp, Hq'.
      apply (connected_mono (arena s) _ (ElList_ s) Hq); [|done|by apply Hconn].
      intros p0 nd0 _ Hnd0. exists nd0. split; [|done]. by apply lookup_app_l_Some.
    + done.
    + simpl. intros Hin.
      destruct (published_node _ _ Hq _ Hin) as (? & ? & _ & _ & Hv & _).
      apply lookup_lt_Some in Hv. lia.
    + simpl. rewrite lookup_app_r by lia. rewrite Nat.sub_diag. by eexists.
    + done.
    + done.
    + simpl in *. lia.
    + erewrite bind_Ok by exact Hadd.
      destruct (IH s1) as (s' & Hrun & Hq' & Hc' & Hlen'); try done.
      * rewrite He1. simpl. by destruct (ElList_ s).
      * by rewrite HN1.
      * by rewrite HA1.
      * rewrite He1, length_app. simpl in *. lia.
      * exists s'. split; [done|]. split; [done|]. split; [done|].
        rewrite Hlen', He1, length_app. simpl. lia.
Qed.

(** X1.  Every index the constructor builds with one thread, [NN >= 1] and at
    least one attempt per insertion is quiescent and connected, and holds
    one published node per data object. *)
Theorem sequential_build_quiescent (fuel : nat) (omp : option nat) (rand0 : nat)
    (first : Object) (rest : list Object) (MethParams : AnyParams) :
  1 <= GetParamOptional (param_NN MethParams) 5 ->
  1 <= GetParamOptional (param_initIndexAttempts MethParams) 2 ->
  GetParamOptional (param_indexThreadQty MethParams) (GetParamOptional omp 0) <= 1 ->
  2 * S (length rest) + 1 < fuel ->
  exists s,
    SmallWorldRand_new fuel omp rand0 (first :: rest) MethParams = (Ok tt, s) /\
    quiescent (arena s) (ElList_ s) /\
    connected (arena s) (ElList_ s) /\
    length (ElList_ s) = S (length rest).
Proof.
  intros HNN Hatt Hthr Hfuel.
  assert (SmallWorldRand_new fuel omp rand0 (first :: rest) MethParams =
          add_all IndexTimeDistance rand_src fuel rest
            (singleton_index first omp rand0 MethParams)) as ->.
  { unfold SmallWorldRand_new, bind, new_MSWNode, addCriticalSection, gets. simpl.
    by rewrite bool_decide_eq_true_2 by done. }
  destruct (add_all_quiescent fuel rest (singleton_index first omp rand0 MethParams))
    as (s & Hrun & Hq & Hc & Hlen); try done.
  - intros i p Hp. destruct i as [|i]; [|done]. injection Hp as <-.
    eexists. split; [reflexivity|]. split; [done|].
    intros q Hq. by apply elem_of_nil in Hq.
  - intros p q Hp Hq'. simpl in Hp, Hq'.
    apply list_elem_of_singleton in Hp as ->. apply list_elem_of_singleton in Hq' as ->.
    apply rtc_refl.
  - exists s. done.
Qed.

(** ** Publication comes last *)

Lemma attempts_loop_same (fuel : nat) (queryObj : Object) (NN entryQty : nat) :
  forall (n : nat) vb rs ev (s : state) o s',
    attempts_loop IndexTimeDistance rand_src fuel queryObj NN entryQty n vb rs ev s
      = (o, s') ->
    same_index s s'.
Proof.
  induction n as [|n IH]; intros vb rs ev s o s'; cbn [attempts_loop].
  - intros [= _ <-]. apply same_index_refl.
  - unfold bind, getRandomEntryPointLocked, getRandomEntryPoint.
    case_bool_decide.
    + simpl. intros [= _ <-]. apply same_index_refl.
    + destruct (_ <~ _ ;; _) as [t| | |].
      * intros H'. apply IH in H'.
        eapply same_index_trans; [apply same_index_rand|exact H'].
      * intros [= _ <-]. apply same_index_rand.
      * intros [= _ <-]. apply same_index_rand.
      * intros [= _ <-]. apply same_index_rand.
Qed.

Lemma kSearch_same (fuel : nat) (queryObj : Object) (NN attempts : nat)
    (rs0 : list Evaluated) (s : state) o s' :
  kSearchElementsWithAttempts fuel queryObj NN attempts rs0 s = (o, s') ->
  same_index s s'.
Proof.
  unfold kSearchElementsWithAttempts, getEntryQtyLocked. unfold bind at 1.
  unfold bind.
  destruct (attempts_loop _ _ _ _ _ _ _ _ _ _ s) as [o1 s1] eqn:E.
  apply attempts_loop_same in E.
  destruct o1; unfold ret; intros [= _ <-]; exact E.
Qed.

(** *** The log of an insertion *)

Lemma addFriend_any (p el : ptr) (s : state) o s' :
  addFriend p el s = (o, s') ->
  friends_grow s s' /\
  (o = Ok tt -> exists nd, arena s' !! p = Some nd /\ el ∈ friends nd).
Proof.
  intros H. destruct o as [[]| | |].
  - apply addFriend_inv in H as [Hg Hin]. done.
  - unfold addFriend in H. destruct (arena s !! p); discriminate.
  - unfold addFriend in H. destruct (arena s !! p); [discriminate|].
    injection H as <-. split; [apply friends_grow_refl|discriminate].
  - unfold addFriend in H. destruct (arena s !! p); discriminate.
Qed.

(** What is logged while the links are made: a friend has been added, and
    between the start [s] of the linking and its end [s'] friends lists
    only grow. *)
Definition link_entry (s s' : state) (e : write * state) : Prop :=
  friends_grow s e.2 /\ friends_grow e.2 s' /\
  exists p el, e.1 = Wfriend p el /\
    exists nd, arena e.2 !! p = Some nd /\ el ∈ friends nd.

Lemma link_entry_mono (s0 s s' s1 : state) (e : write * state) :
  friends_grow s0 s -> friends_grow s' s1 -> link_entry s s' e -> link_entry s0 s1 e.
Proof.
  intros H0 H1 (Ha & Hb & Hc). split; [by eapply friends_grow_trans|].
  split; [by eapply friends_grow_trans|done].
Qed.

Lemma link_t_log (r x : ptr) (s : state) o s' tr :
  link_t r x s = (o, s', tr) ->
  link r x s = (o, s') /\ friends_grow s s' /\ Forall (link_entry s s') tr /\
  (o = Ok tt -> tr.*1 = [Wfriend r x; Wfriend x r]).
Proof.
  unfold link_t, link, tbind, logged, bind.
  destruct (addFriend r x s) as [o1 s1] eqn:E1.
  apply addFriend_any in E1 as [G1 F1].
  destruct o1 as [[]| | |].
  2-4: intros [= <- <- <-]; (split; [done|]); (split; [done|]);
       (split; [constructor|discriminate]).
  destruct (addFriend x r s1) as [o2 s2] eqn:E2.
  apply addFriend_any in E2 as [G2 F2].
  assert (link_entry s s2 (Wfriend r x, s1)) as L1.
  { split; [done|]. split; [done|]. exists r, x. split; [done|]. by apply F1. }
  destruct o2 as [[]| | |]; intros [= <- <- <-];
    (split; [done|]); (split; [by eapply friends_grow_trans|]).
  2-4: split; [constructor; [exact L1|constructor]|discriminate].
  split; [|done]. constructor; [done|]. constructor; [|constructor].
  split; [by eapply friends_grow_trans|]. split; [apply friends_grow_refl|].
  exists x, r. split; [done|]. by apply F2.
Qed.

Lemma link_results_t_log (x : ptr) : forall (rs : list Evaluated) (s : state) o s' tr,
  link_results_t rs x s = (o, s', tr) ->
  link_results rs x s = (o, s') /\ friends_grow s s' /\ Forall (link_entry s s') tr /\
  (o = Ok tt ->
   tr.*1 = concat ((fun e => [Wfriend (getMSWNode e) x; Wfriend x (getMSWNode e)]) <$> rs)).
Proof.
  induction rs as [|e rs IH]; intros s o s' tr; cbn [link_results_t link_results].
  - intros [= <- <- <-]. split; [done|]. split; [apply friends_grow_refl|]. done.
  - unfold tbind, bind.
    destruct (link_t (getMSWNode e) x s) as [[o1 s1] l1] eqn:E1.
    apply link_t_log in E1 as (-> & G1 & L1 & W1).
    destruct o1 as [[]| | |].
    2-4: intros [= <- <- <-]; (split; [done|]); (split; [done|]);
         (split; [done|discriminate]).
    destruct (link_results_t rs x s1) as [[o2 s2] l2] eqn:E2.
    apply IH in E2 as (-> & G2 & L2 & W2).
    intros [= <- <- <-]. split; [done|]. split; [by eapply friends_grow_trans|].
    split.
    + apply Forall_app. split.
      * eapply Forall_impl; [exact L1|]. intros e'.
        apply link_entry_mono; [apply friends_grow_refl|done].
      * eapply Forall_impl; [exact L2|]. intros e'.
        apply link_entry_mono; [done|apply friends_grow_refl].
    + intros Ho. rewrite fmap_app, fmap_cons, concat_cons.
      by rewrite (W1 eq_refl), (W2 Ho).
Qed.

(** Before the publication: friends lists are being written; the list of
    published nodes and the index of [x] are those of the start. *)
Definition pre_entry (x : ptr) (s : state) (e : write * state) : Prop :=
  (e.1 = Wclear x \/ exists p el, e.1 = Wfriend p el) /\
  ElList_ e.2 = ElList_ s /\ addIndex_at e.2 x = addIndex_at s x.

Lemma link_entry_pre (x : ptr) (s s2 s3 : state) (e : write * state) :
  ElList_ s2 = ElList_ s -> addIndex_at s2 x = addIndex_at s x ->
  is_Some (arena s2 !! x) ->
  link_entry s2 s3 e -> pre_entry x s e.
Proof.
  intros He Hi [nd Hx] ([He' Hg] & _ & p & el & Hw & _).
  split; [right; by exists p, el|].
  split; [congruence|]. rewrite <- Hi. unfold addIndex_at.
  destruct (Hg x nd Hx) as (nd' & -> & _ & Hidx & _). rewrite Hx. simpl.
  by rewrite Hidx.
Qed.

(** The log of [add]: either [add] fails and nothing but friends lists has
    been written, or it returns and its log is the clearing of the friends
    of [x], the links with the result set of the traversal, and last the
    publication. *)
Lemma add_t_shape (fuel : nat) (x : ptr) (s s' : state) o tr :
  add_t fuel x s = (o, s', tr) ->
  (Forall (pre_entry x s) tr /\ o <> Ok tt) \/
  (exists nd rs ev s2 s3 ltr,
     arena s !! x = Some nd /\
     kSearchElementsWithAttempts fuel (data_ nd) (NN_ s) (initIndexAttempts_ s) []
       (set_arena (<[x := set_friends [] nd]> (arena s)) s) = (Ok (rs, ev), s2) /\
     link_results_t rs x s2 = (Ok tt, s3, ltr) /\
     addCriticalSection x s3 = (Ok tt, s') /\
     o = Ok tt /\
     is_Some (arena s2 !! x) /\
     ElList_ s2 = ElList_ s /\ addIndex_at s2 x = addIndex_at s x /\
     tr = (Wclear x, set_arena (<[x := set_friends [] nd]> (arena s)) s)
            :: ltr ++ [(Wpublish x, s')]).
Proof.
  unfold add_t. unfold tbind at 1. unfold logged at 1. unfold removeAllFriends.
  destruct (arena s !! x) as [nd|] eqn:Hx.
  2:{ intros [= <- <- <-]. left. split; [constructor|discriminate]. }
  set (s1 := set_arena (<[x := set_friends [] nd]> (arena s)) s).
  assert (arena s1 !! x = Some (set_friends [] nd)) as Hx1.
  { simpl. apply list_lookup_insert_eq. by eapply lookup_lt_Some. }
  assert (pre_entry x s (Wclear x, s1)) as Hclear.
  { split; [by left|]. split; [done|]. unfold addIndex_at. cbn [snd].
    by rewrite Hx1, Hx. }
  unfold tbind at 1. unfold silent at 1. unfold gets at 1.
  case_bool_decide as Hempty.
  { unfold silent, lift. intros [= <- <- <-]. left.
    split; [by constructor|discriminate]. }
  unfold tbind at 1. unfold silent at 1. unfold deref. rewrite Hx1.
  unfold tbind at 1. unfold silent at 1. unfold gets at 1.
  unfold tbind at 1. unfold silent at 1. unfold gets at 1.
  unfold tbind at 1. unfold silent at 1.
  cbn [NN_ initIndexAttempts_ s1 set_arena data_ set_friends].
  fold s1.
  destruct (kSearchElementsWithAttempts fuel (data_ nd) (NN_ s) (initIndexAttempts_ s) [] s1)
    as [ok s2] eqn:Hk.
  pose proof (kSearch_same _ _ _ _ _ _ _ _ Hk) as (Ha2 & He2 & _).
  destruct ok as [[rs ev]| | |].
  2-4: intros [= <- <- <-]; left; (split; [by constructor|discriminate]).
  unfold tbind at 1. cbn [fst].
  destruct (link_results_t rs x s2) as [[o3 s3] ltr] eqn:Hl.
  pose proof (link_results_t_log x rs s2 o3 s3 ltr Hl) as (Hl' & Hg3 & Hlog & _).
  assert (is_Some (arena s2 !! x)) as Hx2 by (rewrite Ha2; by eexists).
  assert (addIndex_at s2 x = addIndex_at s x) as Hi2.
  { unfold addIndex_at. by rewrite Ha2, Hx1, Hx. }
  assert (Forall (pre_entry x s) ltr) as Hpre.
  { eapply Forall_impl; [exact Hlog|]. intros e.
    by apply (link_entry_pre x s s2 s3). }
  destruct o3 as [[]| | |].
  2-4: intros [= <- <- <-]; left; (split; [|discriminate]);
       simpl; by constructor.
  unfold logged.
  destruct (addCriticalSection x s3) as [o4 s4] eqn:Hacs.
  destruct o4 as [[]| | |].
  2-4: intros [= <- <- <-]; left; (split; [|discriminate]);
       simpl; rewrite app_nil_r; by constructor.
  intros [= <- <- <-]. right.
  exists nd, rs, ev, s2, s3, ltr. repeat (split; [done|]). done.
Qed.

Lemma add_t_erase (fuel : nat) (x : ptr) (s : state) :
  (add_t fuel x s).1 = add fuel x s.
Proof.
  assert (forall rs (s0 : state), (link_results_t rs x s0).1 = link_results rs x s0) as Hlr.
  { intros rs s0. destruct (link_results_t rs x s0) as [[o3 s3] ltr] eqn:Hl.
    by apply link_results_t_log in Hl as (-> & _). }
  unfold add_t, add, tbind, bind, logged, silent, gets, lift, deref.
  destruct (removeAllFriends x s) as [[[]| | |] s1]; try done.
  case_bool_decide; try done.
  destruct (arena s1 !! x) as [nd|]; try done.
  destruct (kSearchElementsWithAttempts _ _ _ _ _ s1) as [[r| | |] s2];
    try done.
  specialize (Hlr r.1 s2).
  destruct (link_results_t r.1 x s2) as [[o3 s3] ltr]. simpl in Hlr. rewrite <- Hlr.
  destruct o3 as [[]| | |]; try done.
  destruct (addCriticalSection x s3) as [[[]| | |] s4]; done.
Qed.

(** C8.  [add_t] is [add] with its writes to the graph logged in program
    order, each with the state it leaves.  In every run of [add], whatever
    its outcome and whatever the graph: every write but the publication of
    [x] leaves the list of published nodes and the index of [x] as they were
    at the start; the publication is the last write of the run, made only
    when [add] returns, and it appends [x] and gives it the former size as
    index; every [addFriend] of the run is logged before it, and in the
    state the publication leaves every friend that was added is in place.
    When [add] returns its writes are, in this order: the clearing of the
    friends of [x], the two writes of [link] for every entry of the result
    set of the traversal, and the publication. *)
Theorem add_publishes_after_linking (fuel : nat) (x : ptr) (s s' : state)
    (o : outcome unit) (tr : list (write * state)) :
  add_t fuel x s = (o, s', tr) ->
  add fuel x s = (o, s') /\
  (forall i w sw, tr !! i = Some (w, sw) ->
     w = Wpublish x \/
     (ElList_ sw = ElList_ s /\ addIndex_at sw x = addIndex_at s x)) /\
  (forall i sw, tr !! i = Some (Wpublish x, sw) ->
     S i = length tr /\ o = Ok tt /\ sw = s' /\
     ElList_ s' = ElList_ s ++ [x] /\
     addIndex_at s' x = Some (N.of_nat (length (ElList_ s))) /\
     forall j p el sj, tr !! j = Some (Wfriend p el, sj) ->
       j < i /\ exists nd, arena s' !! p = Some nd /\ el ∈ friends nd) /\
  (o = Ok tt ->
   exists nd rs ev s2,
     arena s !! x = Some nd /\
     kSearchElementsWithAttempts fuel (data_ nd) (NN_ s) (initIndexAttempts_ s) []
       (set_arena (<[x := set_friends [] nd]> (arena s)) s) = (Ok (rs, ev), s2) /\
     tr.*1 =
       Wclear x ::
       concat ((fun e => [Wfriend (getMSWNode e) x; Wfriend x (getMSWNode e)]) <$> rs)
       ++ [Wpublish x]).
Proof.
  intros H. split.
  { rewrite <- add_t_erase. by rewrite H. }
  destruct (add_t_shape fuel x s s' o tr H)
    as [[Hpre Hno]|(nd & rs & ev & s2 & s3 & ltr & Hx & Hk & Hl & Hacs & -> & Hx2 &
                    He2 & Hi2 & ->)].
  - (* [add] does not return: nothing is published *)
    split; [|split; [|done]].
    + intros i w sw Hi. right.
      apply (Forall_lookup_1 _ _ _ _ Hpre) in Hi as (_ & He & Hidx). done.
    + intros i sw Hi.
      apply (Forall_lookup_1 _ _ _ _ Hpre) in Hi as ([Hw|(p & el & Hw)] & _);
        discriminate.
  - (* [add] returns *)
    set (s1 := set_arena (<[x := set_friends [] nd]> (arena s)) s) in *.
    pose proof (link_results_t_log x rs s2 (Ok tt) s3 ltr Hl) as (_ & [He3 Hg3] & Hlog & Hw).
    assert (Forall (pre_entry x s) ((Wclear x, s1) :: ltr)) as Hpre.
    { constructor.
      - split; [by left|]. split; [done|]. unfold addIndex_at. simpl.
        rewrite list_lookup_insert_eq by (by eapply lookup_lt_Some). by rewrite Hx.
      - eapply Forall_impl; [exact Hlog|]. intros e.
        by apply (link_entry_pre x s s2 s3). }
    unfold addCriticalSection in Hacs.
    destruct (arena s3 !! x) as [n3|] eqn:Hx3; [|discriminate].
    injection Hacs as <-.
    set (s' := set_ElList _ _) in *.
    assert (forall i w sw, ((Wclear x, s1) :: ltr ++ [(Wpublish x, s')]) !! i = Some (w, sw) ->
              (i < S (length ltr) /\ ((Wclear x, s1) :: ltr) !! i = Some (w, sw)) \/
              (i = S (length ltr) /\ w = Wpublish x /\ sw = s')) as Hsplit.
    { intros i w sw. rewrite app_comm_cons. intros Hi.
      apply lookup_app_Some in Hi as [Hi|[Hge Hi]].
      - left. split; [|done]. by apply lookup_lt_Some in Hi.
      - right. simpl in Hge, Hi.
        destruct (i - S (length ltr)) as [|k] eqn:Hk'; [|done].
        injection Hi as <- <-. split; [lia|done]. }
    split; [|split].
    + intros i w sw Hi. destruct (Hsplit i w sw Hi) as [[_ Hi']|(_ & -> & _)]; [|by left].
      right. apply (Forall_lookup_1 _ _ _ _ Hpre) in Hi' as (_ & He & Hidx). done.
    + intros i sw Hi. destruct (Hsplit i _ sw Hi) as [[_ Hi']|(-> & _ & ->)].
      { apply (Forall_lookup_1 _ _ _ _ Hpre) in Hi' as ([Hw'|(p & el & Hw')] & _);
          discriminate. }
      split; [simpl; rewrite length_app; simpl; lia|]. split; [done|]. split; [done|].
      split; [unfold s'; simpl; congruence|]. split.
      { unfold addIndex_at, s'. simpl.
        rewrite list_lookup_insert_eq by (by eapply lookup_lt_Some). simpl.
        do 3 f_equal. congruence. }
      intros j p el sj Hj.
      destruct (Hsplit j _ sj Hj) as [[Hlt Hj']|(_ & Hw' & _)]; [|discriminate].
      split; [done|].
      destruct j as [|j]; [discriminate|]. simpl in Hj'.
      apply (Forall_lookup_1 _ _ _ _ Hlog) in Hj'
        as (_ & [_ Hgj] & p' & el' & Hw' & ndj & Hndj & Hin).
      simpl in Hw', Hndj. injection Hw' as <- <-.
      destruct (Hgj p ndj Hndj) as (nd3 & Hnd3 & _ & _ & Hsub).
      unfold s'. simpl. destruct (decide (x = p)) as [<-|Hne].
      * rewrite list_lookup_insert_eq by (by eapply lookup_lt_Some).
        eexists. split; [done|]. simpl. rewrite Hx3 in Hnd3. injection Hnd3 as ->.
        by apply Hsub.
      * rewrite list_lookup_insert_ne by done. exists nd3. split; [done|by apply Hsub].
    + intros _. exists nd, rs, ev, s2. split; [done|]. split; [done|].
      rewrite fmap_cons, fmap_app. simpl. by rewrite (Hw eq_refl).
Qed.


Lemma add_split (fuel : nat) (x : ptr) (s : state) :
  add fuel x s =
    (_ <- add_links IndexTimeDistance rand_src fuel x ;;; addCriticalSection x) s.
Proof.
  unfold add, add_links, bind, gets, lift, deref.
  destruct (removeAllFriends x s) as [[[]| | |] s1]; try done.
  case_bool_decide; try done.
  destruct (arena s1 !! x) as [nd|]; try done.
  all: destruct (kSearchElementsWithAttempts _ _ _ _ _ s1) as [[r| | |] s2]; try done.
  all: destruct (link_results r.1 x s2) as [[[]| | |] s3]; done.
Qed.

(** ** Neighbours outside the bitset *)

Lemma visit_unindexed (h : list (MSWNode Object)) (queryObj : Object)
    (NN entryQty : nat) (t : trav) (iter : ptr) (nd : MSWNode Object) :
  h !! iter = Some nd ->
  (N.of_nat entryQty <= addIndex_ nd)%N ->
  resultSet t <> [] ->
  visit_neighbor IndexTimeDistance h queryObj NN entryQty t iter =
    Ok (evaluate queryObj NN t iter nd (visitedBitset t)).
Proof.
  intros Hnd Hidx Hrs. unfold visit_neighbor. rewrite Hnd.
  assert ((N.of_nat entryQty <=? addIndex_ nd)%N = true) as -> by (by apply N.leb_le).
  assert ((addIndex_ nd <? N.of_nat entryQty)%N = false) as -> by (apply N.ltb_ge; lia).
  simpl. unfold evaluate. destruct (resultSet t) as [|top rs]; [done|].
  simpl pq_top. case_bool_decide; simpl; done.
Qed.



(** ** Queries on a quiescent index *)

Section QuiescentQuery.
Variable h : list (MSWNode Object).
Variable EL : list ptr.
Variable NN : nat.
Hypothesis Hq : quiescent h EL.
(** The number of nodes is a [size_t] below the sentinel. *)
Hypothesis Hfit : (N.of_nat (length EL) <= size_t_max)%N.

Record qinv (t : qtrav Object) : Prop := mk_qinv {
  qinv_len : length (q_visitedBitset t) = length EL;
  qinv_cdq : q_closestDistQueue t <> [];
  qinv_cand : forall e, e ∈ q_candidateQueue t -> getMSWNode e ∈ EL;
}.

Definition qmeasure (t : qtrav Object) : nat :=
  2 * unvisited (q_visitedBitset t) + length (q_candidateQueue t).

Lemma query_neighbor_total (t : qtrav Object) (q : ptr) :
  qinv t -> q ∈ EL ->
  exists t', query_neighbor h NN t q = Ok t' /\ qinv t' /\ qmeasure t' <= qmeasure t.
Proof.
  intros [Hlen Hcdq Hcand] Hq'.
  destruct (published_node h EL Hq q Hq') as (i & nd & _ & Hi & Hnd & Hidx & _).
  unfold query_neighbor. rewrite Hnd, Hidx.
  rewrite bool_decide_eq_false_2 by lia.
  unfold bitset_get, bitset_set. rewrite Nat2N.id.
  destruct (q_visitedBitset t !! i) as [[]|] eqn:Hb; simpl.
  - exists t. done.
  - rewrite bool_decide_eq_true_2 by lia. simpl. eexists. split; [done|].
    split; [split|]; simpl.
    + by rewrite length_insert.
    + by apply pop_after_push_nonempty.
    + intros e He. apply pq_push_elem in He as [->|He]; [done|by apply Hcand].
    + unfold qmeasure. simpl. rewrite pq_push_length.
      pose proof (unvisited_set _ _ Hb). lia.
  - apply lookup_ge_None in Hb. lia.
Qed.

Lemma for_each_query_total (qs : list ptr) : forall t,
  qinv t -> (forall q, q ∈ qs -> q ∈ EL) ->
  exists t', for_each (query_neighbor h NN) qs t = Ok t' /\ qinv t' /\
             qmeasure t' <= qmeasure t.
Proof.
  induction qs as [|q qs IH]; intros t Ht Hqs; simpl.
  - exists t. done.
  - destruct (query_neighbor_total t q Ht) as (t1 & -> & Ht1 & Hm1); [apply Hqs; left|].
    simpl. destruct (IH t1 Ht1) as (t2 & -> & Ht2 & Hm2).
    + intros q' Hq'. apply Hqs. by right.
    + exists t2. split; [done|]. split; [done|lia].
Qed.

Lemma query_loop_total (fuel : nat) : forall t,
  qinv t -> qmeasure t < fuel ->
  exists t', query_loop h NN fuel t = Ok t' /\ qinv t'.
Proof.
  induction fuel as [|fuel IH]; intros t Ht Hm; [lia|]. simpl.
  destruct (q_candidateQueue t) as [|e rest] eqn:Ec; simpl.
  { by exists t. }
  destruct (q_closestDistQueue t) as [|lb cdq] eqn:Ed; simpl.
  { by destruct (qinv_cdq t Ht). }
  destruct (lb <? getDistance e)%Z; [by exists t|].
  assert (getMSWNode e ∈ EL) as Hel by (apply (qinv_cand t Ht); rewrite Ec; left).
  destruct (published_node h EL Hq _ Hel) as (i & nd & _ & _ & Hnd & _ & Hfr).
  rewrite Hnd.
  destruct (for_each_query_total (friends nd)
              (mkQTrav (q_visitedBitset t) (lb :: cdq) rest (q_query t)))
    as (t1 & Hfe & Ht1 & Hm1); [|done|].
  { destruct Ht as [H1 H2 H3]. split; simpl; try done.
    intros e' He'. apply H3. rewrite Ec. by right. }
  rewrite Hfe. simpl. apply IH; [done|].
  unfold qmeasure in *. simpl in Hm1. rewrite Ec in Hm. simpl in Hm. lia.
Qed.

Lemma query_seed_total (p : ptr) (vb : list bool) (query : KNNQuery Object) :
  p ∈ EL -> length vb = length EL ->
  exists t0, query_seed h (Some p) vb query = Ok t0 /\ qinv t0 /\
             qmeasure t0 <= 2 * length EL + 1.
Proof.
  intros Hp Hlen.
  destruct (published_node h EL Hq p Hp) as (i & nd & _ & Hi & Hnd & Hidx & _).
  unfold query_seed. rewrite Hnd, Hidx.
  rewrite bool_decide_eq_false_2 by lia.
  unfold bitset_set. rewrite Nat2N.id.
  rewrite bool_decide_eq_true_2 by lia. simpl. eexists. split; [done|].
  split; [split|]; simpl; try done.
  - by rewrite length_insert.
  - intros e He. apply list_elem_of_singleton in He as ->. done.
  - unfold qmeasure. simpl.
    pose proof (unvisited_le (<[i:=true]> vb)) as Hu.
    rewrite length_insert in Hu. lia.
Qed.

End QuiescentQuery.

Lemma query_attempts_total (fuel : nat) :
  forall (n : nat) (vb : list bool) (query : KNNQuery Object) (s : state),
    quiescent (arena s) (ElList_ s) ->
    (N.of_nat (length (ElList_ s)) <= size_t_max)%N ->
    ElList_ s <> [] -> length vb = length (ElList_ s) ->
    2 * length (ElList_ s) + 1 < fuel ->
    exists vb' query' s',
      query_attempts rand_src fuel n vb query s = (Ok (vb', query'), s') /\
      same_index s s'.
Proof.
  induction n as [|n IH]; intros vb query s Hq Hfit Hne Hlen Hfuel.
  - exists vb, query, s. split; [done|apply same_index_refl].
  - cbn [query_attempts].
    destruct (getRandomEntryPoint_nonempty s Hne) as (p & Hp & Hrand).
    erewrite bind_Ok by exact Hrand. cbn [arena NN_ set_rand_calls].
    destruct (query_seed_total (arena s) (ElList_ s) Hq Hfit p vb query Hp Hlen)
      as (t0 & -> & Ht0 & Hm0).
    cbn [obind].
    destruct (query_loop_total (arena s) (ElList_ s) (NN_ s) Hq Hfit fuel t0 Ht0)
      as (t' & -> & Ht'); [lia|].
    destruct (IH (q_visitedBitset t') (q_query t') (set_rand_calls (S (rand_calls s)) s))
      as (vb' & query' & s' & Hrun & Hsame); try done.
    + apply (qinv_len _ _ Ht').
    + exists vb', query', s'. split; [done|].
      eapply same_index_trans; [apply same_index_rand|exact Hsame].
Qed.

(** C10.  Take an index in a quiescent state, with at least one search
    attempt configured.  If no node is published, [getRandomEntryPoint]
    returns [NULL] and the k-NN [Search] dereferences it: the outcome is a
    fault, not an error the code raises, whereas [add] in the same state
    throws.  If at least one node is published, [Search] returns normally
    (the iteration bound [2 N + 2] is enough). *)
Theorem Search_needs_a_published_node (fuel : nat) (query : KNNQuery Object)
    (s : state) :
  quiescent (arena s) (ElList_ s) ->
  (N.of_nat (length (ElList_ s)) <= size_t_max)%N ->
  0 < initSearchAttempts_ s ->
  2 * length (ElList_ s) + 1 < fuel ->
  (ElList_ s = [] ->
     getRandomEntryPoint rand_src s = (Ok None, s) /\
     Search fuel query s = (Fault, s) /\
     forall x, is_Some (arena s !! x) ->
       exists s', add fuel x s = (Throw "Bug: the list of nodes shouldn't be empty!", s')) /\
  (ElList_ s <> [] ->
     exists query' s', Search fuel query s = (Ok query', s') /\ same_index s s').
Proof.
  intros Hq Hfit Hatt Hfuel. split.
  - intros Hempty.
    assert (getRandomEntryPoint rand_src s = (Ok None, s)) as Hrand.
    { unfold getRandomEntryPoint. by rewrite Hempty. }
    split; [done|]. split.
    + unfold Search, gets. unfold bind at 1. unfold bind at 1.
      destruct (initSearchAttempts_ s) as [|n]; [lia|].
      cbn [query_attempts]. unfold bind. by rewrite Hrand.
    + intros x [nd Hnd].
      eexists. by apply add_on_empty.
  - intros Hne. unfold Search, gets. unfold bind at 1. unfold bind at 1.
    destruct (query_attempts_total fuel (initSearchAttempts_ s)
                (replicate (length (ElList_ s)) false) query s)
      as (vb' & query' & s' & Hrun & Hsame); try done.
    { by rewrite length_replicate. }
    unfold bind. rewrite Hrun. unfold ret. by exists query', s'.
Qed.

(** * Further properties of the code *)

(** ** The random entry point (lines 204-214) *)

Lemma getRandomEntryPoint_Ok (s : state) :
  exists r s',
    getRandomEntryPoint rand_src s = (Ok r, s') /\
    same_index s s' /\
    rand_calls s' <= S (rand_calls s) /\
    forall p, r = Some p -> p ∈ ElList_ s.
Proof.
  unfold getRandomEntryPoint. case_bool_decide as Hlen.
  - exists None, s. split; [done|]. split; [apply same_index_refl|].
    split; [lia|]. intros p Hp. discriminate Hp.
  - eexists _, _. split; [done|]. split; [apply same_index_rand|].
    split; [simpl; lia|]. intros p Hp. by eapply list_elem_of_lookup_2.
Qed.

(** The entry point is [NULL] exactly when no node is published, and then
    [rand()] is not called; otherwise it is the published node at position
    [rand() % size], and one random number is consumed.  The graph is not
    touched. *)
Lemma random_entry_point_published (s : state) :
  exists r s',
    getRandomEntryPoint rand_src s = (Ok r, s') /\
    same_index s s' /\
    (r = None <-> ElList_ s = []) /\
    (r = None -> s' = s) /\
    (forall p, r = Some p ->
       ElList_ s !! (rand_src (rand_calls s) `mod` length (ElList_ s)) = Some p /\
       p ∈ ElList_ s /\ rand_calls s' = S (rand_calls s)).
Proof.
  unfold getRandomEntryPoint. case_bool_decide as Hlen.
  - assert (ElList_ s = []) as Hnil by (by destruct (ElList_ s)).
    exists None, s. split; [done|]. split; [apply same_index_refl|].
    split; [done|]. split; [done|]. intros p Hp. discriminate Hp.
  - assert (ElList_ s <> []) as Hne by (intros E; by rewrite E in Hlen).
    destruct (lookup_lt_is_Some_2 (ElList_ s)
                (rand_src (rand_calls s) `mod` length (ElList_ s)))
      as [p Hp]; [by apply Nat.mod_upper_bound|].
    eexists _, _. split; [done|]. split; [apply same_index_rand|].
    rewrite Hp. split; [split; [discriminate|done]|]. split; [discriminate|].
    intros p' [= <-]. split; [done|]. split; [by eapply list_elem_of_lookup_2|done].
Qed.

(** ** The traversal on any graph: what it returns when it returns *)

Section AnyGraph.
Variable h : list (MSWNode Object).
Variable EL : list ptr.
Variable queryObj : Object.
Variable NN : nat.
Variable entryQty : nat.

Local Abbreviation visit := (visit_neighbor IndexTimeDistance h queryObj NN entryQty).
Local Abbreviation loop := (candidate_loop IndexTimeDistance h queryObj NN entryQty).

(** A visit that returns either skipped the neighbour or evaluated it. *)
Lemma visit_cases (t t' : trav) (it : ptr) :
  visit t it = Ok t' ->
  t' = t \/ exists nd vb, h !! it = Some nd /\ t' = evaluate queryObj NN t it nd vb.
Proof.
  unfold visit_neighbor. destruct (h !! it) as [nd|]; [|discriminate].
  destruct (if (_ <=? _)%N then _ else _) as [[]| | |]; simpl; try discriminate.
  2: { intros [= <-]. by left. }
  destruct (if (_ <? _)%N then _ else _) as [vb| | |]; simpl; try discriminate.
  unfold evaluate. case_bool_decide; simpl.
  - intros [= <-]. right. by exists nd, vb.
  - destruct (pq_top (resultSet t)) as [top|]; simpl; [|discriminate].
    intros [= <-]. right. by exists nd, vb.
Qed.

(** An evaluation never shrinks the result set and lets it grow only while
    it has fewer than [NN] entries. *)
Lemma evaluate_size (t : trav) (it : ptr) (nd : MSWNode Object) (vb : list bool) :
  length (resultSet t) <= length (resultSet (evaluate queryObj NN t it nd vb)) /\
  length (resultSet (evaluate queryObj NN t it nd vb)) <= length (resultSet t) `max` NN.
Proof.
  unfold evaluate. simpl. unfold pq_size.
  case_bool_decide as Hlt.
  - rewrite pq_push_length. rewrite bool_decide_eq_false_2 by lia.
    rewrite pq_push_length. lia.
  - destruct (pq_top (resultSet t)) as [top|]; [|lia].
    destruct (_ <? _)%Z; [|lia].
    rewrite pq_push_length. rewrite bool_decide_eq_true_2 by lia.
    rewrite length_pop, pq_push_length. lia.
Qed.

Lemma evaluate_result_elem (t : trav) (it : ptr) (nd : MSWNode Object)
    (vb : list bool) (e : Evaluated) :
  e ∈ resultSet (evaluate queryObj NN t it nd vb) ->
  e = mkEv (IndexTimeDistance queryObj (data_ nd)) it \/ e ∈ resultSet t.
Proof.
  unfold evaluate. simpl.
  destruct (if bool_decide (pq_size (resultSet t) < NN) then true else _); [|by right].
  intros He.
  assert (e ∈ pq_push less_Direct
                (mkEv (IndexTimeDistance queryObj (data_ nd)) it) (resultSet t)) as He'.
  { case_bool_decide; [by apply elem_of_pop|done]. }
  by apply pq_push_elem in He'.
Qed.

(** An entry carries the distance of the node it names. *)
Definition sound (e : Evaluated) : Prop :=
  exists nd, h !! getMSWNode e = Some nd /\
             getDistance e = IndexTimeDistance queryObj (data_ nd).

(** A node the traversal can come across: a published node or a friend of
    an allocated node. *)
Definition in_reach (p : ptr) : Prop :=
  p ∈ EL \/ exists q nd, h !! q = Some nd /\ p ∈ friends nd.

Record sinv (lo hi : nat) (t : trav) : Prop := mk_sinv {
  sinv_sound : forall e, e ∈ resultSet t -> sound e /\ in_reach (getMSWNode e);
  sinv_lo : lo <= length (resultSet t);
  sinv_hi : length (resultSet t) <= hi;
}.

Lemma visit_sinv (lo hi : nat) (t t' : trav) (it : ptr) :
  NN <= hi -> sinv lo hi t -> in_reach it -> visit t it = Ok t' -> sinv lo hi t'.
Proof.
  intros Hhi [Hs Hl Hu] Hit Hv.
  destruct (visit_cases t t' it Hv) as [->|(nd & vb & Hnd & ->)]; [done|].
  pose proof (evaluate_size t it nd vb) as [Hle Hge]. split; [|lia|lia].
  intros e He. apply evaluate_result_elem in He as [->|He]; [|by apply Hs].
  split; [|done]. by exists nd.
Qed.

(** The [while] loop hands on to its exit every property that popping a
    candidate and visiting a friend of an allocated node keep. *)
Lemma candidate_loop_preserves (P : trav -> Prop) :
  (forall t, P t -> P (set_candidateSet (pq_pop (candidateSet t)) t)) ->
  (forall t it t', P t -> (exists q nd, h !! q = Some nd /\ it ∈ friends nd) ->
                   visit t it = Ok t' -> P t') ->
  forall fuel t t', P t -> loop fuel t = Ok t' -> P t'.
Proof.
  intros Hpop Hstep. induction fuel as [|fuel IH]; intros t t' Ht; [discriminate|].
  simpl. destruct (pq_top (candidateSet t)) as [e|]; [|by intros [= <-]].
  destruct (pq_top (closestDistQueue t)) as [lb|]; [|discriminate].
  destruct (lb <? getDistance e)%Z; [by intros [= <-]|].
  destruct (h !! getMSWNode e) as [nd|] eqn:Hnd; [|discriminate].
  destruct (for_each _ _ _) as [t1| | |] eqn:Hfe; simpl; try discriminate.
  apply IH. eapply (for_each_inv visit P); [|apply Hpop, Ht|exact Hfe].
  intros s0 x s0' Hs0 Hx Hv. eapply Hstep; [done| |done]. by exists (getMSWNode e), nd.
Qed.

Lemma candidate_loop_sinv (lo hi fuel : nat) (t t' : trav) :
  NN <= hi -> sinv lo hi t -> loop fuel t = Ok t' -> sinv lo hi t'.
Proof.
  intros Hhi. apply (candidate_loop_preserves (sinv lo hi)).
  - intros t0 [H1 H2 H3]. by split.
  - intros t0 it t0' Ht0 Hit Hv. apply (visit_sinv lo hi t0 t0' it); auto.
    by right.
Qed.

End AnyGraph.

Lemma attempts_loop_sinv (fuel : nat) (queryObj : Object) (NN entryQty : nat) :
  forall (n : nat) vb rs ev (s : state) (k : nat) vb' rs' ev' s',
    (forall e, e ∈ rs -> sound (arena s) queryObj e /\
                         in_reach (arena s) (ElList_ s) (getMSWNode e)) ->
    k <= length rs -> length rs <= NN + k ->
    attempts_loop IndexTimeDistance rand_src fuel queryObj NN entryQty n vb rs ev s
      = (Ok (vb', rs', ev'), s') ->
    (forall e, e ∈ rs' -> sound (arena s) queryObj e /\
                          in_reach (arena s) (ElList_ s) (getMSWNode e)) /\
    k + n <= length rs' /\ length rs' <= NN + k + n.
Proof.
  induction n as [|n IH]; intros vb rs ev s k vb' rs' ev' s' Hs Hlo Hhi;
    cbn [attempts_loop].
  - intros [= <- <- <- <-]. split; [done|]. lia.
  - unfold getRandomEntryPointLocked.
    destruct (getRandomEntryPoint_Ok s) as (r & s1 & Hr & Hsame & _ & Hsome).
    erewrite bind_Ok by exact Hr.
    destruct Hsame as (Ha & He & _).
    destruct r as [p|]; [|by cbn].
    pose proof (Hsome p eq_refl) as Hp.
    unfold seed_attempt. rewrite Ha.
    destruct (arena s !! p) as [nd|] eqn:Hnd; [|by cbn].
    destruct (if (_ <? _)%N then _ else _) as [vb1| | |]; cbn [obind]; try done.
    destruct (candidate_loop _ _ _ _ _ _ _) as [t| | |] eqn:Hloop; try done.
    intros Hrun.
    apply (candidate_loop_sinv (arena s) (ElList_ s) queryObj NN entryQty
             (S k) (NN + S k)) in Hloop as [Hs1 Hlo1 Hhi1]; [|lia|].
    + apply IH with (k := S k) in Hrun.
      * rewrite Ha, He in Hrun. destruct Hrun as (H1 & H2 & H3).
        split; [done|]. lia.
      * by rewrite Ha, He.
      * done.
      * lia.
    + split; simpl.
      * intros e Hin. apply pq_push_elem in Hin as [->|Hin]; [|by apply Hs].
        split; [by exists nd|by left].
      * rewrite pq_push_length. lia.
      * rewrite pq_push_length. lia.
Qed.

(** X4.  Whenever the index-time traversal returns, on any graph: the result set
    has at least one entry per attempt and at most [NN] more, and every
    entry names an allocated node, published or a friend of an allocated
    node, together with the distance of that node's payload to the query
    object. *)
Theorem traversal_result_sound (fuel : nat) (queryObj : Object) (NN attempts : nat)
    (s s' : state) (rs : list Evaluated) (ev : list ptr) :
  kSearchElementsWithAttempts fuel queryObj NN attempts [] s = (Ok (rs, ev), s') ->
  attempts <= length rs /\ length rs <= NN + attempts /\
  forall e, e ∈ rs ->
    (exists nd, arena s !! getMSWNode e = Some nd /\
                getDistance e = IndexTimeDistance queryObj (data_ nd)) /\
    (getMSWNode e ∈ ElList_ s \/
     exists q nd, arena s !! q = Some nd /\ getMSWNode e ∈ friends nd).
Proof.
  unfold kSearchElementsWithAttempts, getEntryQtyLocked. unfold bind at 1.
  unfold bind.
  destruct (attempts_loop _ _ _ _ _ _ _ _ _ _ s) as [[[[vb' rs'] ev']| | |] s1] eqn:E;
    try discriminate.
  unfold ret. cbn [fst snd]. intros [= <- <- <-].
  apply (attempts_loop_sinv _ _ _ _ _ _ _ _ _ 0) in E as (H1 & H2 & H3).
  - split; [lia|]. split; [lia|]. exact H1.
  - intros e He. by apply elem_of_nil in He.
  - simpl. lia.
  - simpl. lia.
Qed.

(** ** The degree of an inserted node on any graph *)

(** X6.  Whenever [add] returns for a node [x] that is not published and is no
    other node's friend, on any graph (quiescent or not): [x] has been
    appended at the end of the graph with the old size as index, its
    friends list has at least [initIndexAttempts] and at most
    [NN + initIndexAttempts] entries, the friends it came with are gone,
    and each of its friends is another node that has [x] among its own
    friends. *)
Theorem add_degree_bounds (fuel : nat) (x : ptr) (s s' : state) :
  x ∉ ElList_ s ->
  (forall q nd, q <> x -> arena s !! q = Some nd -> x ∉ friends nd) ->
  add fuel x s = (Ok tt, s') ->
  exists fs,
    friends_at s' x = Some fs /\
    initIndexAttempts_ s <= length fs /\
    length fs <= NN_ s + initIndexAttempts_ s /\
    ElList_ s' = ElList_ s ++ [x] /\
    addIndex_at s' x = Some (N.of_nat (length (ElList_ s))) /\
    forall q, q ∈ fs ->
      q <> x /\ exists nd, arena s' !! q = Some nd /\ x ∈ friends nd.
Proof.
  intros Hx Hfresh. unfold add. intros H.
  apply bind_Ok_inv in H as ([] & s1 & H1 & H).
  apply bind_Ok_inv in H as (isEmpty & s1' & Hg & H).
  unfold gets in Hg. injection Hg as <- <-.
  case_bool_decide as Hne; [discriminate|].
  apply bind_Ok_inv in H as (nd & s1' & Hd & H).
  unfold deref in Hd. destruct (arena s1 !! x) as [nd'|] eqn:Hx1; [|discriminate].
  injection Hd as <- <-.
  apply bind_Ok_inv in H as (NN & s1' & Hg & H). injection Hg as <- <-.
  apply bind_Ok_inv in H as (att & s1' & Hg & H). injection Hg as <- <-.
  apply bind_Ok_inv in H as ([rs ev] & s2 & Hk & H).
  apply bind_Ok_inv in H as ([] & s3 & Hl & Hacs). cbn [fst] in Hl.
  (* the state after the friends of [x] were cleared *)
  unfold removeAllFriends in H1.
  destruct (arena s !! x) as [nd0|] eqn:Hx0; [|discriminate].
  injection H1 as <-. cbn [NN_ initIndexAttempts_ ElList_ arena set_arena] in *.
  apply lookup_lt_Some in Hx0 as Hlt0.
  rewrite list_lookup_insert_eq in Hx1 by done. injection Hx1 as <-.
  (* the result set *)
  pose proof (kSearch_same _ _ _ _ _ _ _ _ Hk) as (Ha2 & He2 & _).
  cbn [ElList_ arena set_arena] in Ha2, He2.
  unfold kSearchElementsWithAttempts, getEntryQtyLocked in Hk.
  unfold bind at 1 in Hk. unfold bind in Hk.
  destruct (attempts_loop _ _ _ _ _ _ _ _ _ _ _) as [[[[vb' rs'] ev']| | |] s2'] eqn:E;
    try discriminate.
  unfold ret in Hk. cbn [fst snd] in Hk. injection Hk as <- <- <-.
  apply (attempts_loop_sinv _ _ _ _ _ _ _ _ _ 0) in E as (Hsound & Hlo & Hhi);
    [|intros e He; by apply elem_of_nil in He|simpl; lia|simpl; lia].
  cbn [ElList_ arena set_arena] in Hsound.
  assert (forall e, e ∈ rs' -> getMSWNode e <> x /\
                                getMSWNode e < length (arena s2')) as Hrs.
  { intros e He. destruct (Hsound e He) as [(nde & Hnde & _) Hreach]. split.
    - destruct Hreach as [Hin|(q & ndq & Hq & Hin)]; [intros E; by rewrite E in Hin|].
      intros E. rewrite E in Hin. destruct (decide (q = x)) as [->|Hqx].
      + rewrite list_lookup_insert_eq in Hq by done. injection Hq as <-.
        simpl in Hin. by apply elem_of_nil in Hin.
      + rewrite list_lookup_insert_ne in Hq by done. by apply (Hfresh q ndq).
    - rewrite Ha2. by eapply lookup_lt_Some. }
  destruct (link_results_total x rs' s2' (set_friends [] nd0))
    as (s3' & Hl' & Hx3 & Hs3 & _); [|done|].
  { rewrite Ha2. by apply list_lookup_insert_eq. }
  rewrite Hl in Hl'. injection Hl' as <-. simpl in Hx3.
  destruct Hs3 as (_ & He3 & _). simpl in He3.
  pose proof (link_results_inv x rs' s2' s3 Hl) as [_ Hlinked].
  rewrite (addCriticalSection_Ok x s3 _ Hx3) in Hacs. injection Hacs as <-.
  apply lookup_lt_Some in Hx3 as Hlt3.
  exists (getMSWNode <$> rs').
  split. { unfold friends_at. simpl. by rewrite list_lookup_insert_eq. }
  rewrite length_fmap. split; [lia|]. split; [lia|].
  split; [simpl; congruence|]. split.
  { unfold addIndex_at. simpl. rewrite list_lookup_insert_eq by done.
    simpl. do 3 f_equal. congruence. }
  intros q Hq. apply list_elem_of_fmap in Hq as (e & -> & He).
  destruct (Hrs e He) as [Hne' _]. split; [done|].
  destruct (Hlinked e He) as [(ndr & Hr & Hin) _].
  exists ndr. split; [|done]. simpl. by rewrite list_lookup_insert_ne.
Qed.

(** ** The cost of the traversal on a quiescent graph *)

Section QuiescentCost.
Variable h : list (MSWNode Object).
Variable EL : list ptr.
Variable queryObj : Object.
Variable NN : nat.
Hypothesis Hq : quiescent h EL.

Local Abbreviation visit := (visit_neighbor IndexTimeDistance h queryObj NN (length EL)).
Local Abbreviation loop := (candidate_loop IndexTimeDistance h queryObj NN (length EL)).

(** Evaluations are paid for by bits of the bitset: [K] bounds the number
    of evaluations made plus the number of bits still unset. *)
Record cinv (K : nat) (t : trav) : Prop := mk_cinv {
  cinv_t : tinv EL t;
  cinv_cost : length (evaluated t) + unvisited (visitedBitset t) <= K;
  cinv_ev : forall p, p ∈ evaluated t -> p ∈ EL;
}.

Lemma visit_cinv (K : nat) (t t' : trav) (q : ptr) :
  cinv K t -> q ∈ EL -> visit t q = Ok t' -> cinv K t'.
Proof.
  intros [Ht Hc Hev] Hq' Hv.
  destruct (published_node h EL Hq q Hq') as (i & nd & _ & Hi & Hnd & Hidx & _).
  destruct (visit_published h EL queryObj NN t q i nd Hnd Hidx Hi
              (tinv_len _ t Ht) (tinv_rs _ t Ht))
    as [[_ Hv']|[Hb Hv']]; rewrite Hv' in Hv; injection Hv as <-; [done|].
  split; [by apply evaluate_tinv| |]; unfold evaluate; simpl.
  - rewrite length_app. simpl. pose proof (unvisited_set _ _ Hb). lia.
  - intros p Hp. apply elem_of_app in Hp as [Hp|Hp]; [by apply Hev|].
    by apply list_elem_of_singleton in Hp as ->.
Qed.

Lemma attempt_cost (p : ptr) (fuel K : nat)
    (vb : list bool) (rs : list Evaluated) (ev : list ptr) :
  p ∈ EL -> length vb = length EL ->
  (forall e, e ∈ rs -> getMSWNode e ∈ EL) ->
  (forall p', p' ∈ ev -> p' ∈ EL) ->
  length ev + unvisited vb <= K ->
  2 * length EL + 1 < fuel ->
  exists t0 t',
    seed_attempt IndexTimeDistance h queryObj (length EL) (Some p) vb rs ev = Ok t0 /\
    loop fuel t0 = Ok t' /\
    cinv (if bool_decide (unvisited vb = length vb) then K else S K) t'.
Proof.
  intros Hp Hlen Hrs Hev HK Hfuel.
  destruct (published_node h EL Hq p Hp) as (i & nd & Hel & Hi & Hnd & Hidx & _).
  eexists.
  rewrite (seed_attempt_published h EL queryObj p i nd vb rs ev Hnd Hidx Hi Hlen).
  set (t0 := mkTrav _ _ _ _ _).
  set (K' := if bool_decide (unvisited vb = length vb) then K else S K).
  assert (cinv K' t0) as H0.
  { split; [split|..]; simpl; try done.
    - by rewrite length_insert.
    - apply pq_push_nonempty.
    - intros e He. apply list_elem_of_singleton in He as ->. done.
    - intros e He. apply pq_push_elem in He as [->|He]; [done|by apply Hrs].
    - rewrite length_app. simpl. unfold K'. case_bool_decide as Hall.
      + assert (vb !! i = Some false) as Hb.
        { destruct (vb !! i) as [[]|] eqn:Hb; [|done|].
          - exfalso. clear -Hall Hb. revert i Hb Hall.
            induction vb as [|b v IH]; intros [|i] Hb Hall; simpl in *; try done.
            + injection Hb as ->. pose proof (unvisited_le v). lia.
            + destruct b; [pose proof (unvisited_le v); lia|].
              apply (IH i Hb). lia.
          - apply lookup_ge_None in Hb. lia. }
        pose proof (unvisited_set _ _ Hb). lia.
      + assert (unvisited (<[i:=true]> vb) <= unvisited vb); [|lia].
        destruct (vb !! i) as [[]|] eqn:Hb.
        * rewrite list_insert_id by done. lia.
        * pose proof (unvisited_set _ _ Hb). lia.
        * apply lookup_ge_None in Hb. lia.
    - intros p' Hp'. apply elem_of_app in Hp' as [Hp'|Hp']; [by apply Hev|].
      by apply list_elem_of_singleton in Hp' as ->. }
  destruct (loop_rule h EL queryObj NN Hq (cinv K')) with (fuel := fuel) (t := t0)
    as (t' & Hrun & Ht' & _).
  - apply cinv_t.
  - intros t e lb nd' t' Hc Htop Hlb Hcmp Hnd' Hfe.
    pose proof (cinv_t _ _ Hc) as Ht.
    assert (forall q, q ∈ friends nd' -> q ∈ EL) as Hfr.
    { destruct (candidateSet t) as [|e' rest] eqn:Ec; [done|]. injection Htop as ->.
      assert (getMSWNode e ∈ EL) as He by (apply (tinv_cand _ t Ht); rewrite Ec; left).
      destruct (published_node h EL Hq _ He) as (? & nd2 & _ & _ & Hnd2 & _ & Hfr).
      rewrite Hnd' in Hnd2. by injection Hnd2 as <-. }
    eapply (for_each_inv visit (cinv K')); [| |exact Hfe].
    + intros s0 x s0' Hs0 Hx Hv. apply (visit_cinv K' s0 s0' x); auto.
    + destruct Hc as [[H1 H2 H3 H4 H5] Hc Hev']. split; [split|..]; simpl; try done.
      intros e0 He0. apply H4. by apply elem_of_pop.
  - done.
  - unfold measure. simpl.
    pose proof (unvisited_le (<[i:=true]> vb)) as Hu.
    rewrite length_insert in Hu. lia.
  - by exists t'.
Qed.

End QuiescentCost.

Lemma attempts_cost (fuel : nat) (queryObj : Object) (NN : nat) :
  forall (n : nat) (vb : list bool) (rs : list Evaluated) (ev : list ptr)
         (s : state) (K : nat),
    quiescent (arena s) (ElList_ s) -> ElList_ s <> [] ->
    length vb = length (ElList_ s) ->
    (forall e, e ∈ rs -> getMSWNode e ∈ ElList_ s) ->
    (forall p, p ∈ ev -> p ∈ ElList_ s) ->
    length ev + unvisited vb <= K ->
    2 * length (ElList_ s) + 1 < fuel ->
    exists vb' rs' ev' s',
      attempts_loop IndexTimeDistance rand_src fuel queryObj NN
        (length (ElList_ s)) n vb rs ev s = (Ok (vb', rs', ev'), s') /\
      same_index s s' /\ rand_calls s' = rand_calls s + n /\
      (forall e, e ∈ rs' -> getMSWNode e ∈ ElList_ s) /\
      (forall p, p ∈ ev' -> p ∈ ElList_ s) /\
      length ev' <=
        (if bool_decide (unvisited vb = length vb) then K + n - 1 else K + n).
Proof.
  induction n as [|n IH]; intros vb rs ev s K Hq Hne Hlen Hrs Hev HK Hfuel.
  - exists vb, rs, ev, s. split; [done|]. split; [apply same_index_refl|].
    split; [lia|]. split; [done|]. split; [done|].
    assert (length (ElList_ s) <> 0) by (by destruct (ElList_ s)).
    case_bool_decide; lia.
  - cbn [attempts_loop]. unfold getRandomEntryPointLocked.
    destruct (getRandomEntryPoint_nonempty s Hne) as (p & Hp & Hrand).
    erewrite bind_Ok by exact Hrand. cbn [arena set_rand_calls].
    destruct (attempt_cost (arena s) (ElList_ s) queryObj NN Hq p fuel K vb rs ev)
      as (t0 & t' & Hseed & Hloop & [Ht' Hc' Hev']); try done.
    rewrite Hseed. cbn [obind]. rewrite Hloop.
    set (K' := if bool_decide (unvisited vb = length vb) then K else S K) in *.
    destruct (IH (visitedBitset t') (resultSet t') (evaluated t')
                 (set_rand_calls (S (rand_calls s)) s) K')
      as (vb' & rs' & ev' & s' & Hrun & Hsame & Hrand' & Hrs' & Hev'' & Hbound);
      try done.
    + apply (tinv_len _ _ Ht').
    + apply (tinv_res _ _ Ht').
    + exists vb', rs', ev', s'. split; [exact Hrun|].
      split; [eapply same_index_trans; [apply same_index_rand|exact Hsame]|].
      split; [simpl in Hrand'; lia|]. split; [done|]. split; [done|].
      unfold K' in Hbound. repeat case_bool_decide; lia.
Qed.

(** X5.  On a quiescent graph with at least one published node the index-time
    traversal returns, for every [NN] and every number of attempts, within
    [2 N0 + 2] iterations per attempt.  It draws one random number per
    attempt, leaves the index as it was, evaluates published nodes only, and
    computes at most [N0 + attempts - 1] distances: a node is evaluated a
    second time only as the entry point of a later attempt. *)
Theorem traversal_cost_quiescent (fuel : nat) (queryObj : Object)
    (NN attempts : nat) (s : state) :
  quiescent (arena s) (ElList_ s) ->
  ElList_ s <> [] ->
  2 * length (ElList_ s) + 1 < fuel ->
  exists rs ev s',
    kSearchElementsWithAttempts fuel queryObj NN attempts [] s = (Ok (rs, ev), s') /\
    same_index s s' /\
    rand_calls s' = rand_calls s + attempts /\
    (forall e, e ∈ rs -> getMSWNode e ∈ ElList_ s) /\
    (forall p, p ∈ ev -> p ∈ ElList_ s) /\
    length ev <= length (ElList_ s) + attempts - 1.
Proof.
  intros Hq Hne Hfuel.
  unfold kSearchElementsWithAttempts, getEntryQtyLocked. unfold bind at 1.
  destruct (attempts_cost fuel queryObj NN attempts
              (replicate (length (ElList_ s)) false) [] [] s (length (ElList_ s)))
    as (vb' & rs' & ev' & s' & Hrun & Hsame & Hrand & Hrs & Hev & Hbound); try done.
  - by rewrite length_replicate.
  - intros e He. by apply elem_of_nil in He.
  - intros p Hp. by apply elem_of_nil in Hp.
  - simpl. by rewrite unvisited_replicate.
  - unfold bind. rewrite Hrun. unfold ret. cbn [fst snd].
    exists rs', ev', s'. split; [done|]. split; [done|]. split; [done|].
    split; [done|]. split; [done|].
    rewrite unvisited_replicate, length_replicate in Hbound.
    by rewrite bool_decide_eq_true_2 in Hbound.
Qed.

(** ** What a query reports *)

Section AnyGraphQuery.
Variable h : list (MSWNode Object).
Variable NN : nat.

(** A visit that returns either skipped the neighbour or reported it. *)
Lemma query_neighbor_cases (t t' : qtrav Object) (it : ptr) :
  query_neighbor h NN t it = Ok t' ->
  t' = t \/
  exists nd, h !! it = Some nd /\ addIndex_ nd <> size_t_max /\
    q_query t' =
      CheckAndAddToResult (DistanceObjLeft (q_query t) (data_ nd)) (data_ nd) (q_query t).
Proof.
  unfold query_neighbor. destruct (h !! it) as [nd|]; [|discriminate].
  case_bool_decide as Hs; [discriminate|].
  destruct (bitset_get _ _) as [[]| | |]; simpl; try discriminate.
  { intros [= <-]. by left. }
  destruct (bitset_set _ _) as [vb| | |]; simpl; try discriminate.
  intros [= <-]. right. by exists nd.
Qed.

Lemma query_loop_preserves (P : qtrav Object -> Prop) :
  (forall vb cdq c c' qq, P (mkQTrav vb cdq c qq) -> P (mkQTrav vb cdq c' qq)) ->
  (forall t it t', P t -> (exists q nd, h !! q = Some nd /\ it ∈ friends nd) ->
                   query_neighbor h NN t it = Ok t' -> P t') ->
  forall fuel t t', P t -> query_loop h NN fuel t = Ok t' -> P t'.
Proof.
  intros Hpop Hstep. induction fuel as [|fuel IH]; intros t t' Ht; [discriminate|].
  simpl. destruct (pq_top (q_candidateQueue t)) as [e|]; [|by intros [= <-]].
  destruct (pq_top (q_closestDistQueue t)) as [lb|]; [|discriminate].
  destruct (lb <? getDistance e)%Z; [by intros [= <-]|].
  destruct (h !! getMSWNode e) as [nd|] eqn:Hnd; [|discriminate].
  destruct (for_each _ _ _) as [t1| | |] eqn:Hfe; simpl; try discriminate.
  apply IH. eapply (for_each_inv (query_neighbor h NN) P); [| |exact Hfe].
  - intros s0 x s0' Hs0 Hx Hv. eapply Hstep; [done| |done].
    by exists (getMSWNode e), nd.
  - destruct t as [vb cdq c qq]. simpl. by apply (Hpop vb cdq c).
Qed.

(** The reports [query] has received beyond those of [query0] are payloads
    of allocated nodes that are some node's friend and carry an index, each
    with its distance to the query. *)
Definition reports_sound (query0 query : KNNQuery Object) : Prop :=
  DistanceObjLeft query = DistanceObjLeft query0 /\
  exists new, reports query = reports query0 ++ new /\
    forall d o, (d, o) ∈ new ->
      d = DistanceObjLeft query0 o /\
      exists p nd, h !! p = Some nd /\ data_ nd = o /\
                   addIndex_ nd <> size_t_max /\
                   exists q ndq, h !! q = Some ndq /\ p ∈ friends ndq.

Lemma reports_sound_refl (query : KNNQuery Object) : reports_sound query query.
Proof.
  split; [done|]. exists []. split; [by rewrite app_nil_r|].
  intros d o Hin. by apply elem_of_nil in Hin.
Qed.

Lemma query_loop_reports (query0 : KNNQuery Object) (fuel : nat) (t t' : qtrav Object) :
  reports_sound query0 (q_query t) ->
  query_loop h NN fuel t = Ok t' ->
  reports_sound query0 (q_query t').
Proof.
  apply (query_loop_preserves (fun t => reports_sound query0 (q_query t))).
  - done.
  - intros t0 it t0' [HD (new & Hnew & Hall)] Hfr Hv.
    destruct (query_neighbor_cases _ _ _ Hv) as [->|(nd & Hnd & Hidx & ->)].
    { split; [done|]. by exists new. }
    split; [done|]. simpl. exists (new ++ [(DistanceObjLeft (q_query t0) (data_ nd), data_ nd)]).
    split; [by rewrite Hnew, app_assoc|].
    intros d o Hin. apply elem_of_app in Hin as [Hin|Hin]; [by apply Hall|].
    apply list_elem_of_singleton in Hin. injection Hin as -> ->.
    split; [by rewrite HD|]. by exists it, nd.
Qed.

End AnyGraphQuery.

Lemma query_attempts_reports (fuel : nat) (query0 : KNNQuery Object) :
  forall (n : nat) vb query (s : state) vb' query' s',
    reports_sound (arena s) query0 query ->
    query_attempts rand_src fuel n vb query s = (Ok (vb', query'), s') ->
    reports_sound (arena s) query0 query' /\ same_index s s'.
Proof.
  induction n as [|n IH]; intros vb query s vb' query' s' Hs; cbn [query_attempts].
  - intros [= <- <- <-]. split; [done|apply same_index_refl].
  - destruct (getRandomEntryPoint_Ok s) as (r & s1 & Hr & Hsame & _ & _).
    erewrite bind_Ok by exact Hr.
    pose proof Hsame as (Ha & _). rewrite Ha.
    destruct (query_seed (arena s) r vb query) as [t0| | |] eqn:Hseed; cbn [obind]; try done.
    destruct (query_loop _ _ _ _) as [t| | |] eqn:Hloop; try done.
    intros Hrun.
    assert (q_query t0 = query) as Hq0.
    { unfold query_seed in Hseed. destruct r as [p|]; [|discriminate].
      destruct (arena s !! p); [|discriminate].
      case_bool_decide; [discriminate|].
      destruct (bitset_set _ _); simpl in Hseed; try discriminate.
      by injection Hseed as <-. }
    apply (query_loop_reports _ _ query0) in Hloop; [|by rewrite Hq0].
    apply IH in Hrun; [|by rewrite Ha].
    rewrite Ha in Hrun. destruct Hrun as [H1 H2]. split; [done|].
    by eapply same_index_trans.
Qed.

(** X8.  Whenever a k-NN query returns, on any graph: the index is as before (at
    most the random numbers drawn differ), the query keeps the reports it
    came with, and every report added is a payload of an allocated node
    with a valid index that is some node's friend, together with the
    distance of that payload to the query. *)
Theorem Search_reports_sound (fuel : nat) (query query' : KNNQuery Object)
    (s s' : state) :
  Search fuel query s = (Ok query', s') ->
  same_index s s' /\
  DistanceObjLeft query' = DistanceObjLeft query /\
  exists new, reports query' = reports query ++ new /\
    forall d o, (d, o) ∈ new ->
      d = DistanceObjLeft query o /\
      exists p nd, arena s !! p = Some nd /\ data_ nd = o /\
                   addIndex_ nd <> size_t_max /\
                   exists q ndq, arena s !! q = Some ndq /\ p ∈ friends ndq.
Proof.
  unfold Search, gets. unfold bind at 1. unfold bind at 1. unfold bind.
  destruct (query_attempts _ _ _ _ _ s) as [[[vb' q']| | |] s1] eqn:E; try discriminate.
  unfold ret. cbn [snd]. intros [= <- <-].
  apply (query_attempts_reports fuel query) in E as [[HD Hnew] Hsame];
    [|apply reports_sound_refl].
  done.
Qed.

(** ** Queries on a quiescent index: how much is reported *)

Lemma unvisited_full_lookup (v : list bool) : forall i,
  unvisited v = length v -> i < length v -> v !! i = Some false.
Proof.
  induction v as [|b v IH]; intros i Hall Hi; simpl in *; [lia|].
  pose proof (unvisited_le v). destruct b; [lia|].
  destruct i as [|i]; [done|]. simpl. apply IH; lia.
Qed.

Lemma unvisited_insert_le (v : list bool) (i : nat) :
  unvisited (<[i := true]> v) <= unvisited v.
Proof.
  destruct (v !! i) as [[]|] eqn:Hb.
  - by rewrite list_insert_id.
  - pose proof (unvisited_set _ _ Hb). lia.
  - apply lookup_ge_None in Hb. by rewrite list_insert_ge.
Qed.

Section QuiescentReports.
Variable h : list (MSWNode Object).
Variable EL : list ptr.
Variable NN : nat.
Hypothesis Hq : quiescent h EL.
Hypothesis Hfit : (N.of_nat (length EL) <= size_t_max)%N.

(** Reports are paid for by bits of the bitset. *)
Record rinv (R : nat) (t : qtrav Object) : Prop := mk_rinv {
  rinv_q : qinv EL t;
  rinv_count : length (reports (q_query t)) + unvisited (q_visitedBitset t) <= R;
}.

Lemma query_neighbor_rinv (R : nat) (t : qtrav Object) (q : ptr) :
  rinv R t -> q ∈ EL ->
  exists t', query_neighbor h NN t q = Ok t' /\ rinv R t' /\
             qmeasure t' <= qmeasure t.
Proof.
  intros [[Hlen Hcdq Hcand] Hcount] Hq'.
  destruct (published_node h EL Hq q Hq') as (i & nd & _ & Hi & Hnd & Hidx & _).
  unfold query_neighbor. rewrite Hnd, Hidx.
  rewrite bool_decide_eq_false_2 by lia.
  unfold bitset_get, bitset_set. rewrite Nat2N.id.
  destruct (q_visitedBitset t !! i) as [[]|] eqn:Hb; simpl.
  - exists t. done.
  - rewrite bool_decide_eq_true_2 by lia. simpl. eexists. split; [done|].
    pose proof (unvisited_set _ _ Hb) as Hu.
    split; [split; [split|]|]; simpl.
    + by rewrite length_insert.
    + by apply pop_after_push_nonempty.
    + intros e He. apply pq_push_elem in He as [->|He]; [done|by apply Hcand].
    + rewrite length_app. simpl. lia.
    + unfold qmeasure. simpl. rewrite pq_push_length. lia.
  - apply lookup_ge_None in Hb. lia.
Qed.

Lemma for_each_query_rinv (R : nat) (qs : list ptr) : forall t,
  rinv R t -> (forall q, q ∈ qs -> q ∈ EL) ->
  exists t', for_each (query_neighbor h NN) qs t = Ok t' /\ rinv R t' /\
             qmeasure t' <= qmeasure t.
Proof.
  induction qs as [|q qs IH]; intros t Ht Hqs; simpl.
  - exists t. done.
  - destruct (query_neighbor_rinv R t q Ht) as (t1 & -> & Ht1 & Hm1); [apply Hqs; left|].
    simpl. destruct (IH t1 Ht1) as (t2 & -> & Ht2 & Hm2).
    + intros q' Hq'. apply Hqs. by right.
    + exists t2. split; [done|]. split; [done|lia].
Qed.

Lemma query_loop_rinv (R fuel : nat) : forall t,
  rinv R t -> qmeasure t < fuel ->
  exists t', query_loop h NN fuel t = Ok t' /\ rinv R t'.
Proof.
  induction fuel as [|fuel IH]; intros t Ht Hm; [lia|]. simpl.
  destruct (q_candidateQueue t) as [|e rest] eqn:Ec; simpl.
  { by exists t. }
  destruct (q_closestDistQueue t) as [|lb cdq] eqn:Ed; simpl.
  { by destruct (qinv_cdq _ t (rinv_q _ _ Ht)). }
  destruct (lb <? getDistance e)%Z; [by exists t|].
  assert (getMSWNode e ∈ EL) as Hel.
  { apply (qinv_cand _ t (rinv_q _ _ Ht)). rewrite Ec. left. }
  destruct (published_node h EL Hq _ Hel) as (i & nd & _ & _ & Hnd & _ & Hfr).
  rewrite Hnd.
  destruct (for_each_query_rinv R (friends nd)
              (mkQTrav (q_visitedBitset t) (lb :: cdq) rest (q_query t)))
    as (t1 & Hfe & Ht1 & Hm1); [|done|].
  { destruct Ht as [[H1 H2 H3] H4]. split; [split|]; simpl; try done.
    intros e' He'. apply H3. rewrite Ec. by right. }
  rewrite Hfe. simpl. apply IH; [done|].
  unfold qmeasure in *. simpl in Hm1. rewrite Ec in Hm. simpl in Hm. lia.
Qed.

Lemma query_seed_rinv (R : nat) (p : ptr) (vb : list bool) (query : KNNQuery Object) :
  p ∈ EL -> length vb = length EL ->
  length (reports query) + unvisited vb <= R ->
  exists t0, query_seed h (Some p) vb query = Ok t0 /\
             qmeasure t0 <= 2 * length EL + 1 /\
             rinv R t0 /\ (unvisited vb = length vb -> rinv (R - 1) t0).
Proof.
  intros Hp Hlen HR.
  destruct (published_node h EL Hq p Hp) as (i & nd & _ & Hi & Hnd & Hidx & _).
  unfold query_seed. rewrite Hnd, Hidx.
  rewrite bool_decide_eq_false_2 by lia.
  unfold bitset_set. rewrite Nat2N.id.
  rewrite bool_decide_eq_true_2 by lia. simpl. eexists. split; [done|].
  assert (qinv EL (mkQTrav (<[i:=true]> vb) [DistanceObjLeft query (data_ nd)]
                     [mkEv (DistanceObjLeft query (data_ nd)) p] query)) as Hqi.
  { split; simpl; try done.
    - by rewrite length_insert.
    - intros e He. apply list_elem_of_singleton in He as ->. done. }
  pose proof (unvisited_insert_le vb i) as Hle.
  split; [|split; [split; [done|simpl; lia]|]].
  - unfold qmeasure. simpl.
    pose proof (unvisited_le (<[i:=true]> vb)) as Hu.
    rewrite length_insert in Hu. lia.
  - intros Hall. split; [done|]. simpl.
    pose proof (unvisited_set _ _ (unvisited_full_lookup vb i Hall ltac:(lia))). lia.
Qed.

End QuiescentReports.

Lemma query_attempts_count (fuel : nat) :
  forall (n : nat) (vb : list bool) (query : KNNQuery Object) (s : state) (R : nat),
    quiescent (arena s) (ElList_ s) ->
    (N.of_nat (length (ElList_ s)) <= size_t_max)%N ->
    ElList_ s <> [] -> length vb = length (ElList_ s) ->
    length (reports query) + unvisited vb <= R ->
    2 * length (ElList_ s) + 1 < fuel ->
    exists vb' query' s',
      query_attempts rand_src fuel n vb query s = (Ok (vb', query'), s') /\
      same_index s s' /\ rand_calls s' = rand_calls s + n /\
      length (reports query') <=
        (if bool_decide (unvisited vb = length vb /\ 0 < n) then R - 1 else R).
Proof.
  induction n as [|n IH]; intros vb query s R Hq Hfit Hne Hlen HR Hfuel.
  - exists vb, query, s. split; [done|]. split; [apply same_index_refl|].
    split; [lia|]. rewrite bool_decide_eq_false_2 by lia. lia.
  - cbn [query_attempts].
    destruct (getRandomEntryPoint_nonempty s Hne) as (p & Hp & Hrand).
    erewrite bind_Ok by exact Hrand. cbn [arena NN_ set_rand_calls].
    destruct (query_seed_rinv (arena s) (ElList_ s) Hq Hfit R p vb query Hp Hlen HR)
      as (t0 & -> & Hm0 & Ht0 & Hfirst).
    cbn [obind].
    set (R' := if bool_decide (unvisited vb = length vb) then R - 1 else R).
    assert (rinv (ElList_ s) R' t0) as Ht0'.
    { unfold R'. case_bool_decide; [by apply Hfirst|done]. }
    destruct (query_loop_rinv (arena s) (ElList_ s) (NN_ s) Hq Hfit R' fuel t0 Ht0')
      as (t' & -> & [Hqi' Hc']); [lia|].
    destruct (IH (q_visitedBitset t') (q_query t')
                 (set_rand_calls (S (rand_calls s)) s) R')
      as (vb' & query' & s' & Hrun & Hsame & Hrand' & Hbound); try done.
    + apply (qinv_len _ _ Hqi').
    + exists vb', query', s'. split; [done|].
      split; [eapply same_index_trans; [apply same_index_rand|exact Hsame]|].
      split; [simpl in Hrand'; lia|].
      unfold R' in *. repeat case_bool_decide; try lia.
      all: exfalso; tauto.
Qed.

(** X9.  Setting the query-time parameter and then querying a quiescent index
    with at least one published node: the query returns; the value set, or
    the former one when none is given, is the number of attempts made, one
    random number each; the graph is untouched; and at most [N - 1] reports
    are added, one per node at most, since an entry point is never reported
    as such. *)
Theorem Search_after_set_params (fuel : nat) (param : option nat)
    (query : KNNQuery Object) (s : state) :
  quiescent (arena s) (ElList_ s) ->
  (N.of_nat (length (ElList_ s)) <= size_t_max)%N ->
  ElList_ s <> [] ->
  2 * length (ElList_ s) + 1 < fuel ->
  exists s1 query' s',
    SetQueryTimeParamsInternal param s = (Ok tt, s1) /\
    Search fuel query s1 = (Ok query', s') /\
    initSearchAttempts_ s' = GetParamOptional param (initSearchAttempts_ s) /\
    rand_calls s' = rand_calls s + GetParamOptional param (initSearchAttempts_ s) /\
    arena s' = arena s /\ ElList_ s' = ElList_ s /\ NN_ s' = NN_ s /\
    initIndexAttempts_ s' = initIndexAttempts_ s /\
    length (reports query') + 1 <= length (reports query) + length (ElList_ s) /\
    (GetParamOptional param (initSearchAttempts_ s) = 0 -> query' = query).
Proof.
  intros Hq Hfit Hne Hfuel.
  set (a := GetParamOptional param (initSearchAttempts_ s)).
  set (s1 := set_initSearchAttempts a s).
  exists s1. unfold SetQueryTimeParamsInternal. fold a. fold s1.
  unfold Search, gets. unfold bind at 1. unfold bind at 1.
  cbn [ElList_ initSearchAttempts_ s1 set_initSearchAttempts].
  destruct (query_attempts_count fuel a (replicate (length (ElList_ s)) false) query s1
              (length (reports query) + length (ElList_ s)))
    as (vb' & query' & s' & Hrun & Hsame & Hrand & Hbound); try done.
  { by rewrite length_replicate. }
  { simpl. rewrite unvisited_replicate. lia. }
  cbn [ElList_ s1 set_initSearchAttempts] in Hrun.
  assert (length (ElList_ s) <> 0) as Hlen0 by (by destruct (ElList_ s)).
  exists query', s'. split; [done|]. unfold bind. rewrite Hrun. unfold ret. cbn [snd].
  split; [done|].
  destruct Hsame as (Ha & He & HN & HA & HS & _). simpl in Ha, He, HN, HA, HS.
  repeat (split; [done|]). split.
  - rewrite unvisited_replicate, length_replicate in Hbound.
    case_bool_decide as Hc; [lia|].
    assert (a = 0) as Ha0 by (destruct a; [done|exfalso; apply Hc; split; [done|lia]]).
    rewrite Ha0 in Hrun. cbn [query_attempts] in Hrun. injection Hrun as _ <- _. lia.
  - intros Ha0. rewrite Ha0 in Hrun. cbn [query_attempts] in Hrun.
    by injection Hrun as _ <- _.
Qed.

(** ** Builds: undirected edges and payloads (lines 100-163, 325-356) *)

(** Every edge has its reverse, and no node is its own friend. *)
Definition undirected (h : list (MSWNode Object)) : Prop :=
  forall p q ndp, h !! p = Some ndp -> q ∈ friends ndp ->
    q <> p /\ exists ndq, h !! q = Some ndq /\ p ∈ friends ndq.

(** Node [p] holds the data object [o]. *)
Definition carries (h : list (MSWNode Object)) (p : ptr) (o : Object) : Prop :=
  exists nd, h !! p = Some nd /\ data_ nd = o.

(** What a build keeps: [payload] lists the objects of the published nodes
    in the order of their indices. *)
Record built (s : state) (payload : list Object) : Prop := mk_built {
  built_q : quiescent (arena s) (ElList_ s);
  built_c : connected (arena s) (ElList_ s);
  built_u : undirected (arena s);
  built_d : Forall2 (carries (arena s)) (ElList_ s) payload;
}.

Lemma Forall2_impl_elem {A B} (P Q : A -> B -> Prop) (l : list A) (k : list B) :
  Forall2 P l k -> (forall x y, x ∈ l -> P x y -> Q x y) -> Forall2 Q l k.
Proof.
  induction 1 as [|x y l k Hxy _ IH]; intros Himp; constructor.
  - apply Himp; [left|done].
  - apply IH. intros x' y' Hx'. apply Himp. by right.
Qed.

Lemma link_results_precise (x : ptr) : forall (rs : list Evaluated) (s s' : state),
  link_results rs x s = (Ok tt, s') ->
  forall p nd', p <> x -> arena s' !! p = Some nd' ->
    exists nd, arena s !! p = Some nd /\
      forall q, q ∈ friends nd' ->
        q ∈ friends nd \/ (q = x /\ p ∈ getMSWNode <$> rs).
Proof.
  induction rs as [|e rs IH]; intros s s'; cbn [link_results].
  - intros [= <-] p nd' _ H. exists nd'. split; [done|]. auto.
  - intros H p nd' Hp Hnd'. apply bind_Ok_inv in H as ([] & s1 & H1 & H2).
    destruct (IH s1 s' H2 p nd' Hp Hnd') as (nd1 & Hnd1 & F1).
    unfold link in H1. apply bind_Ok_inv in H1 as ([] & s0 & Ha & Hb).
    destruct (addFriend_others _ _ _ _ Hb p nd1 Hnd1) as (nd0 & Hnd0 & F0).
    destruct (addFriend_others _ _ _ _ Ha p nd0 Hnd0) as (nd & Hnd & F).
    exists nd. split; [done|]. intros q Hq.
    destruct (F1 q Hq) as [Hq1|[-> Hin]].
    2:{ right. split; [done|]. rewrite fmap_cons. by right. }
    destruct (F0 q Hq1) as [Hq0|[Hp0 _]]; [|done].
    destruct (F q Hq0) as [?|[-> ->]]; [by left|].
    right. split; [done|]. rewrite fmap_cons. left.
Qed.

Lemma built_new (s : state) (payload : list Object) (obj : Object) :
  built s payload ->
  built (set_arena (arena s ++ [mkNode obj size_t_max []]) s) payload.
Proof.
  intros [Hq Hc Hu Hd]. split; simpl.
  - by apply quiescent_app.
  - intros p q Hp Hq'.
    apply (connected_mono (arena s) _ (ElList_ s) Hq); [|done|by apply Hc].
    intros p0 nd0 _ Hnd0. exists nd0. split; [|done]. by apply lookup_app_l_Some.
  - intros p q ndp Hp Hin.
    destruct (decide (p < length (arena s))) as [Hlt|Hge].
    + rewrite lookup_app_l in Hp by done.
      destruct (Hu p q ndp Hp Hin) as (Hne & ndq & Hndq & Hback).
      split; [done|]. exists ndq. split; [|done]. by apply lookup_app_l_Some.
    + rewrite lookup_app_r in Hp by lia.
      destruct (p - length (arena s)) as [|k]; [|done].
      injection Hp as <-. by apply elem_of_nil in Hin.
  - eapply Forall2_impl; [exact Hd|].
    intros p o (nd & Hnd & Hdata). exists nd. split; [|done].
    by apply lookup_app_l_Some.
Qed.

Lemma add_built (fuel : nat) (x : ptr) (s : state) (nd : MSWNode Object)
    (payload : list Object) :
  built s payload ->
  ElList_ s <> [] ->
  x ∉ ElList_ s ->
  arena s !! x = Some nd ->
  friends nd = [] ->
  1 <= NN_ s ->
  1 <= initIndexAttempts_ s ->
  2 * length (ElList_ s) + 1 < fuel ->
  exists s',
    add fuel x s = (Ok tt, s') /\
    built s' (payload ++ [data_ nd]) /\
    ElList_ s' = ElList_ s ++ [x] /\
    NN_ s' = NN_ s /\ initIndexAttempts_ s' = initIndexAttempts_ s.
Proof.
  intros [Hq Hc Hu Hd] Hne Hx Hnd Hfr HNN Hatt Hfuel.
  destruct (add_preserves fuel x s) as (s' & Hadd' & Hq' & Hc' & He' & HN' & HA');
    try done.
  destruct (add_quiescent fuel x s nd)
    as (rs & s2 & s3 & Ha2 & _ & Hrs & _ & _ & _ & Hl & _ & Hx3 & Hadd); try done.
  rewrite Hadd in Hadd'. injection Hadd' as Hs'.
  exists s'. split; [by rewrite Hadd, Hs'|].
  split; [|done].
  pose proof (link_results_inv x rs s2 s3 Hl) as [[_ Hgrow] Hlinked].
  pose proof (link_results_precise x rs s2 s3 Hl) as Hprec.
  apply lookup_lt_Some in Hx3 as Hlt3.
  set (nx := set_addIndex (N.of_nat (length (ElList_ s3)))
               (set_friends (getMSWNode <$> rs) nd)) in *.
  assert (arena s' = <[x := nx]> (arena s3)) as Har by (by rewrite <- Hs').
  assert (arena s' !! x = Some nx) as Hx'.
  { rewrite Har. by apply list_lookup_insert_eq. }
  assert (forall p, p ∈ getMSWNode <$> rs -> p <> x /\ p ∈ ElList_ s) as Hrs'.
  { intros p Hp. apply list_elem_of_fmap in Hp as (e & -> & He).
    split; [|by apply Hrs]. intros Heq. apply Hx. rewrite <- Heq. by apply Hrs. }
  (* nodes other than [x], forwards and backwards *)
  assert (forall p ndp, p <> x -> arena s !! p = Some ndp ->
            exists nd3, arena s' !! p = Some nd3 /\ data_ nd3 = data_ ndp /\
              forall q, q ∈ friends ndp -> q ∈ friends nd3) as Hfwd.
  { intros p ndp Hpx Hp.
    assert (arena s2 !! p = Some ndp) as Hp2.
    { rewrite Ha2. by rewrite list_lookup_insert_ne. }
    destruct (Hgrow p ndp Hp2) as (nd3 & Hnd3 & Hdata & _ & Hsub).
    exists nd3. split; [|done]. rewrite Har. by rewrite list_lookup_insert_ne. }
  assert (forall p nd3, p <> x -> arena s' !! p = Some nd3 ->
            exists ndp, arena s !! p = Some ndp /\
              forall q, q ∈ friends nd3 ->
                q ∈ friends ndp \/ (q = x /\ p ∈ getMSWNode <$> rs)) as Hbwd.
  { intros p nd3 Hpx Hp. rewrite Har in Hp.
    rewrite list_lookup_insert_ne in Hp by done.
    destruct (Hprec p nd3 Hpx Hp) as (nd2 & Hnd2 & F).
    exists nd2. split; [|done]. rewrite Ha2 in Hnd2.
    by rewrite list_lookup_insert_ne in Hnd2. }
  split; [done|done| |].
  - (* edges both ways *)
    intros p q ndp Hp Hin.
    destruct (decide (p = x)) as [->|Hpx].
    + rewrite Hx' in Hp. injection Hp as <-. simpl in Hin.
      destruct (Hrs' q Hin) as [Hqx _]. split; [done|].
      apply list_elem_of_fmap in Hin as (e & -> & He).
      destruct (Hlinked e He) as [(ndr & Hr & Hrx) _].
      exists ndr. split; [|done]. rewrite Har. by rewrite list_lookup_insert_ne.
    + destruct (Hbwd p ndp Hpx Hp) as (nd0 & Hnd0 & F).
      destruct (F q Hin) as [Hold|[-> Hnew]].
      * destruct (Hu p q nd0 Hnd0 Hold) as (Hne' & ndq & Hndq & Hback).
        split; [done|].
        assert (q <> x) as Hqx.
        { intros ->. rewrite Hnd in Hndq. injection Hndq as <-.
          rewrite Hfr in Hback. by apply elem_of_nil in Hback. }
        destruct (Hfwd q ndq Hqx Hndq) as (nd3 & Hnd3 & _ & Hsub).
        exists nd3. split; [done|]. by apply Hsub.
      * split; [done|]. exists nx. split; [done|]. done.
  - (* payloads *)
    rewrite He'. apply Forall2_app.
    + eapply Forall2_impl_elem; [exact Hd|].
      intros p o Hp (ndp & Hndp & Hdata).
      assert (p <> x) as Hpx by (intros ->; done).
      destruct (Hfwd p ndp Hpx Hndp) as (nd3 & Hnd3 & Hd3 & _).
      exists nd3. split; [done|congruence].
    + constructor; [|constructor]. exists nx. split; [done|]. by destruct nd.
Qed.

(** A fresh node is allocated and inserted. *)
Lemma new_and_add_built (fuel : nat) (obj : Object) (s : state)
    (payload : list Object) :
  built s payload ->
  ElList_ s <> [] ->
  1 <= NN_ s ->
  1 <= initIndexAttempts_ s ->
  2 * length (ElList_ s) + 1 < fuel ->
  exists s',
    add fuel (length (arena s))
      (set_arena (arena s ++ [mkNode obj size_t_max []]) s) = (Ok tt, s') /\
    built s' (payload ++ [obj]) /\
    ElList_ s' = ElList_ s ++ [length (arena s)] /\
    NN_ s' = NN_ s /\ initIndexAttempts_ s' = initIndexAttempts_ s.
Proof.
  intros Hb Hne HNN Hatt Hfuel.
  apply (add_built fuel (length (arena s))
           (set_arena (arena s ++ [mkNode obj size_t_max []]) s)
           (mkNode obj size_t_max []) payload); try done.
  - by apply built_new.
  - simpl. intros Hin.
    destruct (published_node _ _ (built_q _ _ Hb) _ Hin) as (? & ? & _ & _ & Hv & _).
    apply lookup_lt_Some in Hv. lia.
  - simpl. rewrite lookup_app_r by lia. by rewrite Nat.sub_diag.
Qed.

Lemma add_all_built (fuel : nat) :
  forall (data : list Object) (s : state) (payload : list Object),
    built s payload ->
    ElList_ s <> [] ->
    1 <= NN_ s ->
    1 <= initIndexAttempts_ s ->
    2 * (length (ElList_ s) + length data) + 1 < fuel ->
    exists s',
      add_all IndexTimeDistance rand_src fuel data s = (Ok tt, s') /\
      built s' (payload ++ data).
Proof.
  induction data as [|obj data IH]; intros s payload Hb Hne HNN Hatt Hfuel.
  - exists s. simpl. split; [done|]. by rewrite app_nil_r.
  - cbn [add_all]. unfold new_MSWNode. unfold bind at 1.
    destruct (new_and_add_built fuel obj s payload)
      as (s1 & Hadd & Hb1 & He1 & HN1 & HA1); try done.
    { simpl in Hfuel. lia. }
    erewrite bind_Ok by exact Hadd.
    destruct (IH s1 (payload ++ [obj])) as (s' & Hrun & Hb'); try done.
    + rewrite He1. by destruct (ElList_ s).
    + by rewrite HN1.
    + by rewrite HA1.
    + rewrite He1, length_app. simpl in *. lia.
    + exists s'. split; [done|]. by rewrite <- app_assoc in Hb'.
Qed.

(** The objects worker [w] of [T] inserts, in its order. *)
Fixpoint picked (w T from : nat) (data : list Object) : list Object :=
  match data with
  | [] => []
  | obj :: rest =>
    (if bool_decide (w = from mod T) then [obj] else []) ++
    picked w T (S from) rest
  end.

Lemma IndexThreadSW_built (fuel w T : nat) :
  forall (data : list Object) (from : nat) (s : state) (payload : list Object),
    built s payload ->
    ElList_ s <> [] ->
    1 <= NN_ s ->
    1 <= initIndexAttempts_ s ->
    2 * (length (ElList_ s) + length (picked w T from data)) + 1 < fuel ->
    exists s',
      IndexThreadSW IndexTimeDistance rand_src fuel w T from data s = (Ok tt, s') /\
      built s' (payload ++ picked w T from data) /\
      length (ElList_ s') = length (ElList_ s) + length (picked w T from data) /\
      NN_ s' = NN_ s /\ initIndexAttempts_ s' = initIndexAttempts_ s.
Proof.
  induction data as [|obj data IH]; intros from s payload Hb Hne HNN Hatt Hfuel.
  - exists s. simpl. rewrite app_nil_r. split; [done|]. split; [done|]. split; [lia|done].
  - cbn [IndexThreadSW picked] in *. case_bool_decide as Hw.
    + unfold new_MSWNode. unfold bind at 1. unfold bind at 1.
      destruct (new_and_add_built fuel obj s payload)
        as (s1 & Hadd & Hb1 & He1 & HN1 & HA1); try done.
      { simpl in Hfuel. lia. }
      rewrite Hadd.
      destruct (IH (S from) s1 (payload ++ [obj]))
        as (s' & Hrun & Hb' & Hlen' & HN' & HA'); try done.
      * rewrite He1. by destruct (ElList_ s).
      * by rewrite HN1.
      * by rewrite HA1.
      * rewrite He1, length_app. simpl in *. lia.
      * exists s'. split; [done|]. rewrite <- app_assoc in Hb'.
        split; [done|]. rewrite He1, length_app in Hlen'. simpl in *.
        split; [lia|]. split; congruence.
    + unfold bind at 1. unfold ret at 1. simpl in Hfuel |- *.
      by apply IH.
Qed.

Lemma run_workers_built (fuel T : nat) (data : list Object) :
  forall (ws : list nat) (s : state) (payload : list Object),
    built s payload ->
    ElList_ s <> [] ->
    1 <= NN_ s ->
    1 <= initIndexAttempts_ s ->
    2 * (length (ElList_ s) +
         length (concat ((fun w => picked w T 1 data) <$> ws))) + 1 < fuel ->
    exists s',
      run_workers IndexTimeDistance rand_src fuel ws T data s = (Ok tt, s') /\
      built s' (payload ++ concat ((fun w => picked w T 1 data) <$> ws)).
Proof.
  induction ws as [|w ws IH]; intros s payload Hb Hne HNN Hatt Hfuel.
  - exists s. simpl. rewrite app_nil_r. done.
  - cbn [run_workers]. rewrite fmap_cons, concat_cons, length_app in Hfuel.
    destruct (IndexThreadSW_built fuel w T data 1 s payload)
      as (s1 & Hrun1 & Hb1 & Hlen1 & HN1 & HA1); try done; [lia|].
    erewrite bind_Ok by exact Hrun1.
    destruct (IH s1 (payload ++ picked w T 1 data)) as (s' & Hrun & Hb'); try done.
    + intros Hnil. rewrite Hnil in Hlen1. simpl in Hlen1.
      destruct (ElList_ s); [done|simpl in Hlen1; lia].
    + by rewrite HN1.
    + by rewrite HA1.
    + rewrite Hlen1. lia.
    + exists s'. split; [done|].
      by rewrite fmap_cons, concat_cons, app_assoc.
Qed.

(** Between them the workers [0 .. T-1] pick every object exactly once. *)
Lemma concat_hits_none (k : nat) (obj : Object) : forall ws : list nat,
  k ∉ ws ->
  concat ((fun w => if bool_decide (w = k) then [obj] else []) <$> ws) = [].
Proof.
  induction ws as [|w ws IH]; intros Hk; [done|].
  rewrite fmap_cons, concat_cons.
  rewrite bool_decide_eq_false_2.
  - apply IH. intros Hin. apply Hk. by right.
  - intros ->. apply Hk. left.
Qed.

Lemma concat_hits_one (k : nat) (obj : Object) : forall ws : list nat,
  NoDup ws -> k ∈ ws ->
  concat ((fun w => if bool_decide (w = k) then [obj] else []) <$> ws) = [obj].
Proof.
  induction ws as [|w ws IH]; intros Hnd Hk; [by apply elem_of_nil in Hk|].
  apply NoDup_cons in Hnd as [Hw Hnd].
  rewrite fmap_cons, concat_cons. case_bool_decide as Hwk.
  - subst. by rewrite concat_hits_none.
  - simpl. apply IH; [done|].
    apply elem_of_cons in Hk as [->|Hk]; done.
Qed.

Lemma concat_split {A} (a b : nat -> list A) : forall ws : list nat,
  concat ((fun w => a w ++ b w) <$> ws) ≡ₚ
  concat (a <$> ws) ++ concat (b <$> ws).
Proof.
  induction ws as [|w ws IH]; [done|].
  rewrite !fmap_cons, !concat_cons, IH.
  rewrite <- !app_assoc. f_equiv.
  rewrite !app_assoc. f_equiv. apply Permutation_app_comm.
Qed.

Lemma picked_all (T : nat) : 0 < T ->
  forall (data : list Object) (from : nat),
    concat ((fun w => picked w T from data) <$> seq 0 T) ≡ₚ data.
Proof.
  intros HT. induction data as [|obj data IH]; intros from.
  - simpl. induction (seq 0 T) as [|w ws IHw]; [done|]. by rewrite fmap_cons.
  - cbn [picked].
    rewrite (concat_split
               (fun w => if bool_decide (w = from mod T) then [obj] else [])
               (fun w => picked w T (S from) data)).
    rewrite concat_hits_one.
    + simpl. f_equiv. apply IH.
    + apply NoDup_seq.
    + apply elem_of_seq. pose proof (Nat.mod_upper_bound from T). lia.
Qed.

Lemma singleton_built (a : Object) (omp : option nat) (rand0 : nat)
    (MethParams : AnyParams) :
  built (singleton_index a omp rand0 MethParams) [a].
Proof.
  split; simpl.
  - intros i p Hp. destruct i as [|i]; [|done]. injection Hp as <-.
    eexists. split; [reflexivity|]. split; [done|].
    intros q Hq. by apply elem_of_nil in Hq.
  - intros p q Hp Hq'.
    apply list_elem_of_singleton in Hp as ->. apply list_elem_of_singleton in Hq' as ->.
    apply rtc_refl.
  - intros p q ndp Hp Hin. destruct p as [|p]; [|done].
    injection Hp as <-. by apply elem_of_nil in Hin.
  - constructor; [|constructor]. eexists. split; [reflexivity|done].
Qed.

(** X2.  With one thread, [NN >= 1] and at least one attempt per insertion the
    constructor returns a graph in which the [i]-th data object is the
    payload of the published node of index [i], every friendship goes both
    ways, and no node is its own friend. *)
Theorem sequential_build_undirected (fuel : nat) (omp : option nat) (rand0 : nat)
    (first : Object) (rest : list Object) (MethParams : AnyParams) :
  1 <= GetParamOptional (param_NN MethParams) 5 ->
  1 <= GetParamOptional (param_initIndexAttempts MethParams) 2 ->
  GetParamOptional (param_indexThreadQty MethParams) (GetParamOptional omp 0) <= 1 ->
  2 * S (length rest) + 1 < fuel ->
  exists s,
    SmallWorldRand_new fuel omp rand0 (first :: rest) MethParams = (Ok tt, s) /\
    (forall i obj, (first :: rest) !! i = Some obj ->
       exists p nd, ElList_ s !! i = Some p /\ arena s !! p = Some nd /\
                    data_ nd = obj /\ addIndex_ nd = N.of_nat i) /\
    (forall p q ndp, arena s !! p = Some ndp -> q ∈ friends ndp ->
       q <> p /\ exists ndq, arena s !! q = Some ndq /\ p ∈ friends ndq).
Proof.
  intros HNN Hatt Hthr Hfuel.
  assert (SmallWorldRand_new fuel omp rand0 (first :: rest) MethParams =
          add_all IndexTimeDistance rand_src fuel rest
            (singleton_index first omp rand0 MethParams)) as ->.
  { unfold SmallWorldRand_new, bind, new_MSWNode, addCriticalSection, gets. simpl.
    by rewrite bool_decide_eq_true_2 by done. }
  destruct (add_all_built fuel rest (singleton_index first omp rand0 MethParams) [first])
    as (s & Hrun & [Hq Hc Hu Hd]); try done.
  { apply singleton_built. }
  exists s. split; [done|]. split; [|exact Hu].
  intros i obj Hi.
  destruct (Forall2_lookup_r _ _ _ _ _ Hd Hi) as (p & Hp & nd & Hnd & Hdata).
  destruct (Hq i p Hp) as (nd' & Hnd' & Hidx & _).
  rewrite Hnd in Hnd'. injection Hnd' as <-.
  by exists p, nd.
Qed.

(** X3.  With [T >= 2] threads, under the schedule in which the workers run to
    completion one after the other in the order they are spawned: the
    constructor returns; the published nodes carry the data objects, each
    exactly once, the first object first, then those of worker 0, of
    worker 1 and so on; the graph is quiescent and connected, and every
    friendship goes both ways. *)
Theorem threaded_build_in_spawn_order (fuel : nat) (omp : option nat) (rand0 : nat)
    (first : Object) (rest : list Object) (MethParams : AnyParams) :
  1 <= GetParamOptional (param_NN MethParams) 5 ->
  1 <= GetParamOptional (param_initIndexAttempts MethParams) 2 ->
  2 <= GetParamOptional (param_indexThreadQty MethParams) (GetParamOptional omp 0) ->
  2 * S (length rest) + 1 < fuel ->
  exists s order,
    SmallWorldRand_new fuel omp rand0 (first :: rest) MethParams = (Ok tt, s) /\
    order =
      (let T := GetParamOptional (param_indexThreadQty MethParams)
                  (GetParamOptional omp 0) in
       concat ((fun w => picked w T 1 rest) <$> seq 0 T)) /\
    order ≡ₚ rest /\
    length (ElList_ s) = S (length rest) /\
    Forall2 (fun p obj => exists nd, arena s !! p = Some nd /\ data_ nd = obj)
      (ElList_ s) (first :: order) /\
    quiescent (arena s) (ElList_ s) /\
    connected (arena s) (ElList_ s) /\
    (forall p q ndp, arena s !! p = Some ndp -> q ∈ friends ndp ->
       q <> p /\ exists ndq, arena s !! q = Some ndq /\ p ∈ friends ndq).
Proof.
  set (T := GetParamOptional (param_indexThreadQty MethParams)
              (GetParamOptional omp 0)).
  intros HNN Hatt HT Hfuel. cbv zeta.
  assert (SmallWorldRand_new fuel omp rand0 (first :: rest) MethParams =
          run_workers IndexTimeDistance rand_src fuel (seq 0 T) T rest
            (singleton_index first omp rand0 MethParams)) as ->.
  { unfold SmallWorldRand_new, bind, new_MSWNode, addCriticalSection, gets. simpl.
    fold T. by rewrite bool_decide_eq_false_2 by lia. }
  pose proof (picked_all T ltac:(lia) rest 1) as Hperm.
  destruct (run_workers_built fuel T rest (seq 0 T)
              (singleton_index first omp rand0 MethParams) [first])
    as (s & Hrun & [Hq Hc Hu Hd]); try done.
  { apply singleton_built. }
  { rewrite Hperm. simpl in *. lia. }
  exists s, (concat ((fun w => picked w T 1 rest) <$> seq 0 T)).
  split; [done|]. split; [done|]. split; [done|].
  split; [|done].
  apply Forall2_length in Hd. rewrite Hd. simpl. by rewrite Hperm.
Qed.

(** ** What a query finds on a quiescent, connected index *)

Section QuiescentRecall.
Variable h : list (MSWNode Object).
Variable EL : list ptr.
Variable NN : nat.
Hypothesis Hq : quiescent h EL.
Hypothesis Hfit : (N.of_nat (length EL) <= size_t_max)%N.
Variable query0 : KNNQuery Object.

(** The report the query receives for node [p]. *)
Definition reported (p : ptr) (r : Z * Object) : Prop :=
  exists nd, h !! p = Some nd /\
             r = (DistanceObjLeft query0 (data_ nd), data_ nd).

(** The bits that are set are those of the entry points [ents] and of the
    nodes [vis] reported so far, in the order of the reports. *)
Record seen (ents vis : list ptr) (vb : list bool) (query : KNNQuery Object)
  : Prop := mk_seen {
  seen_len : length vb = length EL;
  seen_D : DistanceObjLeft query = DistanceObjLeft query0;
  seen_reports : exists new, reports query = reports query0 ++ new /\
                             Forall2 reported vis new;
  seen_nodup : NoDup vis;
  seen_in : forall p, p ∈ vis -> p ∈ EL;
  seen_apart : forall p, p ∈ ents -> p ∉ vis;
  seen_mark : forall j p, EL !! j = Some p ->
                (vb !! j = Some true <-> p ∈ ents \/ p ∈ vis);
  seen_count : length ents + length vis + unvisited vb = length EL;
}.

(** As long as fewer than [max NN 1] nodes were reported in the attempt,
    the bound is the greatest distance seen, and no candidate is farther. *)
Definition qbound (vis : list ptr) (t : qtrav Object) : Prop :=
  length vis < NN `max` 1 ->
  length (q_closestDistQueue t) = S (length vis) /\
  top_is_max (q_closestDistQueue t) /\
  forall e, e ∈ q_candidateQueue t -> getDistance e ∈ q_closestDistQueue t.

(** Every marked node is the one being expanded, or is still queued, or has
    all its friends marked. *)
Definition qclosed (c : option ptr) (t : qtrav Object) : Prop :=
  forall j p nd, EL !! j = Some p -> h !! p = Some nd ->
    q_visitedBitset t !! j = Some true ->
    c = Some p \/
    (exists e, e ∈ q_candidateQueue t /\ getMSWNode e = p) \/
    (forall q, q ∈ friends nd -> marked EL (q_visitedBitset t) q).

Definition bits_grow (vb vb' : list bool) : Prop :=
  forall j, vb !! j = Some true -> vb' !! j = Some true.

Lemma marked_grow (vb vb' : list bool) (q : ptr) :
  bits_grow vb vb' -> marked EL vb q -> marked EL vb' q.
Proof. intros Hg (j & Hj & Hb). exists j. split; [done|by apply Hg]. Qed.

Lemma query_neighbor_recall (c : option ptr) (ents vis : list ptr)
    (t : qtrav Object) (q : ptr) :
  qinv EL t -> seen ents vis (q_visitedBitset t) (q_query t) -> q ∈ EL ->
  exists t' more,
    query_neighbor h NN t q = Ok t' /\
    qinv EL t' /\
    seen ents (vis ++ more) (q_visitedBitset t') (q_query t') /\
    (qbound vis t -> qbound (vis ++ more) t') /\
    (qclosed c t -> qclosed c t') /\
    bits_grow (q_visitedBitset t) (q_visitedBitset t') /\
    marked EL (q_visitedBitset t') q /\
    qmeasure t' <= qmeasure t.
Proof.
  intros [Hlen Hcdq Hcand] Hs Hq'.
  destruct (published_node h EL Hq q Hq') as (i & nd & Hel & Hi & Hnd & Hidx & _).
  unfold query_neighbor. rewrite Hnd, Hidx.
  rewrite bool_decide_eq_false_2 by lia.
  unfold bitset_get, bitset_set. rewrite Nat2N.id.
  destruct (q_visitedBitset t !! i) as [[]|] eqn:Hb; simpl.
  - exists t, []. rewrite app_nil_r. repeat (split; [first [done | by unfold bits_grow]|]).
    split; [by exists i|done].
  - rewrite bool_decide_eq_true_2 by lia. simpl.
    eexists _, [q]. split; [done|].
    pose proof (unvisited_set _ _ Hb) as Hu.
    destruct Hs as [_ HD (new & Hrep & Hnew) Hnd' Hin Hapart Hmark Hcount].
    assert ((q ∉ ents) /\ (q ∉ vis)) as [Hqe Hqv].
    { split; intros Hin'; assert (q_visitedBitset t !! i = Some true) as Hbt
        by (apply (Hmark i q Hel); auto); congruence. }
    assert (bits_grow (q_visitedBitset t) (<[i:=true]> (q_visitedBitset t))) as Hgrow.
    { intros j Hj. destruct (decide (i = j)) as [<-|Hne].
      - apply list_lookup_insert_eq. lia.
      - by rewrite list_lookup_insert_ne. }
    split; [|split; [|split; [|split; [|split; [|split]]]]].
    + split; simpl.
      * by rewrite length_insert.
      * by apply pop_after_push_nonempty.
      * intros e He. apply pq_push_elem in He as [->|He]; [done|by apply Hcand].
    + split; simpl.
      * by rewrite length_insert.
      * done.
      * exists (new ++ [(DistanceObjLeft query0 (data_ nd), data_ nd)]).
        split; [by rewrite Hrep, HD, app_assoc|].
        apply Forall2_app; [done|]. constructor; [|constructor]. by exists nd.
      * apply NoDup_app. split; [done|]. split; [|apply NoDup_singleton].
        intros p Hp Hp'. apply list_elem_of_singleton in Hp' as ->. done.
      * intros p Hp. apply elem_of_app in Hp as [Hp|Hp]; [by apply Hin|].
        by apply list_elem_of_singleton in Hp as ->.
      * intros p Hp Hp'. apply elem_of_app in Hp' as [Hp'|Hp'].
        -- by apply (Hapart p).
        -- apply list_elem_of_singleton in Hp' as ->. done.
      * intros j p Hj. destruct (decide (i = j)) as [<-|Hne].
        -- rewrite Hel in Hj. injection Hj as <-.
           rewrite list_lookup_insert_eq by lia. split; [|done].
           intros _. right. apply elem_of_app. right. by apply list_elem_of_singleton.
        -- rewrite list_lookup_insert_ne by done. rewrite (Hmark j p Hj).
           rewrite elem_of_app, list_elem_of_singleton.
           split; [tauto|]. intros [?|[?| ->]]; [tauto|tauto|].
           destruct Hne. by apply (position_unique h EL Hq i j q).
      * rewrite length_app. simpl. lia.
    + unfold qbound. simpl. rewrite length_app. simpl. intros Hlt Hfew.
      destruct Hlt as (Hl & Hmax & Hc); [lia|].
      unfold pq_size. rewrite pq_push_length.
      rewrite bool_decide_eq_false_2 by lia.
      rewrite pq_push_length. split; [lia|]. split; [by apply top_is_max_push|].
      intros e He. apply pq_push_elem.
      apply pq_push_elem in He as [->|He]; [by left|].
      right. by apply Hc.
    + intros Hcl j p ndp Hj Hp Hbit. simpl in Hbit |- *.
      destruct (decide (i = j)) as [<-|Hne].
      * rewrite Hel in Hj. injection Hj as <-.
        right. left. eexists. split; [apply pq_push_elem; by left|done].
      * rewrite list_lookup_insert_ne in Hbit by done.
        destruct (Hcl j p ndp Hj Hp Hbit) as [?|[(e & He & Hep)|Hall]]; [by left|..].
        -- right. left. exists e. split; [|done]. apply pq_push_elem. by right.
        -- right. right. intros q0 Hq0. by apply (marked_grow _ _ _ Hgrow), Hall.
    + done.
    + exists i. split; [done|]. simpl. apply list_lookup_insert_eq. lia.
    + unfold qmeasure. simpl. rewrite pq_push_length. lia.
  - apply lookup_ge_None in Hb. lia.
Qed.

Lemma for_each_query_recall (c : option ptr) (ents : list ptr) (qs : list ptr) :
  forall (vis : list ptr) (t : qtrav Object),
    qinv EL t -> seen ents vis (q_visitedBitset t) (q_query t) ->
    (forall q, q ∈ qs -> q ∈ EL) ->
    exists t' more,
      for_each (query_neighbor h NN) qs t = Ok t' /\
      qinv EL t' /\
      seen ents (vis ++ more) (q_visitedBitset t') (q_query t') /\
      (qbound vis t -> qbound (vis ++ more) t') /\
      (qclosed c t -> qclosed c t') /\
      bits_grow (q_visitedBitset t) (q_visitedBitset t') /\
      (forall q, q ∈ qs -> marked EL (q_visitedBitset t') q) /\
      qmeasure t' <= qmeasure t.
Proof.
  induction qs as [|q qs IH]; intros vis t Ht Hs Hqs; simpl.
  - exists t, []. rewrite app_nil_r. repeat (split; [first [done | by unfold bits_grow]|]).
    split; [|done]. intros q Hq'. by apply elem_of_nil in Hq'.
  - destruct (query_neighbor_recall c ents vis t q Ht Hs)
      as (t1 & m1 & -> & Ht1 & Hs1 & Hb1 & Hc1 & Hg1 & Hm1 & Hd1); [apply Hqs; left|].
    simpl.
    destruct (IH (vis ++ m1) t1 Ht1 Hs1)
      as (t2 & m2 & -> & Ht2 & Hs2 & Hb2 & Hc2 & Hg2 & Hm2 & Hd2).
    { intros q' Hq'. apply Hqs. by right. }
    exists t2, (m1 ++ m2). rewrite app_assoc.
    split; [done|]. split; [done|]. split; [done|].
    split; [auto|]. split; [auto|].
    split; [intros j Hj; by apply Hg2, Hg1|].
    split; [|lia].
    intros q0 Hq0. apply elem_of_cons in Hq0 as [->|Hq0]; [|by apply Hm2].
    by apply (marked_grow _ _ _ Hg2).
Qed.

(** The loop of one attempt. *)
Lemma query_loop_recall (ents : list ptr) (fuel : nat) :
  forall (vis : list ptr) (t : qtrav Object),
    qinv EL t -> seen ents vis (q_visitedBitset t) (q_query t) ->
    qmeasure t < fuel ->
    exists t' more,
      query_loop h NN fuel t = Ok t' /\
      qinv EL t' /\
      seen ents (vis ++ more) (q_visitedBitset t') (q_query t') /\
      bits_grow (q_visitedBitset t) (q_visitedBitset t') /\
      (qbound vis t -> qclosed None t ->
         qclosed None t' /\
         (q_candidateQueue t' = [] \/ NN `max` 1 <= length (vis ++ more))).
Proof.
  induction fuel as [|fuel IH]; intros vis t Ht Hs Hm; [lia|]. simpl.
  destruct (q_candidateQueue t) as [|e rest] eqn:Ec; simpl.
  { exists t, []. rewrite app_nil_r. split; [done|]. split; [done|]. split; [done|].
    split; [by unfold bits_grow|].
    intros _ Hcl. split; [done|]. by left. }
  destruct (q_closestDistQueue t) as [|lb cdq] eqn:Ed; simpl.
  { by destruct (qinv_cdq _ t Ht). }
  destruct (lb <? getDistance e)%Z eqn:Ecmp.
  { exists t, []. rewrite app_nil_r. split; [done|]. split; [done|]. split; [done|].
    split; [by unfold bits_grow|].
    intros Hb Hcl. split; [done|]. right.
    destruct (decide (length vis < NN `max` 1)) as [Hfew|]; [|lia].
    destruct (Hb Hfew) as (_ & Hmax & Hcand).
    apply Z.ltb_lt in Ecmp.
    assert (getDistance e <= lb)%Z; [|lia].
    apply (Hmax lb); [by rewrite Ed|]. apply Hcand. rewrite Ec. left. }
  assert (getMSWNode e ∈ EL) as Hel.
  { apply (qinv_cand _ t Ht). rewrite Ec. left. }
  destruct (published_node h EL Hq _ Hel) as (i & nd & _ & _ & Hnd & _ & Hfr).
  rewrite Hnd.
  set (tp := mkQTrav (q_visitedBitset t) (lb :: cdq) rest (q_query t)).
  assert (qinv EL tp) as Htp.
  { destruct Ht as [H1 H2 H3]. split; simpl; try done.
    intros e' He'. apply H3. rewrite Ec. by right. }
  destruct (for_each_query_recall (Some (getMSWNode e)) ents (friends nd) vis tp Htp Hs Hfr)
    as (t1 & m1 & Hfe & Ht1 & Hs1 & Hb1 & Hc1 & Hg1 & Hm1 & Hd1).
  rewrite Hfe. simpl.
  destruct (IH (vis ++ m1) t1 Ht1 Hs1) as (t' & m2 & Hrun & Ht' & Hs' & Hg' & Hfin).
  { unfold qmeasure in *. simpl in Hd1. rewrite Ec in Hm. simpl in Hm. lia. }
  exists t', (m1 ++ m2). rewrite app_assoc.
  split; [done|]. split; [done|]. split; [done|].
  split; [intros j Hj; by apply Hg', Hg1|].
  intros Hb Hcl. apply Hfin.
  - apply Hb1. intros Hfew. destruct (Hb Hfew) as (Hl & Hmax & Hcand).
    rewrite Ed in Hl, Hmax. split; [done|]. split; [done|].
    intros e' He'. simpl in He' |- *. rewrite <- Ed. apply Hcand. rewrite Ec. by right.
  - assert (qclosed (Some (getMSWNode e)) tp) as Hcp.
    { intros j p ndp Hj Hp Hbit. simpl in Hbit.
      destruct (Hcl j p ndp Hj Hp Hbit) as [?|[(e' & He' & Hep)|Hall]]; [done|..].
      - rewrite Ec in He'. apply elem_of_cons in He' as [->|He'].
        + left. by rewrite Hep.
        + right. left. by exists e'.
      - right. right. done. }
    intros j p ndp Hj Hp Hbit.
    destruct (Hc1 Hcp j p ndp Hj Hp Hbit) as [Hc|[?|?]]; [|by right; left|by right; right].
    injection Hc as Hc. right. right. rewrite <- Hc in Hp. rewrite Hnd in Hp.
    injection Hp as <-. exact Hm1.
Qed.

Lemma qclosed_reach (t : qtrav Object) (p q : ptr) :
  qclosed None t -> q_candidateQueue t = [] ->
  rtc (edge h) p q ->
  marked EL (q_visitedBitset t) p -> marked EL (q_visitedBitset t) q.
Proof.
  intros Hc Hempty Hreach. induction Hreach as [p|p p1 q Hedge _ IH]; [done|].
  intros (j & Hj & Hb). apply IH.
  destruct Hedge as (nd & Hnd & Hp1).
  destruct (Hc j p nd Hj Hnd Hb) as [?|[(e & He & _)|Hall]]; [done| |by apply Hall].
  rewrite Hempty in He. by apply elem_of_nil in He.
Qed.

(** The first attempt, entered at [p0]. *)
Lemma query_first_attempt (p0 : ptr) (fuel : nat) :
  p0 ∈ EL -> 2 * length EL < fuel ->
  exists t0 t' vis,
    query_seed h (Some p0) (replicate (length EL) false) query0 = Ok t0 /\
    query_loop h NN fuel t0 = Ok t' /\
    seen [p0] vis (q_visitedBitset t') (q_query t') /\
    (connected h EL -> (NN `max` 1) `min` (length EL - 1) <= length vis).
Proof.
  intros Hp Hfuel.
  destruct (published_node h EL Hq p0 Hp) as (i & nd & Hel & Hi & Hnd & Hidx & _).
  unfold query_seed. rewrite Hnd, Hidx.
  rewrite bool_decide_eq_false_2 by lia.
  unfold bitset_set. rewrite Nat2N.id.
  rewrite length_replicate. rewrite bool_decide_eq_true_2 by lia. simpl.
  set (t0 := mkQTrav _ _ _ _).
  assert (replicate (length EL) false !! i = Some false) as Hbit
    by (by apply lookup_replicate_2).
  pose proof (unvisited_set _ _ Hbit) as Hu. rewrite unvisited_replicate in Hu.
  assert (qinv EL t0) as Ht0.
  { split; simpl; try done.
    - by rewrite length_insert, length_replicate.
    - intros e He. apply list_elem_of_singleton in He as ->. done. }
  assert (forall j, <[i:=true]> (replicate (length EL) false) !! j = Some true -> j = i)
    as Honly.
  { intros j Hj. destruct (decide (i = j)) as [<-|Hne]; [done|].
    rewrite list_lookup_insert_ne in Hj by done.
    apply lookup_replicate in Hj as [? _]. done. }
  assert (seen [p0] [] (q_visitedBitset t0) (q_query t0)) as Hs0.
  { split; simpl.
    - by rewrite length_insert, length_replicate.
    - done.
    - exists []. rewrite app_nil_r. split; [done|constructor].
    - constructor.
    - intros p Hp'. by apply elem_of_nil in Hp'.
    - intros p _ Hp'. by apply elem_of_nil in Hp'.
    - intros j p Hj. split.
      + intros Hb. apply Honly in Hb as ->. left.
        rewrite Hel in Hj. injection Hj as <-. by apply list_elem_of_singleton.
      + intros [Hp'|Hp']; [|by apply elem_of_nil in Hp'].
        apply list_elem_of_singleton in Hp' as ->.
        rewrite (position_unique h EL Hq j i p0 Hj Hel).
        apply list_lookup_insert_eq. by rewrite length_replicate.
    - lia. }
  destruct (query_loop_recall [p0] fuel [] t0 Ht0 Hs0)
    as (t' & vis & Hrun & Ht' & Hs' & Hg' & Hfin).
  { unfold qmeasure. simpl. lia. }
  simpl in Hs'. exists t0, t', vis. split; [done|]. split; [done|]. split; [done|].
  intros Hconn.
  destruct Hfin as [Hcl [Hempty|Hmany]].
  - intros _. split; [done|]. split.
    + intros lb [= <-] d Hd. apply list_elem_of_singleton in Hd as ->. lia.
    + intros e He. apply list_elem_of_singleton in He as ->. simpl.
      by apply list_elem_of_singleton.
  - intros j p ndp Hj Hp' Hb. simpl in Hb. apply Honly in Hb as ->.
    right. left. eexists. split; [by apply list_elem_of_singleton|].
    simpl. rewrite Hel in Hj. by injection Hj.
  - assert (marked EL (q_visitedBitset t') p0) as Hm0.
    { exists i. split; [done|]. apply Hg'. simpl.
      apply list_lookup_insert_eq. by rewrite length_replicate. }
    assert (unvisited (q_visitedBitset t') = 0) as Hz.
    { apply (all_marked h EL Hq); [by apply (qinv_len _ _ Ht')|].
      intros q Hq'. apply (qclosed_reach t' p0 q Hcl Hempty (Hconn p0 q Hp Hq') Hm0). }
    pose proof (seen_count _ _ _ _ Hs') as Hcount. simpl in Hcount. lia.
  - simpl in Hmany. lia.
Qed.

End QuiescentRecall.

(** Later attempts report only nodes not seen before. *)
Lemma query_attempts_seen (fuel : nat) (query0 : KNNQuery Object) :
  forall (n : nat) (vb : list bool) (query : KNNQuery Object) (s : state)
         (ents vis : list ptr),
    quiescent (arena s) (ElList_ s) ->
    (N.of_nat (length (ElList_ s)) <= size_t_max)%N ->
    ElList_ s <> [] ->
    seen (arena s) (ElList_ s) query0 ents vis vb query ->
    2 * length (ElList_ s) + 1 < fuel ->
    exists vb' query' s' ents' more,
      query_attempts rand_src fuel n vb query s = (Ok (vb', query'), s') /\
      seen (arena s) (ElList_ s) query0 (ents ++ ents') (vis ++ more) vb' query'.
Proof.
  induction n as [|n IH]; intros vb query s ents vis Hq Hfit Hne Hs Hfuel.
  - exists vb, query, s, [], []. by rewrite !app_nil_r.
  - cbn [query_attempts].
    destruct (getRandomEntryPoint_nonempty s Hne) as (p & Hp & Hrand).
    erewrite bind_Ok by exact Hrand. cbn [arena NN_ set_rand_calls].
    destruct (published_node _ _ Hq p Hp) as (i & nd & Hel & Hi & Hnd & Hidx & _).
    pose proof (seen_len _ _ _ _ _ _ _ Hs) as Hlen.
    unfold query_seed. rewrite Hnd, Hidx.
    rewrite bool_decide_eq_false_2 by lia.
    unfold bitset_set. rewrite Nat2N.id.
    rewrite bool_decide_eq_true_2 by lia. cbn [obind].
    set (t0 := mkQTrav _ _ _ _).
    assert (qinv (ElList_ s) t0) as Ht0.
    { split; simpl; try done.
      - by rewrite length_insert.
      - intros e He. apply list_elem_of_singleton in He as ->. done. }
    assert (exists ents', seen (arena s) (ElList_ s) query0 (ents ++ ents') vis
                            (q_visitedBitset t0) (q_query t0)) as [ents' Hs0].
    { simpl. destruct (vb !! i) as [[]|] eqn:Hb.
      - exists []. rewrite app_nil_r. by rewrite list_insert_id.
      - exists [p]. pose proof (unvisited_set _ _ Hb) as Hu.
        destruct Hs as [_ HD Hrep Hnd' Hin Hapart Hmark Hcount].
        assert ((p ∉ ents) /\ (p ∉ vis)) as [Hpe Hpv].
        { split; intros Hin'; assert (vb !! i = Some true) as Hbt
            by (apply (Hmark i p Hel); auto); congruence. }
        split; try done.
        + by rewrite length_insert.
        + intros p' Hp'. apply elem_of_app in Hp' as [Hp'|Hp']; [by apply Hapart|].
          by apply list_elem_of_singleton in Hp' as ->.
        + intros j p' Hj. destruct (decide (i = j)) as [<-|Hne'].
          * rewrite Hel in Hj. injection Hj as <-.
            rewrite list_lookup_insert_eq by lia. split; [|done].
            intros _. left. apply elem_of_app. right. by apply list_elem_of_singleton.
          * rewrite list_lookup_insert_ne by done. rewrite (Hmark j p' Hj).
            rewrite elem_of_app, list_elem_of_singleton.
            split; [tauto|]. intros [[?| ->]|?]; [tauto| |tauto].
            destruct Hne'. by apply (position_unique _ _ Hq i j p).
        + rewrite length_app. simpl. lia.
      - apply lookup_ge_None in Hb. lia. }
    destruct (query_loop_recall (arena s) (ElList_ s) (NN_ s) Hq Hfit query0
                (ents ++ ents') fuel vis t0 Ht0 Hs0)
      as (t' & m1 & -> & Ht' & Hs' & _).
    { unfold qmeasure. simpl.
      pose proof (unvisited_le (<[i:=true]> vb)) as Hu.
      rewrite length_insert in Hu. lia. }
    destruct (IH (q_visitedBitset t') (q_query t')
                 (set_rand_calls (S (rand_calls s)) s) (ents ++ ents') (vis ++ m1))
      as (vb' & query' & s' & ents2 & m2 & Hrun & Hfin); try done.
    exists vb', query', s', (ents' ++ ents2), (m1 ++ m2).
    split; [done|]. by rewrite !app_assoc.
Qed.

(** X10.  On a quiescent, connected index with [N >= 1] published nodes and at
    least one attempt configured, [Search] returns, and what it adds to the
    reports is one report, with its distance to the query, for each node of
    a list [vis] of distinct published nodes that does not contain the first
    entry point [p0]: no node is reported twice, and [p0] never.  At least
    [min (max NN 1) (N - 1)] nodes are reported; so when [N - 1 <= max NN 1]
    every published node other than the first entry point is reported, and
    exactly once. *)
Theorem Search_recall (fuel : nat) (query : KNNQuery Object) (s : state) :
  quiescent (arena s) (ElList_ s) ->
  connected (arena s) (ElList_ s) ->
  (N.of_nat (length (ElList_ s)) <= size_t_max)%N ->
  ElList_ s <> [] ->
  0 < initSearchAttempts_ s ->
  2 * length (ElList_ s) + 1 < fuel ->
  exists query' s' p0 vis new,
    Search fuel query s = (Ok query', s') /\
    ElList_ s !! (rand_src (rand_calls s) mod length (ElList_ s)) = Some p0 /\
    reports query' = reports query ++ new /\
    Forall2 (fun p r => exists nd, arena s !! p = Some nd /\
                          r = (DistanceObjLeft query (data_ nd), data_ nd))
      vis new /\
    NoDup (p0 :: vis) /\
    (forall p, p ∈ vis -> p ∈ ElList_ s) /\
    (NN_ s `max` 1) `min` (length (ElList_ s) - 1) <= length vis /\
    (length (ElList_ s) - 1 <= NN_ s `max` 1 -> p0 :: vis ≡ₚ ElList_ s).
Proof.
  intros Hq Hconn Hfit Hne Hatt Hfuel.
  unfold Search, gets. unfold bind at 1. unfold bind at 1.
  destruct (initSearchAttempts_ s) as [|n]; [lia|].
  assert (length (ElList_ s) <> 0) as Hlen0 by (by destruct (ElList_ s)).
  destruct (lookup_lt_is_Some_2 (ElList_ s)
              (rand_src (rand_calls s) `mod` length (ElList_ s)))
    as [p0 Hp0]; [by apply Nat.mod_upper_bound|].
  assert (p0 ∈ ElList_ s) as Hin0 by (by eapply list_elem_of_lookup_2).
  assert (getRandomEntryPoint rand_src s =
          (Ok (Some p0), set_rand_calls (S (rand_calls s)) s)) as Hrand.
  { unfold getRandomEntryPoint. rewrite bool_decide_eq_false_2 by done.
    by rewrite Hp0. }
  assert (exists vb' query' s' ents' vis1 more,
            query_attempts rand_src fuel (S n)
              (replicate (length (ElList_ s)) false) query s
              = (Ok (vb', query'), s') /\
            seen (arena s) (ElList_ s) query ([p0] ++ ents') (vis1 ++ more)
              vb' query' /\
            (NN_ s `max` 1) `min` (length (ElList_ s) - 1) <= length vis1)
    as (vb' & query' & s' & ents' & vis1 & more & Hrun & Hs' & Hlow).
  { cbn [query_attempts].
    erewrite bind_Ok by exact Hrand. cbn [arena NN_ set_rand_calls].
    destruct (query_first_attempt (arena s) (ElList_ s) (NN_ s) Hq Hfit query p0 fuel)
      as (t0 & t' & vis1 & -> & Hloop & Hs1 & Hlow); [done|lia|].
    cbn [obind]. rewrite Hloop.
    destruct (query_attempts_seen fuel query n (q_visitedBitset t') (q_query t')
                (set_rand_calls (S (rand_calls s)) s) [p0] vis1)
      as (vb' & query' & s' & ents' & more & Hrun & Hs'); try done.
    exists vb', query', s', ents', vis1, more. auto. }
  unfold bind. rewrite Hrun. unfold ret. cbn [snd fst].
  destruct Hs' as [_ _ (new & Hrep & Hnew) Hnd Hin Hapart _ Hcount].
  exists query', s', p0, (vis1 ++ more), new.
  split; [done|]. split; [done|]. split; [done|]. split; [done|].
  assert (NoDup (p0 :: vis1 ++ more)) as Hnd0.
  { constructor; [|done]. apply Hapart. simpl. left. }
  split; [done|]. split; [done|].
  rewrite length_app.
  split; [lia|]. intros Hall.
  apply submseteq_length_Permutation.
  - apply NoDup_submseteq; [done|].
    intros p Hp. apply elem_of_cons in Hp as [->|Hp]; [done|by apply Hin].
  - simpl. rewrite length_app. lia.
Qed.

(** ** Queries that meet a pending node (lines 416-421) *)

Lemma for_each_app {A S} (body : S -> A -> outcome S) (xs ys : list A) :
  forall s, for_each body (xs ++ ys) s =
            (s' <~ for_each body xs s ;; for_each body ys s').
Proof.
  induction xs as [|x xs IH]; intros s; simpl; [done|].
  destruct (body s x) as [s1| | |]; simpl; [apply IH|done..].
Qed.

(** Node [r] is allocated and its index is below [n]. *)
Definition indexed_below (h : list (MSWNode Object)) (n : nat) (r : ptr) : Prop :=
  exists nd i, h !! r = Some nd /\ addIndex_ nd = N.of_nat i /\ i < n.

Lemma query_neighbor_indexed (h : list (MSWNode Object)) (NN n : nat)
    (t : qtrav Object) (r : ptr) :
  (N.of_nat n <= size_t_max)%N ->
  length (q_visitedBitset t) = n ->
  indexed_below h n r ->
  exists t', query_neighbor h NN t r = Ok t' /\ length (q_visitedBitset t') = n.
Proof.
  intros Hfit Hlen (nd & i & Hnd & Hidx & Hi).
  unfold query_neighbor. rewrite Hnd, Hidx.
  rewrite bool_decide_eq_false_2 by lia.
  unfold bitset_get, bitset_set. rewrite Nat2N.id.
  destruct (q_visitedBitset t !! i) as [[]|] eqn:Hb; simpl.
  - by exists t.
  - rewrite bool_decide_eq_true_2 by lia. simpl. eexists. split; [done|].
    simpl. by rewrite length_insert.
  - apply lookup_ge_None in Hb. lia.
Qed.

Lemma for_each_query_indexed (h : list (MSWNode Object)) (NN n : nat)
    (rs : list ptr) : forall t : qtrav Object,
  (N.of_nat n <= size_t_max)%N ->
  length (q_visitedBitset t) = n ->
  (forall r, r ∈ rs -> indexed_below h n r) ->
  exists t', for_each (query_neighbor h NN) rs t = Ok t' /\
             length (q_visitedBitset t') = n.
Proof.
  induction rs as [|r rs IH]; intros t Hfit Hlen Hrs; simpl.
  - by exists t.
  - destruct (query_neighbor_indexed h NN n t r Hfit Hlen) as (t1 & -> & Hlen1);
      [apply Hrs; left|].
    simpl. apply IH; [done|done|]. intros r' Hr'. apply Hrs. by right.
Qed.

(** X11.  The query-time traversal fails fast on a pending node.  If the first
    entry point has among its friends a node whose index is still the
    sentinel, and the friends listed before it are indexed, [Search] throws
    "Bug: uninitialized addIndex_" in its first iteration, for every
    iteration bound of at least one; one random number is consumed and the
    graph is left as it was. *)
Theorem Search_throws_on_pending_friend (fuel : nat) (query : KNNQuery Object)
    (s : state) (p0 q : ptr) (nd0 ndq : MSWNode Object) (before after : list ptr) :
  (N.of_nat (length (ElList_ s)) <= size_t_max)%N ->
  0 < initSearchAttempts_ s ->
  0 < fuel ->
  ElList_ s !! (rand_src (rand_calls s) mod length (ElList_ s)) = Some p0 ->
  arena s !! p0 = Some nd0 ->
  indexed_below (arena s) (length (ElList_ s)) p0 ->
  friends nd0 = before ++ q :: after ->
  (forall r, r ∈ before -> indexed_below (arena s) (length (ElList_ s)) r) ->
  arena s !! q = Some ndq ->
  addIndex_ ndq = size_t_max ->
  Search fuel query s =
    (Throw "Bug: uninitialized addIndex_", set_rand_calls (S (rand_calls s)) s).
Proof.
  intros Hfit Hatt Hfuel Hp0 Hnd0 (nd0' & i0 & Hnd0' & Hidx0 & Hi0) Hfr Hbefore Hq Hsent.
  rewrite Hnd0 in Hnd0'. injection Hnd0' as <-.
  unfold Search, gets. unfold bind at 1. unfold bind at 1.
  destruct (initSearchAttempts_ s) as [|n]; [lia|].
  destruct fuel as [|fuel]; [lia|].
  assert (query_attempts rand_src (S fuel) (S n)
            (replicate (length (ElList_ s)) false) query s
          = (Throw "Bug: uninitialized addIndex_",
             set_rand_calls (S (rand_calls s)) s)) as Hrun.
  { cbn [query_attempts].
    assert (getRandomEntryPoint rand_src s =
            (Ok (Some p0), set_rand_calls (S (rand_calls s)) s)) as Hrand.
    { unfold getRandomEntryPoint.
      rewrite bool_decide_eq_false_2 by lia. by rewrite Hp0. }
    erewrite bind_Ok by exact Hrand. cbn [arena NN_ set_rand_calls].
    unfold query_seed. rewrite Hnd0, Hidx0.
    rewrite bool_decide_eq_false_2 by lia.
    unfold bitset_set. rewrite Nat2N.id, length_replicate.
    rewrite bool_decide_eq_true_2 by lia. cbn [obind].
    cbn [query_loop q_candidateQueue q_closestDistQueue pq_push pq_top head
         getDistance getMSWNode].
    rewrite Z.ltb_irrefl, Hnd0, Hfr, for_each_app.
    destruct (for_each_query_indexed (arena s) (NN_ s) (length (ElList_ s)) before
                (mkQTrav (<[i0:=true]> (replicate (length (ElList_ s)) false))
                   [DistanceObjLeft query (data_ nd0)] [] query))
      as (t1 & Hfe & _); [done| |done|].
    { simpl. by rewrite length_insert, length_replicate. }
    cbn [q_visitedBitset q_closestDistQueue q_query pq_pop tail].
    rewrite Hfe. cbn [obind for_each].
    unfold query_neighbor at 1. rewrite Hq, Hsent.
    by rewrite bool_decide_eq_true_2 by done. }
  unfold bind. by rewrite Hrun.
Qed.

(** ** What an insertion leaves alone (lines 325-356) *)

(** Between [s] and [s'] the nodes other than [x] keep their payload and
    their index and get only [x] as new friend, at the end of their list;
    the list of published nodes and the parameters stay. *)
Definition others_extend (x : ptr) (s s' : state) : Prop :=
  ElList_ s' = ElList_ s /\ NN_ s' = NN_ s /\
  initIndexAttempts_ s' = initIndexAttempts_ s /\
  initSearchAttempts_ s' = initSearchAttempts_ s /\
  indexThreadQty_ s' = indexThreadQty_ s /\
  length (arena s') = length (arena s) /\
  forall p nd, p <> x -> arena s !! p = Some nd ->
    exists nd' k, arena s' !! p = Some nd' /\ data_ nd' = data_ nd /\
                  addIndex_ nd' = addIndex_ nd /\
                  friends nd' = friends nd ++ replicate k x.

Lemma others_extend_refl (x : ptr) (s : state) : others_extend x s s.
Proof.
  repeat (split; [done|]). intros p nd _ Hnd. exists nd, 0.
  by rewrite app_nil_r.
Qed.

Lemma others_extend_trans (x : ptr) (s1 s2 s3 : state) :
  others_extend x s1 s2 -> others_extend x s2 s3 -> others_extend x s1 s3.
Proof.
  intros (E1 & N1 & A1 & S1 & T1 & L1 & F1) (E2 & N2 & A2 & S2 & T2 & L2 & F2).
  repeat (split; [congruence|]). intros p nd Hp Hnd.
  destruct (F1 p nd Hp Hnd) as (nd1 & k1 & Hnd1 & D1 & I1 & Fr1).
  destruct (F2 p nd1 Hp Hnd1) as (nd2 & k2 & Hnd2 & D2 & I2 & Fr2).
  exists nd2, (k1 + k2). split; [done|]. split; [congruence|]. split; [congruence|].
  by rewrite Fr2, Fr1, replicate_add, app_assoc.
Qed.

Lemma others_extend_same (x : ptr) (s s' : state) :
  same_index s s' -> others_extend x s s'.
Proof.
  intros (Ha & He & HN & HA & HS & HT). repeat (split; [congruence|]).
  intros p nd _ Hnd. exists nd, 0. rewrite Ha, app_nil_r. done.
Qed.

(** Sequencing keeps what every step keeps, whatever the outcome. *)
Lemma bind_any {A B} (R : state -> state -> Prop) (m : M Object A)
    (k : A -> M Object B) :
  (forall s1 s2 s3, R s1 s2 -> R s2 s3 -> R s1 s3) ->
  (forall s o s', m s = (o, s') -> R s s') ->
  (forall a s o s', k a s = (o, s') -> R s s') ->
  forall s o s', bind m k s = (o, s') -> R s s'.
Proof.
  intros Htrans Hm Hk s o s'. unfold bind.
  destruct (m s) as [[a| | |] s1] eqn:E.
  - intros H. eapply Htrans; [by eapply Hm|by eapply Hk].
  - intros [= _ <-]. by eapply Hm.
  - intros [= _ <-]. by eapply Hm.
  - intros [= _ <-]. by eapply Hm.
Qed.

Lemma addFriend_extend (x p el : ptr) (s : state) o s' :
  p = x \/ el = x ->
  addFriend p el s = (o, s') -> others_extend x s s'.
Proof.
  intros Hpx. unfold addFriend.
  destruct (arena s !! p) as [n|] eqn:Hn; intros [= _ <-];
    [|apply others_extend_refl].
  repeat (split; [done|]). simpl. split; [by rewrite length_insert|].
  intros p' nd Hp' Hnd. destruct (decide (p = p')) as [<-|Hne].
  - destruct Hpx as [-> | ->]; [done|].
    rewrite list_lookup_insert_eq by (by eapply lookup_lt_Some).
    rewrite Hn in Hnd. injection Hnd as <-.
    eexists _, 1. split; [done|]. done.
  - rewrite list_lookup_insert_ne by done. exists nd, 0.
    by rewrite app_nil_r.
Qed.

Lemma link_results_extend (x : ptr) : forall (rs : list Evaluated) (s : state) o s',
  link_results rs x s = (o, s') -> others_extend x s s'.
Proof.
  induction rs as [|e rs IH]; intros s o s'; cbn [link_results].
  - intros [= _ <-]. apply others_extend_refl.
  - apply bind_any.
    + apply others_extend_trans.
    + unfold link. apply bind_any.
      * apply others_extend_trans.
      * intros s0 o0 s0'. apply addFriend_extend. by right.
      * intros _ s0 o0 s0'. apply addFriend_extend. by left.
    + intros _. apply IH.
Qed.

Lemma add_links_extend (fuel : nat) (x : ptr) (s : state) o s' :
  add_links IndexTimeDistance rand_src fuel x s = (o, s') -> others_extend x s s'.
Proof.
  unfold add_links. revert s o s'. apply bind_any.
  { apply others_extend_trans. }
  { intros s o s'. unfold removeAllFriends.
    destruct (arena s !! x) as [n|] eqn:Hn; intros [= _ <-];
      [|apply others_extend_refl].
    repeat (split; [done|]). simpl. split; [by rewrite length_insert|].
    intros p nd Hp Hnd. exists nd, 0. rewrite app_nil_r.
    by rewrite list_lookup_insert_ne. }
  intros _. apply bind_any.
  { apply others_extend_trans. }
  { intros s o s' [= _ <-]. apply others_extend_refl. }
  intros isEmpty. destruct isEmpty.
  { intros s o s' [= _ <-]. apply others_extend_refl. }
  apply bind_any.
  { apply others_extend_trans. }
  { intros s o s'. unfold deref. destruct (arena s !! x); intros [= _ <-];
      apply others_extend_refl. }
  intros nd. apply bind_any.
  { apply others_extend_trans. }
  { intros s o s' [= _ <-]. apply others_extend_refl. }
  intros NN. apply bind_any.
  { apply others_extend_trans. }
  { intros s o s' [= _ <-]. apply others_extend_refl. }
  intros attempts. apply bind_any.
  { apply others_extend_trans. }
  { intros s o s' H. apply others_extend_same. by eapply kSearch_same. }
  intros r. apply link_results_extend.
Qed.

(** X7.  Whatever its outcome, and whatever the state of the graph, [add] of [x]
    leaves the parameters and the number of allocated nodes as they were,
    keeps the payload and the index of every other node, and changes the
    friends list of another node only by appending [x] to it, possibly more
    than once.  The list of published nodes gets [x] appended when [add]
    returns and stays as it was when it does not. *)
Theorem add_frame (fuel : nat) (x : ptr) (s : state) o s' :
  add fuel x s = (o, s') ->
  NN_ s' = NN_ s /\
  initIndexAttempts_ s' = initIndexAttempts_ s /\
  initSearchAttempts_ s' = initSearchAttempts_ s /\
  indexThreadQty_ s' = indexThreadQty_ s /\
  length (arena s') = length (arena s) /\
  ElList_ s' = (if o is Ok _ then ElList_ s ++ [x] else ElList_ s) /\
  forall p nd, p <> x -> arena s !! p = Some nd ->
    exists nd' k, arena s' !! p = Some nd' /\ data_ nd' = data_ nd /\
                  addIndex_ nd' = addIndex_ nd /\
                  friends nd' = friends nd ++ replicate k x.
Proof.
  rewrite add_split. unfold bind.
  destruct (add_links _ _ _ _ s) as [o1 s1] eqn:E.
  apply add_links_extend in E as (He & HN & HA & HS & HT & HL & HF).
  destruct o1 as [[]| | |]; try (intros [= <- <-]; done).
  unfold addCriticalSection.
  destruct (arena s1 !! x) as [n|] eqn:Hn; intros [= <- <-]; [|done].
  repeat (split; [done|]). simpl. split; [by rewrite length_insert|].
  split; [by rewrite He|].
  intros p nd Hp Hnd. destruct (HF p nd Hp Hnd) as (nd' & k & Hnd' & Hrest).
  exists nd', k. split; [|done]. by rewrite list_lookup_insert_ne.
Qed.

(** ** One attempt on a quiescent graph links distinct nodes *)

Lemma pq_push_perm {T} (less : T -> T -> bool) (x : T) (q : list T) :
  pq_push less x q ≡ₚ x :: q.
Proof.
  induction q as [|y q IH]; simpl; [done|].
  destruct (less y x); [done|]. rewrite IH. apply Permutation_swap.
Qed.

Lemma NoDup_fmap_pop {A B} (f : A -> B) (q : list A) :
  NoDup (f <$> q) -> NoDup (f <$> pq_pop q).
Proof.
  destruct q as [|y q]; simpl; [done|]. by intros [_ ?]%NoDup_cons.
Qed.

Section QuiescentDistinct.
Variable h : list (MSWNode Object).
Variable EL : list ptr.
Variable queryObj : Object.
Variable NN : nat.
Hypothesis Hq : quiescent h EL.

(** In the first attempt no node is evaluated twice, so that the nodes of
    the result set are distinct. *)
Record ninv (t : trav) : Prop := mk_ninv {
  ninv_t : tinv EL t;
  ninv_ev : NoDup (evaluated t);
  ninv_mark : forall p, p ∈ evaluated t -> marked EL (visitedBitset t) p;
  ninv_rs : NoDup (getMSWNode <$> resultSet t);
  ninv_in : forall e, e ∈ resultSet t -> getMSWNode e ∈ evaluated t;
}.

Lemma evaluate_ninv (t : trav) (q : ptr) (nd : MSWNode Object) (i : nat) :
  ninv t -> EL !! i = Some q -> visitedBitset t !! i = Some false ->
  ninv (evaluate queryObj NN t q nd (<[i := true]> (visitedBitset t))).
Proof.
  intros [Ht Hev Hmark Hrs Hin] Hel Hb.
  assert (q ∈ EL) as Hq' by (by eapply list_elem_of_lookup_2).
  assert (q ∉ evaluated t) as Hfresh.
  { intros Hin'. destruct (Hmark q Hin') as (j & Hj & Hbj).
    rewrite (position_unique h EL Hq j i q Hj Hel) in Hbj. congruence. }
  assert (i < length (visitedBitset t)) as Hi by (by eapply lookup_lt_Some).
  split.
  - by apply evaluate_tinv.
  - unfold evaluate. simpl. apply NoDup_app. split; [done|]. split; [|apply NoDup_singleton].
    intros p Hp Hp'. apply list_elem_of_singleton in Hp' as ->. done.
  - unfold evaluate. simpl. intros p Hp. apply elem_of_app in Hp as [Hp|Hp].
    + destruct (Hmark p Hp) as (j & Hj & Hbj). exists j. split; [done|].
      destruct (decide (i = j)) as [<-|Hne]; [by apply list_lookup_insert_eq|].
      by rewrite list_lookup_insert_ne.
    + apply list_elem_of_singleton in Hp as ->. exists i. split; [done|].
      by apply list_lookup_insert_eq.
  - unfold evaluate. simpl.
    destruct (if bool_decide (pq_size (resultSet t) < NN) then true else _); [|done].
    assert (NoDup (getMSWNode <$>
              pq_push less_Direct
                (mkEv (IndexTimeDistance queryObj (data_ nd)) q) (resultSet t))) as Hpush.
    { rewrite pq_push_perm, fmap_cons. simpl. constructor; [|done].
      intros Hin'. apply list_elem_of_fmap in Hin' as (e & -> & He).
      apply Hfresh. by apply Hin. }
    case_bool_decide; [by apply NoDup_fmap_pop|done].
  - unfold evaluate. simpl. intros e He.
    destruct (if bool_decide (pq_size (resultSet t) < NN) then true else _).
    + assert (e ∈ pq_push less_Direct
                    (mkEv (IndexTimeDistance queryObj (data_ nd)) q) (resultSet t)) as He'.
      { case_bool_decide; [by apply elem_of_pop|done]. }
      apply elem_of_app. apply pq_push_elem in He' as [->|He'].
      * right. by apply list_elem_of_singleton.
      * left. by apply Hin.
    + apply elem_of_app. left. by apply Hin.
Qed.

Lemma visit_ninv (t t' : trav) (q : ptr) :
  ninv t -> q ∈ EL ->
  visit_neighbor IndexTimeDistance h queryObj NN (length EL) t q = Ok t' -> ninv t'.
Proof.
  intros Hn Hq' Hv.
  destruct (published_node h EL Hq q Hq') as (i & nd & Hel & Hi & Hnd & Hidx & _).
  pose proof (ninv_t _ Hn) as Ht.
  destruct (visit_published h EL queryObj NN t q i nd Hnd Hidx Hi
              (tinv_len _ _ Ht) (tinv_rs _ _ Ht))
    as [[_ Hv']|[Hb Hv']]; rewrite Hv' in Hv; injection Hv as <-; [done|].
  by apply evaluate_ninv.
Qed.

Lemma first_attempt_distinct (p : ptr) (fuel : nat) :
  p ∈ EL -> 2 * length EL < fuel ->
  exists t0 t',
    seed_attempt IndexTimeDistance h queryObj (length EL) (Some p)
      (replicate (length EL) false) [] [] = Ok t0 /\
    candidate_loop IndexTimeDistance h queryObj NN (length EL) fuel t0 = Ok t' /\
    ninv t'.
Proof.
  intros Hp Hfuel.
  destruct (published_node h EL Hq p Hp) as (i & nd & Hel & Hi & Hnd & Hidx & _).
  eexists.
  rewrite (seed_attempt_published h EL queryObj p i nd _ [] [] Hnd Hidx Hi)
    by (by rewrite length_replicate).
  set (t0 := mkTrav _ _ _ _ _).
  assert (replicate (length EL) false !! i = Some false) as Hbit
    by (by apply lookup_replicate_2).
  assert (ninv t0) as Hn0.
  { split; [split|..]; simpl; try done.
    - by rewrite length_insert, length_replicate.
    - intros e He. apply list_elem_of_singleton in He as ->. done.
    - intros e He. apply list_elem_of_singleton in He as ->. done.
    - apply NoDup_singleton.
    - intros p' Hp'. apply list_elem_of_singleton in Hp' as ->.
      exists i. split; [done|]. apply list_lookup_insert_eq. by rewrite length_replicate.
    - apply NoDup_singleton.
    - intros e He. apply list_elem_of_singleton in He as ->. simpl.
      by apply list_elem_of_singleton. }
  destruct (loop_rule h EL queryObj NN Hq ninv) with (fuel := fuel) (t := t0)
    as (t' & Hrun & Hn & _).
  - apply ninv_t.
  - intros t e lb nd' t' Hn Htop Hlb Hcmp Hnd' Hfe.
    pose proof (ninv_t _ Hn) as Ht.
    assert (forall q, q ∈ friends nd' -> q ∈ EL) as Hfr.
    { destruct (candidateSet t) as [|e' rest] eqn:Ec; [done|]. injection Htop as ->.
      assert (getMSWNode e ∈ EL) as He by (apply (tinv_cand _ t Ht); rewrite Ec; left).
      destruct (published_node h EL Hq _ He) as (? & nd2 & _ & _ & Hnd2 & _ & Hfr).
      rewrite Hnd' in Hnd2. by injection Hnd2 as <-. }
    eapply (for_each_inv _ ninv); [| |exact Hfe].
    + intros s0 x s0' Hs0 Hx Hv. apply (visit_ninv s0 s0' x); auto.
    + destruct Hn as [[H1 H2 H3 H4 H5] Hev Hmark Hrs Hin].
      split; [split|..]; simpl; try done.
      intros e0 He0. apply H4. by apply elem_of_pop.
  - done.
  - unfold measure. simpl.
    pose proof (unvisited_set _ _ Hbit) as Hu.
    rewrite unvisited_replicate in Hu. lia.
  - by exists t'.
Qed.

End QuiescentDistinct.

Lemma kSearch_distinct (fuel : nat) (queryObj : Object) (NN : nat) (s s' : state)
    (rs : list Evaluated) (ev : list ptr) :
  quiescent (arena s) (ElList_ s) ->
  ElList_ s <> [] ->
  2 * length (ElList_ s) + 1 < fuel ->
  kSearchElementsWithAttempts fuel queryObj NN 1 [] s = (Ok (rs, ev), s') ->
  NoDup (getMSWNode <$> rs).
Proof.
  intros Hq Hne Hfuel.
  unfold kSearchElementsWithAttempts, getEntryQtyLocked.
  unfold bind at 1. cbn [attempts_loop]. unfold getRandomEntryPointLocked.
  destruct (getRandomEntryPoint_nonempty s Hne) as (p & Hp & Hrand).
  unfold bind at 1. unfold bind at 1. rewrite Hrand. cbn [arena set_rand_calls].
  destruct (first_attempt_distinct (arena s) (ElList_ s) queryObj NN Hq p fuel)
    as (t0 & t' & Hseed & Hloop & Hn); [done|lia|].
  rewrite Hseed. cbn [obind]. rewrite Hloop.
  unfold ret. cbn [fst snd]. intros [= <- _ _]. apply (ninv_rs _ _ Hn).
Qed.

(** One attempt on a quiescent, connected graph, in full. *)
Lemma add_one_attempt (fuel : nat) (x : ptr) (s : state) (nd : MSWNode Object) :
  quiescent (arena s) (ElList_ s) ->
  connected (arena s) (ElList_ s) ->
  ElList_ s <> [] ->
  x ∉ ElList_ s ->
  arena s !! x = Some nd ->
  1 <= NN_ s ->
  initIndexAttempts_ s = 1 ->
  2 * length (ElList_ s) + 1 < fuel ->
  exists s' fs,
    add fuel x s = (Ok tt, s') /\
    friends_at s' x = Some fs /\
    NoDup fs /\
    (forall q, q ∈ fs -> q ∈ ElList_ s) /\
    length fs = NN_ s `min` length (ElList_ s) /\
    (forall q, q ∈ fs -> exists ndq, arena s' !! q = Some ndq /\ x ∈ friends ndq) /\
    (forall p ndp, p <> x -> arena s !! p = Some ndp ->
       exists ndp', arena s' !! p = Some ndp' /\
                    forall q, q ∈ friends ndp -> q ∈ friends ndp').
Proof.
  intros Hq Hconn Hne Hx Hnd HNN Hatt Hfuel.
  apply lookup_lt_Some in Hnd as Hlt.
  set (s1 := set_arena (<[x := set_friends [] nd]> (arena s)) s).
  assert (removeAllFriends x s = (Ok tt, s1)) as H1.
  { unfold removeAllFriends. by rewrite Hnd. }
  assert (arena s1 !! x = Some (set_friends [] nd)) as Hx1.
  { simpl. by apply list_lookup_insert_eq. }
  assert (quiescent (arena s1) (ElList_ s1)) as Hq1 by (by apply quiescent_insert).
  destruct (kSearch_quiescent fuel (data_ nd) (NN_ s) (initIndexAttempts_ s) s1)
    as (rs & ev & s2 & Hk & Hsame & Hrs & _ & _ & Hex); try done; [|lia|].
  { by apply connected_insert. }
  specialize (Hex Hatt).
  assert (NoDup (getMSWNode <$> rs)) as Hnodup.
  { rewrite Hatt in Hk. by eapply (kSearch_distinct fuel (data_ nd) (NN_ s) s1 s2 rs ev). }
  pose proof Hsame as (Ha2 & He2 & _).
  assert (forall e, e ∈ rs -> getMSWNode e <> x) as Hrsx.
  { intros e He Heq. apply Hx. rewrite <- Heq. by apply Hrs. }
  destruct (link_results_total x rs s2 (set_friends [] nd)) as (s3 & Hl & Hx3 & _ & _).
  { by rewrite Ha2. }
  { intros e He. split; [by apply Hrsx|]. specialize (Hrs e He). simpl in Hrs.
    destruct (published_node _ _ Hq _ Hrs) as (? & ? & _ & _ & Hv & _).
    rewrite Ha2. simpl. rewrite length_insert. by eapply lookup_lt_Some. }
  simpl in Hx3.
  pose proof (link_results_inv x rs s2 s3 Hl) as [[_ Hgrow] Hlinked].
  eexists _, (getMSWNode <$> rs). split.
  { unfold add. erewrite bind_Ok by exact H1.
    unfold gets at 1. unfold bind at 1.
    rewrite bool_decide_eq_false_2 by done.
    unfold deref. unfold bind at 1. rewrite Hx1.
    unfold gets. unfold bind at 1. unfold bind at 1.
    cbn [NN_ initIndexAttempts_ s1 set_arena data_ set_friends].
    erewrite bind_Ok by exact Hk. cbn [fst].
    erewrite bind_Ok by exact Hl.
    by erewrite addCriticalSection_Ok by exact Hx3. }
  cbn [arena ElList_ set_ElList set_arena].
  split.
  { unfold friends_at. simpl. rewrite list_lookup_insert_eq; [done|].
    by eapply lookup_lt_Some. }
  split; [done|]. split.
  { intros q Hq'. apply list_elem_of_fmap in Hq' as (e & -> & He). by apply Hrs. }
  rewrite length_fmap. split; [done|]. split.
  - intros q Hq'. apply list_elem_of_fmap in Hq' as (e & -> & He).
    destruct (Hlinked e He) as [(ndr & Hr & Hin) _].
    exists ndr. split; [|done]. rewrite list_lookup_insert_ne; [done|].
    intros Heq. by apply (Hrsx e He).
  - intros p ndp Hpx Hp.
    assert (arena s2 !! p = Some ndp) as Hp2.
    { rewrite Ha2. simpl. by rewrite list_lookup_insert_ne. }
    destruct (Hgrow p ndp Hp2) as (nd3 & Hnd3 & _ & _ & Hsub).
    exists nd3. split; [|done]. by rewrite list_lookup_insert_ne.
Qed.

(** X12.  Let the graph be quiescent and connected, with [N0 >= 1]
    published nodes, [NN >= 1] and one attempt per insertion, and let [x]
    be allocated and unpublished.  Then [add] returns and links [x] with
    [min NN N0] published nodes that are all different; so as long as the
    graph has no more than [NN] nodes, every published node becomes a
    friend of [x], exactly once. *)
Theorem add_links_distinct_nodes (fuel : nat) (x : ptr) (s : state) :
  quiescent (arena s) (ElList_ s) ->
  connected (arena s) (ElList_ s) ->
  ElList_ s <> [] ->
  x ∉ ElList_ s ->
  is_Some (arena s !! x) ->
  1 <= NN_ s ->
  initIndexAttempts_ s = 1 ->
  2 * length (ElList_ s) + 1 < fuel ->
  exists s' fs,
    add fuel x s = (Ok tt, s') /\
    friends_at s' x = Some fs /\
    NoDup fs /\
    (forall q, q ∈ fs -> q ∈ ElList_ s) /\
    length fs = NN_ s `min` length (ElList_ s) /\
    (length (ElList_ s) <= NN_ s -> fs ≡ₚ ElList_ s).
Proof.
  intros Hq Hconn Hne Hx [nd Hnd] HNN Hatt Hfuel.
  destruct (add_one_attempt fuel x s nd)
    as (s' & fs & Hadd & Hfs & Hnodup & Hin & Hlen & _); try done.
  exists s', fs. repeat (split; [done|]).
  intros Hfew. apply submseteq_length_Permutation.
  - by apply NoDup_submseteq.
  - lia.
Qed.

(** *** The first nodes of a build form a clique *)

(** The published nodes at positions up to [k] are friends of each other. *)
Definition clique_upto (k : nat) (s : state) : Prop :=
  forall i j p q, i < j -> j <= k ->
    ElList_ s !! i = Some p -> ElList_ s !! j = Some q ->
    edge (arena s) p q /\ edge (arena s) q p.

Lemma add_clique (fuel : nat) (obj : Object) (s : state) :
  quiescent (arena s) (ElList_ s) ->
  connected (arena s) (ElList_ s) ->
  ElList_ s <> [] ->
  1 <= NN_ s ->
  initIndexAttempts_ s = 1 ->
  2 * length (ElList_ s) + 1 < fuel ->
  clique_upto (NN_ s) s ->
  exists s',
    add fuel (length (arena s))
      (set_arena (arena s ++ [mkNode obj size_t_max []]) s) = (Ok tt, s') /\
    quiescent (arena s') (ElList_ s') /\
    connected (arena s') (ElList_ s') /\
    ElList_ s' = ElList_ s ++ [length (arena s)] /\
    NN_ s' = NN_ s /\ initIndexAttempts_ s' = initIndexAttempts_ s /\
    clique_upto (NN_ s') s'.
Proof.
  intros Hq Hconn Hne HNN Hatt Hfuel Hcl.
  set (x := length (arena s)).
  set (s0 := set_arena (arena s ++ [mkNode obj size_t_max []]) s).
  assert (x ∉ ElList_ s) as Hx.
  { intros Hin. destruct (published_node _ _ Hq _ Hin) as (? & ? & _ & _ & Hv & _).
    apply lookup_lt_Some in Hv. unfold x in Hv. lia. }
  assert (arena s0 !! x = Some (mkNode obj size_t_max [])) as Hnd.
  { simpl. unfold x. rewrite lookup_app_r by lia. by rewrite Nat.sub_diag. }
  assert (quiescent (arena s0) (ElList_ s0)) as Hq0 by (by apply quiescent_app).
  assert (connected (arena s0) (ElList_ s0)) as Hc0.
  { intros p q Hp Hq'. simpl in Hp, Hq'.
    apply (connected_mono (arena s) _ (ElList_ s) Hq); [|done|by apply Hconn].
    intros p0 nd0 _ Hnd0. exists nd0. split; [|done]. by apply lookup_app_l_Some. }
  destruct (add_preserves fuel x s0) as (s' & Hadd & Hq' & Hc' & He' & HN' & HA');
    try done; [simpl; lia|].
  destruct (add_one_attempt fuel x s0 (mkNode obj size_t_max []))
    as (s'' & fs & Hadd2 & Hfs & Hnodup & Hin & Hlen & Hback & Hkeep); try done.
  rewrite Hadd in Hadd2. injection Hadd2 as <-.
  exists s'. repeat (split; [done|]).
  simpl in He', HN', Hin, Hlen.
  intros i j p q Hij Hj. rewrite HN' in Hj. rewrite He'.
  assert (length (ElList_ s) <> 0) as Hlen0 by (by destruct (ElList_ s)).
  destruct (decide (j < length (ElList_ s))) as [Hold|Hnew].
  - (* both nodes were published: their edges stay *)
    rewrite !lookup_app_l by lia. intros Hp Hq2.
    destruct (Hcl i j p q Hij Hj Hp Hq2) as [Hpq Hqp].
    assert (forall a b, a ∈ ElList_ s -> edge (arena s) a b -> edge (arena s') a b) as Hmono.
    { intros a b Ha (nda & Hnda & Hb).
      destruct (Hkeep a nda) as (nda' & Hnda' & Hsub).
      - intros ->. done.
      - simpl. by apply lookup_app_l_Some.
      - exists nda'. split; [done|by apply Hsub]. }
    split; apply Hmono; try done; by eapply list_elem_of_lookup_2.
  - (* the new node, while the graph has at most [NN] nodes *)
    intros Hp Hq2.
    assert (j = length (ElList_ s)) as ->.
    { apply lookup_lt_Some in Hq2. rewrite length_app in Hq2. simpl in Hq2. lia. }
    rewrite lookup_app_l in Hp by lia.
    rewrite lookup_app_r in Hq2 by lia. rewrite Nat.sub_diag in Hq2.
    injection Hq2 as <-.
    assert (fs ≡ₚ ElList_ s) as Hperm.
    { apply submseteq_length_Permutation; [by apply NoDup_submseteq|lia]. }
    assert (p ∈ fs) as Hpf.
    { rewrite Hperm. by eapply list_elem_of_lookup_2. }
    split.
    + destruct (Hback p Hpf) as (ndp & Hndp & Hxin). by exists ndp.
    + unfold friends_at in Hfs.
      destruct (arena s' !! x) as [ndx|] eqn:Hndx; [|done].
      injection Hfs as <-. by exists ndx.
Qed.

Lemma add_all_clique (fuel : nat) : forall (data : list Object) (s : state),
  quiescent (arena s) (ElList_ s) ->
  connected (arena s) (ElList_ s) ->
  ElList_ s <> [] ->
  1 <= NN_ s ->
  initIndexAttempts_ s = 1 ->
  2 * (length (ElList_ s) + length data) + 1 < fuel ->
  clique_upto (NN_ s) s ->
  exists s',
    add_all IndexTimeDistance rand_src fuel data s = (Ok tt, s') /\
    NN_ s' = NN_ s /\
    length (ElList_ s') = length (ElList_ s) + length data /\
    clique_upto (NN_ s') s'.
Proof.
  induction data as [|obj data IH]; intros s Hq Hconn Hne HNN Hatt Hfuel Hcl.
  - exists s. simpl. split; [done|]. split; [done|]. split; [lia|done].
  - cbn [add_all]. unfold new_MSWNode. unfold bind at 1.
    destruct (add_clique fuel obj s)
      as (s1 & Hadd & Hq1 & Hc1 & He1 & HN1 & HA1 & Hcl1); try done.
    { simpl in Hfuel. lia. }
    erewrite bind_Ok by exact Hadd.
    destruct (IH s1) as (s' & Hrun & HN' & Hlen' & Hcl'); try done.
    + rewrite He1. by destruct (ElList_ s).
    + by rewrite HN1.
    + by rewrite HA1.
    + rewrite He1, length_app. simpl in *. lia.
    + exists s'. split; [done|]. split; [congruence|]. split; [|done].
      rewrite Hlen', He1, length_app. simpl. lia.
Qed.

(** X13.  With one thread, [NN >= 1] and one attempt per insertion, the
    first [NN + 1] nodes of the index the constructor builds are friends of
    each other: for positions [i < j <= NN] there is an edge from the node
    at [i] to the node at [j] and one back. *)
Theorem sequential_build_initial_clique (fuel : nat) (omp : option nat)
    (rand0 : nat) (first : Object) (rest : list Object) (MethParams : AnyParams) :
  1 <= GetParamOptional (param_NN MethParams) 5 ->
  GetParamOptional (param_initIndexAttempts MethParams) 2 = 1 ->
  GetParamOptional (param_indexThreadQty MethParams) (GetParamOptional omp 0) <= 1 ->
  2 * S (length rest) + 1 < fuel ->
  exists s,
    SmallWorldRand_new fuel omp rand0 (first :: rest) MethParams = (Ok tt, s) /\
    length (ElList_ s) = S (length rest) /\
    forall i j p q, i < j -> j <= GetParamOptional (param_NN MethParams) 5 ->
      ElList_ s !! i = Some p -> ElList_ s !! j = Some q ->
      (exists ndp, arena s !! p = Some ndp /\ q ∈ friends ndp) /\
      (exists ndq, arena s !! q = Some ndq /\ p ∈ friends ndq).
Proof.
  intros HNN Hatt Hthr Hfuel.
  assert (SmallWorldRand_new fuel omp rand0 (first :: rest) MethParams =
          add_all IndexTimeDistance rand_src fuel rest
            (singleton_index first omp rand0 MethParams)) as ->.
  { unfold SmallWorldRand_new, bind, new_MSWNode, addCriticalSection, gets. simpl.
    by rewrite bool_decide_eq_true_2 by done. }
  pose proof (singleton_built first omp rand0 MethParams) as [Hq Hc _ _].
  destruct (add_all_clique fuel rest (singleton_index first omp rand0 MethParams))
    as (s & Hrun & HN & Hlen & Hcl); try done.
  { intros i j p q Hij _ _ Hj. simpl in Hj. destruct j as [|j]; [lia|done]. }
  exists s. split; [done|]. split; [done|].
  intros i j p q Hij Hj Hp Hq'. apply (Hcl i j p q Hij); [|done|done].
  by rewrite HN.
Qed.

End Properties.


(** A state with one allocated, unpublished node. *)
Definition lone_node : SmallWorldRand Z :=
  mkIndex [mkNode 7%Z size_t_max [3; 4]] [] 5 2 10 1 0.

Lemma add_empty_graph_throws_witness :
  exists s',
    add (fun a b => Z.abs (a - b)) (fun _ => 0) 10 0 lone_node
      = (Throw "Bug: the list of nodes shouldn't be empty!", s') /\
    ElList_ s' = [] /\
    arena s' = <[0 := set_friends [] (mkNode 7%Z size_t_max [3; 4])]> (arena lone_node) /\
    (forall p, p <> 0 -> arena s' !! p = arena lone_node !! p) /\
    addIndex_at s' 0 = addIndex_at lone_node 0 /\
    rand_calls s' = rand_calls lone_node.
Proof.
  apply (add_empty_graph_throws (fun a b => Z.abs (a - b)) (fun _ => 0)
           10 0 lone_node (mkNode 7%Z size_t_max [3; 4])); reflexivity.
Defined.

(** Three allocated nodes, none published. *)
Definition three_fresh : SmallWorldRand Z :=
  mkIndex [mkNode 1%Z size_t_max []; mkNode 2%Z size_t_max []; mkNode 3%Z size_t_max []]
          [] 5 2 10 1 0.

Lemma append_index_density_witness :
  exists s',
    append_all [2; 0; 1] three_fresh = (Ok tt, s') /\
    ElList_ s' = [2; 0; 1] /\
    length (ElList_ s') = 3 /\
    addIndex_at s' <$> ElList_ s' = [Some 0%N; Some 1%N; Some 2%N].
Proof.
  apply (append_index_density [2; 0; 1] three_fresh).
  - reflexivity.
  - apply (bool_decide_unpack _). reflexivity.
  - intros p Hp. simpl.
    apply elem_of_cons in Hp as [->|Hp]; [by eexists|].
    apply elem_of_cons in Hp as [->|Hp]; [by eexists|].
    apply list_elem_of_singleton in Hp as ->. by eexists.
Defined.

(** Appending node 0 a second time is not refused and overwrites its
    index: after the appends of 0, 1 and 0 the graph lists three nodes
    whose indices read 2, 1, 2, and no node has the index 0. *)
Lemma append_twice_breaks_density :
  exists s',
    append_all [0; 1; 0] three_fresh = (Ok tt, s') /\
    ElList_ s' = [0; 1; 0] /\
    length (ElList_ s') = 3 /\
    addIndex_at s' <$> ElList_ s' = [Some 2%N; Some 1%N; Some 2%N] /\
    addIndex_at s' <$> ElList_ s' <> (fun i => Some (N.of_nat i)) <$> seq 0 3 /\
    forall p, addIndex_at s' p <> Some 0%N.
Proof.
  eexists. split; [vm_compute; reflexivity|].
  split; [reflexivity|]. split; [reflexivity|]. split; [reflexivity|].
  split; [discriminate|].
  intros p. destruct p as [|[|[|p]]]; discriminate.
Qed.

(** ** Concrete graphs *)

(** Integers under the distance |a - b|. *)
Definition abs_dist (a b : Z) : Z := Z.abs (a - b).

(** Two published nodes, linked to each other, and one fresh node. *)
Definition two_linked (nn attempts : nat) : SmallWorldRand Z :=
  mkIndex [mkNode 0%Z 0%N [1]; mkNode 10%Z 1%N [0]; mkNode 4%Z size_t_max []]
          [0; 1] nn attempts 10 1 1.

(** [two_linked 3 1] is the index built from the data 0, 10 with [NN = 3]
    and one attempt, after the node for the next object, 4, is allocated. *)
Lemma two_linked_arises :
  exists s,
    SmallWorldRand_new abs_dist id 6 None 0 [0%Z; 10%Z]
      (mkParams (Some 3) (Some 1) None (Some 1)) = (Ok tt, s) /\
    new_MSWNode 4%Z s = (Ok 2, two_linked 3 1).
Proof. eexists. split; vm_compute; reflexivity. Qed.

Lemma two_linked_quiescent (nn attempts : nat) :
  quiescent (arena (two_linked nn attempts)) (ElList_ (two_linked nn attempts)).
Proof.
  intros i p Hp. destruct i as [|[|i]]; simpl in Hp; try discriminate;
    injection Hp as <-; eexists; (split; [reflexivity|]); (split; [reflexivity|]);
    simpl; intros q Hq; apply list_elem_of_singleton in Hq as ->;
    apply (bool_decide_unpack _); reflexivity.
Qed.

Lemma two_linked_connected (nn attempts : nat) :
  connected (arena (two_linked nn attempts)) (ElList_ (two_linked nn attempts)).
Proof.
  assert (edge (arena (two_linked nn attempts)) 0 1) as H01.
  { eexists. split; [reflexivity|]. simpl. by apply list_elem_of_singleton. }
  assert (edge (arena (two_linked nn attempts)) 1 0) as H10.
  { eexists. split; [reflexivity|]. simpl. by apply list_elem_of_singleton. }
  intros p q Hp Hq. simpl in Hp, Hq.
  apply elem_of_cons in Hp as [->|Hp]; [|apply list_elem_of_singleton in Hp as ->];
    (apply elem_of_cons in Hq as [->|Hq]; [|apply list_elem_of_singleton in Hq as ->]);
    first [apply rtc_refl | by apply rtc_once].
Qed.

(** C2.  The single-threaded build of the data 0, 10, 4 with [NN = 1] and
    two attempts per insertion.  The first two objects give a graph of
    [N0 = 2] nodes.  The traversal for the third enters it twice: the first
    attempt leaves one entry in the result set, capped at [NN] on the
    neighbour path (lines 312-316), and the second puts its entry point on
    top without any check (line 257).  [add] links once per entry, so that
    the inserted node ends with the two friends 1 and 0, and not with
    [min NN N0 = 1]. *)
Theorem add_degree_exceeds_min :
  exists s2 s',
    SmallWorldRand_new abs_dist id 6 None 0 [0%Z; 10%Z]
      (mkParams (Some 1) (Some 2) None (Some 1)) = (Ok tt, s2) /\
    length (ElList_ s2) = 2 /\ NN_ s2 = 1 /\
    add abs_dist id 6 2 (new_MSWNode 4%Z s2).2 = (Ok tt, s') /\
    friends_at s' 2 = Some [1; 0] /\
    length [1; 0] <> NN_ s2 `min` length (ElList_ s2).
Proof.
  eexists _, _. split; [vm_compute; reflexivity|].
  split; [reflexivity|]. split; [reflexivity|].
  split; [vm_compute; reflexivity|]. split; [reflexivity|]. simpl. lia.
Qed.

(** The state [add] leaves when it inserts the fresh node of [two_linked]. *)
Definition two_linked_added : SmallWorldRand Z :=
  (add abs_dist id 6 2 (two_linked 3 1)).2.

(** The log of that insertion. *)
Definition two_linked_log : list (write * SmallWorldRand Z) :=
  (add_t abs_dist id 6 2 (two_linked 3 1)).2.

(** Its writes: node 2 is linked with node 1, then with node 0, and
    published last. *)
Lemma two_linked_writes :
  two_linked_log.*1 =
    [Wclear 2; Wfriend 1 2; Wfriend 2 1; Wfriend 0 2; Wfriend 2 0; Wpublish 2].
Proof. vm_compute. reflexivity. Qed.

Lemma add_publishes_after_linking_witness :
  add abs_dist id 6 2 (two_linked 3 1) = (Ok tt, two_linked_added) /\
  (forall i w sw, two_linked_log !! i = Some (w, sw) ->
     w = Wpublish 2 \/
     (ElList_ sw = ElList_ (two_linked 3 1) /\
      addIndex_at sw 2 = addIndex_at (two_linked 3 1) 2)) /\
  (forall i sw, two_linked_log !! i = Some (Wpublish 2, sw) ->
     S i = length two_linked_log /\ Ok tt = Ok tt /\ sw = two_linked_added /\
     ElList_ two_linked_added = ElList_ (two_linked 3 1) ++ [2] /\
     addIndex_at two_linked_added 2 =
       Some (N.of_nat (length (ElList_ (two_linked 3 1)))) /\
     forall j p el sj, two_linked_log !! j = Some (Wfriend p el, sj) ->
       j < i /\ exists nd, arena two_linked_added !! p = Some nd /\ el ∈ friends nd) /\
  (Ok tt = Ok tt ->
   exists nd rs ev s2,
     arena (two_linked 3 1) !! 2 = Some nd /\
     kSearchElementsWithAttempts abs_dist id 6 (data_ nd) (NN_ (two_linked 3 1))
       (initIndexAttempts_ (two_linked 3 1)) []
       (set_arena (<[2 := set_friends [] nd]> (arena (two_linked 3 1))) (two_linked 3 1))
       = (Ok (rs, ev), s2) /\
     two_linked_log.*1 =
       Wclear 2 ::
       concat ((fun e => [Wfriend (getMSWNode e) 2; Wfriend 2 (getMSWNode e)]) <$> rs)
       ++ [Wpublish 2]).
Proof.
  apply (add_publishes_after_linking abs_dist id 6 2 (two_linked 3 1)
           two_linked_added (Ok tt) two_linked_log).
  vm_compute. reflexivity.
Defined.

(** ** Graphs seen while another insertion is under way *)

(** Two published nodes, linked, and two allocated ones. *)
Definition before_one_pending : SmallWorldRand Z :=
  mkIndex [mkNode 0%Z 0%N [1]; mkNode 10%Z 1%N [0];
           mkNode 4%Z size_t_max []; mkNode 5%Z size_t_max []]
          [0; 1] 5 1 10 2 0.

(** Two published nodes and a third, at position 2, that another thread has
    linked to both but not yet appended: its index is still the sentinel.
    Position 3 is the node being inserted. *)
Definition one_pending : SmallWorldRand Z :=
  mkIndex [mkNode 0%Z 0%N [1; 2]; mkNode 10%Z 1%N [0; 2];
           mkNode 4%Z size_t_max [1; 0]; mkNode 5%Z size_t_max []]
          [0; 1] 5 1 10 2 1.

(** [one_pending] is the state in which the thread inserting node 2 into
    [before_one_pending] is about to append it. *)
Lemma one_pending_arises :
  add_links abs_dist id 10 2 before_one_pending = (Ok tt, one_pending).
Proof. vm_compute. reflexivity. Qed.

(** The traversal for the new node evaluates the pending node twice: once as
    a friend of node 0 and once as a friend of node 1. *)
Lemma pending_node_evaluated_twice :
  exists rs s',
    kSearchElementsWithAttempts abs_dist id 10 5%Z 5 1 [] one_pending
      = (Ok (rs, [1; 0; 2; 2]), s').
Proof. eexists _, _. vm_compute. reflexivity. Qed.


(** One published node and three allocated ones; all payloads are equal, so
    every distance is 0. *)
Definition before_pending : SmallWorldRand Z :=
  mkIndex [mkNode 7%Z 0%N []; mkNode 7%Z size_t_max [];
           mkNode 7%Z size_t_max []; mkNode 7%Z size_t_max []]
          [0] 5 1 10 3 0.

(** One published node and two pending ones, at positions 1 and 2, linked to
    it and to each other: two concurrent insertions have made their links
    and neither has appended its node yet.  Position 3 is the node a third
    thread inserts. *)
Definition two_pending : SmallWorldRand Z :=
  mkIndex [mkNode 7%Z 0%N [1; 2]; mkNode 7%Z size_t_max [0; 2];
           mkNode 7%Z size_t_max [0; 1]; mkNode 7%Z size_t_max []]
          [0] 5 1 10 3 2.

(** [two_pending] is the state in which two threads inserting the nodes 1
    and 2 into [before_pending] are both about to append, the second having
    started after the first made its links. *)
Lemma two_pending_arises :
  exists s1,
    add_links abs_dist id 5 1 before_pending = (Ok tt, s1) /\
    add_links abs_dist id 5 2 s1 = (Ok tt, two_pending).
Proof. eexists. split; vm_compute; reflexivity. Qed.

Section Spinning.
Variable NN : nat.

Local Abbreviation h := (arena two_pending).
Local Abbreviation visit := (visit_neighbor abs_dist h 7%Z NN 1).

(** The states the loop goes through on [two_pending]: the bit of node 0
    is set, and everything queued is at distance 0. *)
Record spin (t : trav) : Prop := mk_spin {
  spin_bits : visitedBitset t = [true];
  spin_cand : forall e, e ∈ candidateSet t ->
                getDistance e = 0%Z /\
                (getMSWNode e = 0 \/ getMSWNode e = 1 \/ getMSWNode e = 2);
  spin_cdq_ne : closestDistQueue t <> [];
  spin_cdq : forall d, d ∈ closestDistQueue t -> d = 0%Z;
  spin_rs : resultSet t <> [];
}.

Lemma spin_visit_published (t : trav) : spin t -> visit t 0 = Ok t.
Proof. intros [Hb _ _ _ _]. unfold visit_neighbor. simpl. by rewrite Hb. Qed.

Lemma spin_visit_pending (t : trav) (p : ptr) :
  spin t -> p = 1 \/ p = 2 ->
  exists t', visit t p = Ok t' /\ spin t' /\ candidateSet t' <> [].
Proof.
  intros [Hb Hc Hdn Hd Hr] Hp.
  assert (exists nd, h !! p = Some nd /\ addIndex_ nd = size_t_max /\ data_ nd = 7%Z)
    as (nd & Hnd & Hidx & Hdata).
  { destruct Hp as [-> | ->]; eexists; repeat split. }
  eexists. split.
  { apply (visit_unindexed abs_dist h 7%Z NN 1 t p nd Hnd); [|done].
    rewrite Hidx. unfold size_t_max. lia. }
  unfold evaluate. rewrite Hdata. change (abs_dist 7 7) with 0%Z.
  split; [split|]; simpl; try done.
  - intros e He. apply pq_push_elem in He as [->|He]; [|by apply Hc].
    simpl. split; [done|]. right. done.
  - by apply pop_after_push_nonempty.
  - intros d Hd'.
    assert (d ∈ pq_push Z.ltb 0%Z (closestDistQueue t)) as Hd''.
    { case_bool_decide; [by apply elem_of_pop|done]. }
    apply pq_push_elem in Hd'' as [->|Hd'']; [done|by apply Hd].
  - destruct (if bool_decide (pq_size (resultSet t) < NN) then true else _); [|done].
    by apply pop_after_push_nonempty.
  - apply pq_push_nonempty.
Qed.

(** One more iteration is always possible: the loop never exits. *)
Lemma candidate_loop_spins (fuel : nat) : forall t,
  spin t -> candidateSet t <> [] ->
  candidate_loop abs_dist h 7%Z NN 1 fuel t = OutOfFuel.
Proof.
  induction fuel as [|fuel IH]; intros t Ht Hne; [done|].
  simpl. destruct (candidateSet t) as [|e rest] eqn:Ec; [done|]. simpl.
  destruct (closestDistQueue t) as [|lb cdq] eqn:Ed; [by destruct (spin_cdq_ne t Ht)|].
  simpl.
  assert (lb = 0%Z) as -> by (apply (spin_cdq t Ht); rewrite Ed; left).
  destruct (spin_cand t Ht e) as [He Hnode]; [rewrite Ec; left|].
  rewrite He. simpl.
  assert (spin (set_candidateSet rest t)) as Ht'.
  { destruct Ht as [H1 H2 H3 H4 H5]. split; simpl; try done.
    intros e' He'. apply H2. rewrite Ec. by right. }
  pose proof (spin_visit_published _ Ht') as Hv0.
  destruct Hnode as [-> | [-> | ->]];
    cbn [lookup list_lookup arena two_pending friends for_each].
  - destruct (spin_visit_pending _ 1 Ht') as (t1 & Hv1 & Ht1 & _); [by left|].
    destruct (spin_visit_pending _ 2 Ht1) as (t2 & Hv2 & Ht2 & Hne2); [by right|].
    cbn [arena two_pending] in Hv1, Hv2. rewrite Hv1. cbn [obind]. rewrite Hv2.
    cbn [obind]. by apply IH.
  - destruct (spin_visit_pending _ 2 Ht') as (t1 & Hv2 & Ht1 & Hne1); [by right|].
    cbn [arena two_pending] in Hv0, Hv2. rewrite Hv0. cbn [obind]. rewrite Hv2.
    cbn [obind]. by apply IH.
  - destruct (spin_visit_pending _ 1 Ht') as (t1 & Hv1 & Ht1 & Hne1); [by left|].
    cbn [arena two_pending] in Hv0, Hv1. rewrite Hv0. cbn [obind]. rewrite Hv1.
    cbn [obind]. by apply IH.
Qed.

End Spinning.

(** C9.  On [two_pending], a state that two concurrent insertions lead to
    ([two_pending_arises]), the index-time traversal does not terminate:
    for every sequence of random numbers and every bound on the number of
    iterations of the [while] loop, the traversal for the new node, and so
    [add], is still in its first attempt when the bound is reached. *)
Theorem traversal_spins_on_pending_nodes (rand_src : nat -> nat) (fuel : nat) :
  (kSearchElementsWithAttempts abs_dist rand_src fuel 7%Z 5 1 [] two_pending).1
    = OutOfFuel /\
  (add abs_dist rand_src fuel 3 two_pending).1 = OutOfFuel.
Proof.
  assert (forall s, arena s = arena two_pending -> ElList_ s = [0] ->
            (kSearchElementsWithAttempts abs_dist rand_src fuel 7%Z 5 1 [] s).1
              = OutOfFuel) as Hk.
  { intros s Ha He.
    unfold kSearchElementsWithAttempts, getEntryQtyLocked. unfold bind at 1.
    cbn [attempts_loop]. unfold getRandomEntryPointLocked, getRandomEntryPoint.
    unfold bind at 1. unfold bind at 1. rewrite He. cbn [length].
    rewrite bool_decide_eq_false_2 by done. rewrite Nat.mod_1_r.
    cbn [lookup list_lookup arena set_rand_calls]. rewrite Ha.
    unfold seed_attempt. simpl lookup. cbv iota beta. simpl obind.
    rewrite candidate_loop_spins; [done| |done].
    split; simpl; try done.
    - intros e He'. apply list_elem_of_singleton in He' as ->. split; [done|by left].
    - intros d Hd. apply list_elem_of_singleton in Hd as ->. done. }
  split; [by apply Hk|].
  unfold add, bind, removeAllFriends, gets, deref.
  cbn -[kSearchElementsWithAttempts link_results addCriticalSection].
  match goal with |- context [kSearchElementsWithAttempts _ _ _ _ _ _ _ ?s] =>
    pose proof (Hk s eq_refl eq_refl) as Hs;
    destruct (kSearchElementsWithAttempts abs_dist rand_src fuel 7%Z 5 1 [] s) as [o s']
  end.
  simpl in Hs. by rewrite Hs.
Qed.

(** A query for the integer 4. *)
Definition query_4 : KNNQuery Z := mkQuery (abs_dist 4%Z) [].

Lemma Search_needs_a_published_node_witness :
  (getRandomEntryPoint id lone_node = (Ok None, lone_node) /\
   Search id 5 query_4 lone_node = (Fault, lone_node) /\
   forall x, is_Some (arena lone_node !! x) ->
     exists s', add abs_dist id 5 x lone_node
                  = (Throw "Bug: the list of nodes shouldn't be empty!", s')) /\
  (exists query' s',
     Search id 6 query_4 (two_linked 3 1) = (Ok query', s') /\
     same_index (two_linked 3 1) s').
Proof.
  split.
  - apply (Search_needs_a_published_node abs_dist id 5 query_4 lone_node).
    + intros i p Hp. discriminate Hp.
    + unfold size_t_max. simpl. lia.
    + simpl. lia.
    + simpl. lia.
    + reflexivity.
  - apply (Search_needs_a_published_node abs_dist id 6 query_4 (two_linked 3 1)).
    + apply two_linked_quiescent.
    + unfold size_t_max. simpl. lia.
    + simpl. lia.
    + simpl. lia.
    + discriminate.
Defined.

(** ** Instances of the further properties *)

Definition no_params : AnyParams := mkParams None None None None.

Lemma sequential_build_quiescent_witness :
  exists s,
    SmallWorldRand_new abs_dist id 10 None 0 [0%Z; 10%Z; 4%Z] no_params = (Ok tt, s) /\
    quiescent (arena s) (ElList_ s) /\
    connected (arena s) (ElList_ s) /\
    length (ElList_ s) = S (length [10%Z; 4%Z]).
Proof.
  apply (sequential_build_quiescent abs_dist id 10 None 0 0%Z [10%Z; 4%Z] no_params);
    simpl; lia.
Defined.

Lemma sequential_build_undirected_witness :
  exists s,
    SmallWorldRand_new abs_dist id 10 None 0 [0%Z; 10%Z; 4%Z] no_params = (Ok tt, s) /\
    (forall i obj, [0%Z; 10%Z; 4%Z] !! i = Some obj ->
       exists p nd, ElList_ s !! i = Some p /\ arena s !! p = Some nd /\
                    data_ nd = obj /\ addIndex_ nd = N.of_nat i) /\
    (forall p q ndp, arena s !! p = Some ndp -> q ∈ friends ndp ->
       q <> p /\ exists ndq, arena s !! q = Some ndq /\ p ∈ friends ndq).
Proof.
  apply (sequential_build_undirected abs_dist id 10 None 0 0%Z [10%Z; 4%Z] no_params);
    simpl; lia.
Defined.

(** Two threads. *)
Definition two_threads : AnyParams := mkParams None None None (Some 2).

Lemma threaded_build_in_spawn_order_witness :
  exists s order,
    SmallWorldRand_new abs_dist id 12 None 0 [0%Z; 10%Z; 4%Z; 5%Z; 7%Z] two_threads
      = (Ok tt, s) /\
    order =
      (let T := GetParamOptional (param_indexThreadQty two_threads)
                  (GetParamOptional None 0) in
       concat ((fun w => picked w T 1 [10%Z; 4%Z; 5%Z; 7%Z]) <$> seq 0 T)) /\
    order ≡ₚ [10%Z; 4%Z; 5%Z; 7%Z] /\
    length (ElList_ s) = S (length [10%Z; 4%Z; 5%Z; 7%Z]) /\
    Forall2 (fun p obj => exists nd, arena s !! p = Some nd /\ data_ nd = obj)
      (ElList_ s) (0%Z :: order) /\
    quiescent (arena s) (ElList_ s) /\
    connected (arena s) (ElList_ s) /\
    (forall p q ndp, arena s !! p = Some ndp -> q ∈ friends ndp ->
       q <> p /\ exists ndq, arena s !! q = Some ndq /\ p ∈ friends ndq).
Proof.
  apply (threaded_build_in_spawn_order abs_dist id 12 None 0 0%Z
           [10%Z; 4%Z; 5%Z; 7%Z] two_threads); simpl; lia.
Defined.

(** What the traversal for the node of [one_pending] returns. *)
Definition pending_results : list Evaluated :=
  [mkEv 5%Z 1; mkEv 5%Z 0; mkEv 1%Z 2; mkEv 1%Z 2].

Lemma traversal_result_sound_witness :
  1 <= length pending_results /\
  length pending_results <= 5 + 1 /\
  forall e, e ∈ pending_results ->
    (exists nd, arena one_pending !! getMSWNode e = Some nd /\
                getDistance e = abs_dist 5%Z (data_ nd)) /\
    (getMSWNode e ∈ ElList_ one_pending \/
     exists q nd, arena one_pending !! q = Some nd /\ getMSWNode e ∈ friends nd).
Proof.
  apply (traversal_result_sound abs_dist id 10 5%Z 5 1 one_pending
           (set_rand_calls 2 one_pending) pending_results [1; 0; 2; 2]).
  vm_compute. reflexivity.
Defined.

(** The state [add] leaves when it inserts node 3 into [one_pending]. *)
Definition one_pending_added : SmallWorldRand Z :=
  (add abs_dist id 10 3 one_pending).2.

Lemma add_degree_bounds_witness :
  exists fs,
    friends_at one_pending_added 3 = Some fs /\
    initIndexAttempts_ one_pending <= length fs /\
    length fs <= NN_ one_pending + initIndexAttempts_ one_pending /\
    ElList_ one_pending_added = ElList_ one_pending ++ [3] /\
    addIndex_at one_pending_added 3 = Some (N.of_nat (length (ElList_ one_pending))) /\
    forall q, q ∈ fs ->
      q <> 3 /\ exists nd, arena one_pending_added !! q = Some nd /\ 3 ∈ friends nd.
Proof.
  apply (add_degree_bounds abs_dist id 10 3 one_pending one_pending_added).
  - apply (bool_decide_unpack _). reflexivity.
  - intros q nd Hq Hnd.
    destruct q as [|[|[|[|q]]]]; simpl in Hnd; try done;
      injection Hnd as <-; apply (bool_decide_unpack _); reflexivity.
  - vm_compute. reflexivity.
Defined.

Lemma traversal_cost_quiescent_witness :
  exists rs ev s',
    kSearchElementsWithAttempts abs_dist id 6 4%Z 3 2 [] (two_linked 3 1)
      = (Ok (rs, ev), s') /\
    same_index (two_linked 3 1) s' /\
    rand_calls s' = rand_calls (two_linked 3 1) + 2 /\
    (forall e, e ∈ rs -> getMSWNode e ∈ ElList_ (two_linked 3 1)) /\
    (forall p, p ∈ ev -> p ∈ ElList_ (two_linked 3 1)) /\
    length ev <= length (ElList_ (two_linked 3 1)) + 2 - 1.
Proof.
  apply (traversal_cost_quiescent abs_dist id 6 4%Z 3 2 (two_linked 3 1)).
  - apply two_linked_quiescent.
  - discriminate.
  - simpl. lia.
Defined.

(** The query for 4 after it has been run on [two_linked 3 1]. *)
Definition query_4_answered : KNNQuery Z := mkQuery (abs_dist 4%Z) [(4%Z, 0%Z)].

Lemma Search_reports_sound_witness :
  same_index (two_linked 3 1) (set_rand_calls 11 (two_linked 3 1)) /\
  DistanceObjLeft query_4_answered = DistanceObjLeft query_4 /\
  exists new,
    reports query_4_answered = reports query_4 ++ new /\
    forall d o, (d, o) ∈ new ->
      d = DistanceObjLeft query_4 o /\
      exists p nd, arena (two_linked 3 1) !! p = Some nd /\ data_ nd = o /\
        addIndex_ nd <> size_t_max /\
        exists q ndq, arena (two_linked 3 1) !! q = Some ndq /\ p ∈ friends ndq.
Proof.
  apply (Search_reports_sound id 6 query_4 query_4_answered (two_linked 3 1)
           (set_rand_calls 11 (two_linked 3 1))).
  vm_compute. reflexivity.
Defined.

Lemma Search_after_set_params_witness :
  exists s1 query' s',
    SetQueryTimeParamsInternal (Some 2) (two_linked 3 1) = (Ok tt, s1) /\
    Search id 6 query_4 s1 = (Ok query', s') /\
    initSearchAttempts_ s' =
      GetParamOptional (Some 2) (initSearchAttempts_ (two_linked 3 1)) /\
    rand_calls s' =
      rand_calls (two_linked 3 1) +
      GetParamOptional (Some 2) (initSearchAttempts_ (two_linked 3 1)) /\
    arena s' = arena (two_linked 3 1) /\
    ElList_ s' = ElList_ (two_linked 3 1) /\
    NN_ s' = NN_ (two_linked 3 1) /\
    initIndexAttempts_ s' = initIndexAttempts_ (two_linked 3 1) /\
    length (reports query') + 1 <=
      length (reports query_4) + length (ElList_ (two_linked 3 1)) /\
    (GetParamOptional (Some 2) (initSearchAttempts_ (two_linked 3 1)) = 0 ->
     query' = query_4).
Proof.
  apply (Search_after_set_params id 6 (Some 2) query_4 (two_linked 3 1)).
  - apply two_linked_quiescent.
  - unfold size_t_max. simpl. lia.
  - discriminate.
  - simpl. lia.
Defined.

Lemma Search_recall_witness :
  exists query' s' p0 vis new,
    Search id 6 query_4 (two_linked 3 1) = (Ok query', s') /\
    ElList_ (two_linked 3 1)
      !! (id (rand_calls (two_linked 3 1)) mod length (ElList_ (two_linked 3 1)))
      = Some p0 /\
    reports query' = reports query_4 ++ new /\
    Forall2 (fun p r => exists nd, arena (two_linked 3 1) !! p = Some nd /\
                          r = (DistanceObjLeft query_4 (data_ nd), data_ nd))
      vis new /\
    NoDup (p0 :: vis) /\
    (forall p, p ∈ vis -> p ∈ ElList_ (two_linked 3 1)) /\
    (NN_ (two_linked 3 1) `max` 1) `min` (length (ElList_ (two_linked 3 1)) - 1)
      <= length vis /\
    (length (ElList_ (two_linked 3 1)) - 1 <= NN_ (two_linked 3 1) `max` 1 ->
     p0 :: vis ≡ₚ ElList_ (two_linked 3 1)).
Proof.
  apply (Search_recall id 6 query_4 (two_linked 3 1)).
  - apply two_linked_quiescent.
  - apply two_linked_connected.
  - unfold size_t_max. simpl. lia.
  - discriminate.
  - simpl. lia.
  - simpl. lia.
Defined.

Lemma Search_throws_on_pending_friend_witness :
  Search id 1 query_4 one_pending =
    (Throw "Bug: uninitialized addIndex_",
     set_rand_calls (S (rand_calls one_pending)) one_pending).
Proof.
  apply (Search_throws_on_pending_friend id 1 query_4 one_pending 1 2
           (mkNode 10%Z 1%N [0; 2]) (mkNode 4%Z size_t_max [1; 0]) [0] []).
  - unfold size_t_max. simpl. lia.
  - simpl. lia.
  - lia.
  - reflexivity.
  - reflexivity.
  - exists (mkNode 10%Z 1%N [0; 2]), 1. split; [reflexivity|]. split; [reflexivity|].
    simpl. lia.
  - reflexivity.
  - intros r Hr. apply list_elem_of_singleton in Hr as ->.
    exists (mkNode 0%Z 0%N [1; 2]), 0. split; [reflexivity|]. split; [reflexivity|].
    simpl. lia.
  - reflexivity.
  - reflexivity.
Defined.

Lemma add_frame_witness :
  NN_ one_pending_added = NN_ one_pending /\
  initIndexAttempts_ one_pending_added = initIndexAttempts_ one_pending /\
  initSearchAttempts_ one_pending_added = initSearchAttempts_ one_pending /\
  indexThreadQty_ one_pending_added = indexThreadQty_ one_pending /\
  length (arena one_pending_added) = length (arena one_pending) /\
  ElList_ one_pending_added = ElList_ one_pending ++ [3] /\
  forall p nd, p <> 3 -> arena one_pending !! p = Some nd ->
    exists nd' k, arena one_pending_added !! p = Some nd' /\
                  data_ nd' = data_ nd /\ addIndex_ nd' = addIndex_ nd /\
                  friends nd' = friends nd ++ replicate k 3.
Proof.
  apply (add_frame abs_dist id 10 3 one_pending (Ok tt) one_pending_added).
  vm_compute. reflexivity.
Defined.

Lemma add_links_distinct_nodes_witness :
  exists s' fs,
    add abs_dist id 6 2 (two_linked 3 1) = (Ok tt, s') /\
    friends_at s' 2 = Some fs /\
    NoDup fs /\
    (forall q, q ∈ fs -> q ∈ ElList_ (two_linked 3 1)) /\
    length fs = NN_ (two_linked 3 1) `min` length (ElList_ (two_linked 3 1)) /\
    (length (ElList_ (two_linked 3 1)) <= NN_ (two_linked 3 1) ->
     fs ≡ₚ ElList_ (two_linked 3 1)).
Proof.
  apply (add_links_distinct_nodes abs_dist id 6 2 (two_linked 3 1)).
  - apply two_linked_quiescent.
  - apply two_linked_connected.
  - discriminate.
  - apply (bool_decide_unpack _). reflexivity.
  - by eexists.
  - simpl. lia.
  - reflexivity.
  - simpl. lia.
Defined.

(** [NN = 3], one attempt, one thread. *)
Definition one_attempt : AnyParams := mkParams (Some 3) (Some 1) None (Some 1).

Lemma sequential_build_initial_clique_witness :
  exists s,
    SmallWorldRand_new abs_dist id 10 None 0 [0%Z; 10%Z; 4%Z] one_attempt = (Ok tt, s) /\
    length (ElList_ s) = S (length [10%Z; 4%Z]) /\
    forall i j p q, i < j -> j <= GetParamOptional (param_NN one_attempt) 5 ->
      ElList_ s !! i = Some p -> ElList_ s !! j = Some q ->
      (exists ndp, arena s !! p = Some ndp /\ q ∈ friends ndp) /\
      (exists ndq, arena s !! q = Some ndq /\ p ∈ friends ndq).
Proof.
  apply (sequential_build_initial_clique abs_dist id 10 None 0 0%Z [10%Z; 4%Z]
           one_attempt); simpl; lia.
Defined.
